(** * Multimodal-Fusion-CRNN: the SHREC/DHG data loader

    A shallow embedding of [utils/load_utils.py] and [utils/load_data.py]:
    the frame sampler, the min-max image normalisation, the joint loader,
    the image loader, the dataset's per-index retrieval and the cache
    builder, followed by the properties of the loader's specification.
    The data-list handling of the driver [eval_DHG.py] (the original-index
    column, the validation lists, the subjects) is embedded after the
    loader.

    Conventions.
    - Python and NumPy integers are [Z]; fixed-width casts are written out.
    - [float64] values are Rocq's primitive binary64 floats, so every
      rounding of [np.linspace] and of the normalisation is the one NumPy
      performs; [float32] values are [spec_float]s of the binary32 format.
    - An [ndarray] is a shape with its row-major data.
    - A raised exception is an [Err]; the code has no handler anywhere, so an
      exception always propagates to the caller. *)

From Stdlib Require Import String Ascii.
From Stdlib Require Import ZArith List Lia Bool.
From Stdlib Require Import Floats.PrimFloat Floats.FloatOps Floats.SpecFloat.
From Stdlib Require Import Floats.FloatAxioms.
From Stdlib Require Import Numbers.Cyclic.Int63.Uint63.
From Stdlib Require Import Numbers.DecimalString.
From Stdlib Require Import Numbers.DecimalZ Numbers.DecimalPos.
From Stdlib Require Import Sorting.Permutation.
Import ListNotations.

Open Scope bool_scope.
Open Scope Z_scope.

(* ===================================================================== *)
(** ** Exceptions and results *)
(* ===================================================================== *)

(** The Python exceptions the loader can raise. *)
Inductive exn : Type :=
  | TypeError          (* a call with the wrong number of arguments *)
  | IndexError         (* an index outside an array or a list *)
  | KeyError           (* a missing dictionary key *)
  | ValueError         (* a reshape, reduction or pad NumPy refuses *)
  | AssertionError     (* a failed [assert] *)
  | UnboundLocalError  (* a local variable read before assignment *)
  | OSError.           (* a file that cannot be opened or parsed *)

Inductive result (A : Type) : Type :=
  | Ok (a : A)
  | Err (e : exn).
Arguments Ok {A} a.
Arguments Err {A} e.

Definition bind {A B : Type} (c : result A) (k : A -> result B) : result B :=
  match c with
  | Ok a => k a
  | Err e => Err e
  end.

Notation "x <- c ;; k" := (bind c (fun x => k))
  (at level 61, c at next level, right associativity).
Notation "' p <- c ;; k" := (bind c (fun x => let 'p := x in k))
  (at level 61, p pattern, c at next level, right associativity).

(** [mapM f l]: apply [f] to the elements of [l] in order, stopping at the
    first exception. *)
Fixpoint mapM {A B : Type} (f : A -> result B) (l : list A) : result (list B) :=
  match l with
  | [] => Ok []
  | a :: l' => b <- f a ;; bs <- mapM f l' ;; Ok (b :: bs)
  end.

(* ===================================================================== *)
(** ** Indexing *)
(* ===================================================================== *)

(** A negative index counts from the end. *)
Definition wrap_index (n i : Z) : Z := if i <? 0 then i + n else i.

(** [seq[i]] for a Python list or along the first axis of an array:
    anything outside raises. *)
Definition py_index {A : Type} (l : list A) (i : Z) : result A :=
  let n := Z.of_nat (length l) in
  let j := wrap_index n i in
  if (0 <=? j) && (j <? n) then
    match nth_error l (Z.to_nat j) with
    | Some a => Ok a
    | None => Err IndexError
    end
  else Err IndexError.

(** [np.arange(start, stop)] on integers. *)
Definition arange (start stop : Z) : list Z :=
  map (fun k => start + Z.of_nat k) (seq 0 (Z.to_nat (stop - start))).

(** The last element of [l] replaced by [v] ([y[-1] = v]). *)
Fixpoint set_last {A : Type} (l : list A) (v : A) : list A :=
  match l with
  | [] => []
  | [_] => [v]
  | a :: l' => a :: set_last l' v
  end.

(* ===================================================================== *)
(** ** Arrays *)
(* ===================================================================== *)

(** A NumPy array: its shape and its elements in row-major order. *)
Record ndarray (A : Type) : Type := mk_ndarray {
  shape : list Z;
  data : list A
}.
Arguments mk_ndarray {A} shape data.
Arguments shape {A} n.
Arguments data {A} n.

(** The number of elements a shape holds. *)
Definition size_of (sh : list Z) : Z := fold_right Z.mul 1 sh.

(** [arr.shape[0]]. *)
Definition shape0 {A : Type} (a : ndarray A) : result Z :=
  match shape a with
  | [] => Err IndexError
  | n :: _ => Ok n
  end.

(** The number of elements of one entry along the first axis. *)
Definition stride0 {A : Type} (a : ndarray A) : Z := size_of (tl (shape a)).

(** Elements [off, off + len) of a list. *)
Definition slice {A : Type} (l : list A) (off len : Z) : list A :=
  firstn (Z.to_nat len) (skipn (Z.to_nat off) l).

(** [arr.astype(...)] and other element-wise maps keep the shape. *)
Definition nd_map {A B : Type} (f : A -> B) (a : ndarray A) : ndarray B :=
  mk_ndarray (shape a) (map f (data a)).

(* ===================================================================== *)
(** ** Machine numbers *)
(* ===================================================================== *)

Definition int32_min : Z := - 2 ^ 31.
Definition int32_max : Z := 2 ^ 31 - 1.

(** An integer array cast to [int32] wraps around. *)
Definition wrap_int32 (z : Z) : Z := (z + 2 ^ 31) mod 2 ^ 32 - 2 ^ 31.

(** An integer as a [float64]: exact below [2^53], rounded to nearest below
    [2^63], which covers every index and pixel value. *)
Definition f64_of_Z (z : Z) : float :=
  if z <? 0 then PrimFloat.opp (PrimFloat.of_uint63 (Uint63.of_Z (- z)))
  else PrimFloat.of_uint63 (Uint63.of_Z z).

(** The integer part of a finite [float64], towards zero. *)
Definition f64_trunc (x : float) : option Z :=
  match Prim2SF x with
  | S754_zero _ => Some 0
  | S754_finite s m e =>
      let v := if 0 <=? e then Zpos m * 2 ^ e else Zpos m / 2 ^ (- e) in
      Some (if s then - v else v)
  | S754_infinity _ | S754_nan => None
  end.

(** [float64 -> int32] as the C cast NumPy compiles to: truncation towards
    zero; what cannot be represented becomes the x86 "integer indefinite"
    value [INT_MIN]. *)
Definition f64_to_int32 (x : float) : Z :=
  match f64_trunc x with
  | Some z => if (int32_min <=? z) && (z <=? int32_max) then z else int32_min
  | None => int32_min
  end.

(** [float64 -> uint8]: the low byte of the truncated value. *)
Definition f64_to_uint8 (x : float) : Z := f64_to_int32 x mod 256.

(** The binary32 format. *)
Definition f32 : Type := spec_float.
Definition prec32 : Z := 24.
Definition emax32 : Z := 128.
Definition f32_zero : f32 := S754_zero false.
Definition f32_sub : f32 -> f32 -> f32 := SFsub prec32 emax32.
Definition f32_add : f32 -> f32 -> f32 := SFadd prec32 emax32.

(** [float64 -> float32] ([astype(np.float32)]): round to nearest even. *)
Definition f64_to_f32 (x : float) : f32 :=
  match Prim2SF x with
  | S754_finite s m e => binary_round prec32 emax32 s m e
  | other => other
  end.

(* ===================================================================== *)
(** ** [utils/load_utils.py]: normalize *)
(* ===================================================================== *)

Definition list_min (x : Z) (l : list Z) : Z := fold_left Z.min l x.
Definition list_max (x : Z) (l : list Z) : Z := fold_left Z.max l x.

(** One element of [255 * ((image - i_min) / denom)]: the integer
    difference is divided in [float64] (NumPy's true division of integer
    arrays) and multiplied by 255. *)
Definition normalize_float (i_min denom v : Z) : float :=
  PrimFloat.mul (f64_of_Z 255)
    (PrimFloat.div (f64_of_Z (v - i_min)) (f64_of_Z denom)).

(** One pixel of [(255 * ((image - i_min) / denom)).astype(np.uint8)]. *)
Definition normalize_pixel (i_min denom v : Z) : Z :=
  f64_to_uint8 (normalize_float i_min denom v).

(** The [float64] array [255 * ((image - i_min) / denom)] of [normalize],
    before the cast. [image.min()] raises on an array without elements. *)
Definition normalize_scaled (image : ndarray Z) : result (ndarray float) :=
  match data image with
  | [] => Err ValueError
  | x :: xs =>
      let i_min := list_min x xs in
      let i_max := list_max x xs in
      let denom := if i_max >? i_min then i_max - i_min else 1 in
      Ok (nd_map (normalize_float i_min denom) image)
  end.

(** [normalize(image)]. *)
Definition normalize (image : ndarray Z) : result (ndarray Z) :=
  scaled <- normalize_scaled image ;;
  Ok (nd_map f64_to_uint8 scaled).

(* ===================================================================== *)
(** ** [utils/load_utils.py]: get_samples *)
(* ===================================================================== *)

(** [np.linspace(start, stop, num)] on integer bounds, as NumPy computes it:
    [arange(0, num) * step + start] in [float64] with [step = delta / div],
    the last element then overwritten by [stop]. *)
Definition linspace (start stop num : Z) : result (list float) :=
  if num <? 0 then Err ValueError
  else
    let div := num - 1 in
    let fstart := f64_of_Z start in
    let fstop := f64_of_Z stop in
    let y := map f64_of_Z (arange 0 num) in
    let delta := PrimFloat.sub fstop fstart in
    let y :=
      if 0 <? div then
        let step := PrimFloat.div delta (f64_of_Z div) in
        if PrimFloat.eqb step PrimFloat.zero
        then map (fun v => PrimFloat.mul (PrimFloat.div v (f64_of_Z div)) delta) y
        else map (fun v => PrimFloat.mul v step) y
      else map (fun v => PrimFloat.mul v delta) y in
    let y := map (fun v => PrimFloat.add v fstart) y in
    Ok (if 1 <? num then set_last y fstop else y).

(** [get_samples(start, end, T)]. *)
Definition get_samples (start end_ T : Z) : result (list Z) :=
  let N := end_ - start + 1 in
  if N <? T then Ok (map wrap_int32 (arange start (end_ + 1)))
  else
    samples <- linspace start end_ T ;;
    Ok (map f64_to_int32 samples).

(** A Python call of [get_samples] with positional arguments [args]. The
    function has three required parameters, so a call with any other number
    of arguments raises before the body runs. *)
Definition call_get_samples (args : list Z) : result (list Z) :=
  match args with
  | [start; end_; T] => get_samples start end_ T
  | _ => Err TypeError
  end.

(* ===================================================================== *)
(** ** Strings and paths *)
(* ===================================================================== *)

(** [str(z)] for an integer. *)
Definition str_of_Z (z : Z) : string := NilZero.string_of_int (Z.to_int z).

Definition starts_with_slash (s : string) : bool :=
  match s with
  | String c _ => Ascii.eqb c "/"%char
  | EmptyString => false
  end.

Fixpoint ends_with_slash (s : string) : bool :=
  match s with
  | EmptyString => false
  | String c EmptyString => Ascii.eqb c "/"%char
  | String _ s' => ends_with_slash s'
  end.

(** [os.path.join(a, b)] on POSIX. *)
Definition os_path_join (a b : string) : string :=
  if starts_with_slash b then b
  else if ends_with_slash a then (a ++ b)%string
  else match a with
       | EmptyString => b
       | _ => (a ++ "/" ++ b)%string
       end.

(** The format ["gesture_{}/finger_{}/subject_{}/essai_{}/"] applied to the
    first four columns of the row: it needs four arguments. *)
Definition path_identifier (data_row : list Z) : result string :=
  match data_row with
  | g :: f :: s :: e :: _ =>
      Ok ("gesture_" ++ str_of_Z g ++ "/finger_" ++ str_of_Z f ++
          "/subject_" ++ str_of_Z s ++ "/essai_" ++ str_of_Z e ++ "/")%string
  | _ => Err IndexError
  end.

(** The two naming conventions of the depth frames. *)
Inductive naming : Type := Shrec | Dhg.

Definition file_name (mode : naming) (idx : Z) : string :=
  match mode with
  | Shrec => (str_of_Z idx ++ "_depth.png")%string
  | Dhg => ("depth_" ++ str_of_Z idx ++ ".png")%string
  end.

(* ===================================================================== *)
(** ** Array operations of the joint loader *)
(* ===================================================================== *)

(** [arr[frame_idxs]]: integer-array indexing along the first axis. *)
Definition take_rows {A : Type} (a : ndarray A) (idxs : list Z)
  : result (ndarray A) :=
  match shape a with
  | [] => Err IndexError
  | n :: rest =>
      let st := size_of rest in
      rows <- mapM (fun i =>
                let j := wrap_index n i in
                if (0 <=? j) && (j <? n) then Ok (slice (data a) (j * st) st)
                else Err IndexError) idxs ;;
      Ok (mk_ndarray (Z.of_nat (length idxs) :: rest) (concat rows))
  end.

(** [arr.reshape(known..., -1)]: the last dimension is inferred. *)
Definition reshape_infer {A : Type} (a : ndarray A) (known : list Z)
  : result (ndarray A) :=
  let total := size_of (shape a) in
  let k := size_of known in
  if (k <=? 0) || negb (total mod k =? 0) then Err ValueError
  else Ok (mk_ndarray (known ++ [total / k]) (data a)).

(** [arr[i, j, :]] on a three-dimensional array. *)
Definition index_ij {A : Type} (a : ndarray A) (i j : Z) : result (list A) :=
  match shape a with
  | [n0; n1; d] =>
      let i' := wrap_index n0 i in
      let j' := wrap_index n1 j in
      if (0 <=? i') && (i' <? n0) && (0 <=? j') && (j' <? n1)
      then Ok (slice (data a) ((i' * n1 + j') * d) d)
      else Err IndexError
  | _ => Err IndexError
  end.

(** A list mapped with the positions of its elements. *)
Definition imap {A B : Type} (f : nat -> A -> B) (l : list A) : list B :=
  map (fun p => f (fst p) (snd p)) (combine (seq 0 (length l)) l).

(** [arr - ref] for [arr] of shape [(n, 22, d)] and [ref] of shape [(d,)]:
    broadcasting subtracts [ref[k]] from every element whose last index is
    [k]. *)
Definition broadcast_sub (a : ndarray f32) (ref : list f32) : ndarray f32 :=
  let d := length ref in
  mk_ndarray (shape a)
    (imap (fun p x => f32_sub x (nth (p mod d)%nat ref f32_zero)) (data a)).

(** [np.pad(arr, ((0, k), (0, 0), ...), mode="constant")] with a pad
    specification for [ndim] axes: [k] zero entries are appended along the
    first axis. *)
Definition pad0 {A : Type} (zero : A) (ndim : nat) (k : Z) (a : ndarray A)
  : result (ndarray A) :=
  match shape a with
  | n :: rest =>
      if Nat.eqb (length (shape a)) ndim && (0 <=? k) then
        Ok (mk_ndarray (n + k :: rest)
              (data a ++ repeat zero (Z.to_nat (k * size_of rest))))
      else Err ValueError
  | [] => Err ValueError
  end.

(* ===================================================================== *)
(** ** The loader *)
(* ===================================================================== *)

Section Loader.

(** The values under [preprocess_dict["gvar"]] and [transform_dict["aug"]]
    are only handed on to code outside the repository's loader. *)
Variable gvar_params : Type.
Variable aug_spec : Type.

(** What the loader calls and does not define: NumPy's text reader, Pillow,
    and the modules [utils.gvar] and [utils.augment]. *)
Record externals : Type := mk_externals {
  (* np.loadtxt(path, dtype=np.float32) *)
  np_loadtxt : string -> result (ndarray f32);
  (* np.array(Image.open(path).resize((W_new, H_new), Image.LANCZOS)) *)
  pil_open_resize : string -> Z -> Z -> result (ndarray Z);
  (* grayscale_variation(image, **params) *)
  grayscale_variation : ndarray Z -> gvar_params -> result (ndarray Z);
  (* apply_augs(joint_points, image_sequence, spec) *)
  apply_augs :
    ndarray f32 -> ndarray Z -> aug_spec -> result (ndarray f32 * ndarray Z)
}.

(** The transform dictionary: a missing key is [None]; the value [None]
    under ["aug"] is [Some None]. *)
Record transform_dict : Type := mk_transform_dict {
  td_resize : option (Z * Z);            (* ["resize"]: (H_new, W_new) *)
  td_gvar : option gvar_params;          (* ["gvar"], when present *)
  td_aug : option (option aug_spec)      (* ["aug"] *)
}.

Variable E : externals.

(** [load_joints(joint_path, frame_idxs, T)]. *)
Definition palm_idx : Z := 1.

Definition load_joints (joint_path : string) (frame_idxs : list Z) (T : Z)
  : result (ndarray f32) :=
  file <- np_loadtxt E joint_path ;;
  joint_points <- take_rows file frame_idxs ;;
  num_frames <- shape0 joint_points ;;
  joint_points <- reshape_infer joint_points [num_frames; 22] ;;
  ref <- index_ij joint_points 0 palm_idx ;;
  reshape_infer (broadcast_sub joint_points ref) [num_frames].

(** One turn of the loop of [load_image_sequence]: the frame [idx] opened,
    resized, normalised and written to [image_blocks[i, 0, :, :]], which
    takes an image of shape [(H_new, W_new)] and stores it as [uint8]. *)
Definition load_frame (image_dir : string) (mode : naming)
    (H_new W_new : Z) (gvar : option gvar_params) (idx : Z)
  : result (list Z) :=
  let path := os_path_join image_dir (file_name mode idx) in
  image <- pil_open_resize E path W_new H_new ;;
  image <- match gvar with
           | Some params => grayscale_variation E image params
           | None => normalize image
           end ;;
  match shape image with
  | [h; w] =>
      if (h =? H_new) && (w =? W_new)
      then Ok (map (fun v => v mod 256) (data image))
      else Err ValueError
  | _ => Err ValueError
  end.

(** [load_image_sequence(image_dir, frame_idxs, T, preprocess_dict, mode)]. *)
Definition load_image_sequence (image_dir : string) (frame_idxs : list Z)
    (T : Z) (preprocess_dict : transform_dict) (mode : naming)
  : result (ndarray Z) :=
  match td_resize preprocess_dict with
  | None => Err KeyError
  | Some (H_new, W_new) =>
      if (H_new <? 0) || (W_new <? 0) then Err ValueError
      else
        frames <- mapM (load_frame image_dir mode H_new W_new
                          (td_gvar preprocess_dict)) frame_idxs ;;
        Ok (mk_ndarray [Z.of_nat (length frame_idxs); 1; H_new; W_new]
              (concat frames))
  end.

(** [SHREC_DHG_Dataset.get_image_joint(data_row, base_dir, T, D,
    transform_dict)]. The sampler is called with two arguments,
    [get_samples(num_frames, T)]. *)
Definition get_image_joint (data_row : list Z) (base_dir : string) (T D : Z)
    (td : transform_dict) : result (ndarray f32 * ndarray Z) :=
  num_frames <- py_index data_row 6 ;;
  frame_idxs <- call_get_samples [num_frames; T] ;;
  path_id <- path_identifier data_row ;;
  let joint_path :=
    os_path_join (os_path_join base_dir path_id)
      (if D =? 2 then "skeletons_image.txt" else "skeletons_world.txt") in
  joint_points <- load_joints joint_path frame_idxs T ;;
  let image_folder_path := os_path_join base_dir path_id in
  image_sequence <-
    load_image_sequence image_folder_path frame_idxs T td Shrec ;;
  Ok (joint_points, image_sequence).

(** The cache: the dictionary [{"joint": [...], "image": [...]}]. *)
Record Cache : Type := mk_Cache {
  cache_joint : list (ndarray f32);
  cache_image : list (ndarray Z)
}.

(** The fields of a [SHREC_DHG_Dataset]. *)
Record Dataset : Type := mk_Dataset {
  data_list : list (list Z);
  base_dir : string;
  T : Z;
  D : Z;
  num_classes : Z;
  transform : transform_dict;
  cache : option Cache
}.

(** [SHREC_DHG_Dataset.__init__]. *)
Definition dataset_init (dl : list (list Z)) (dir : string) (d t nc : Z)
    (td : transform_dict) (c : option Cache) : result Dataset :=
  if (nc =? 14) || (nc =? 28)
  then Ok (mk_Dataset dl dir t d nc td c)
  else Err AssertionError.

(** [SHREC_DHG_Dataset.__len__]. *)
Definition dataset_len (ds : Dataset) : Z := Z.of_nat (length (data_list ds)).

(** [self.data_list[idx, col]]. *)
Definition data_at (ds : Dataset) (idx col : Z) : result Z :=
  row <- py_index (data_list ds) idx ;;
  py_index row col.

(** [__getitem__], the label: bound in the two branches on [num_classes]
    only. *)
Definition select_label (ds : Dataset) (idx : Z) : result (option Z) :=
  if num_classes ds =? 14 then
    l <- data_at ds idx 4 ;; Ok (Some (l - 1))
  else if num_classes ds =? 28 then
    l <- data_at ds idx 5 ;; Ok (Some (l - 1))
  else Ok None.

(** [__getitem__], the raw pair: from the cache at [original_index] when a
    cache is attached, from the loaders otherwise. *)
Definition fetch_raw (ds : Dataset) (idx : Z)
  : result (ndarray f32 * ndarray Z) :=
  match cache ds with
  | Some c =>
      c_idx <- data_at ds idx 7 ;;
      joint_points <- py_index (cache_joint c) c_idx ;;
      image_sequence <- py_index (cache_image c) c_idx ;;
      Ok (joint_points, image_sequence)
  | None =>
      row <- py_index (data_list ds) idx ;;
      get_image_joint row (base_dir ds) (T ds) (D ds) (transform ds)
  end.

(** [__getitem__], the augmentation stage. *)
Definition augment (ds : Dataset) (raw : ndarray f32 * ndarray Z)
  : result (ndarray f32 * ndarray Z) :=
  match td_aug (transform ds) with
  | None => Err KeyError
  | Some None => Ok raw
  | Some (Some spec) => apply_augs E (fst raw) (snd raw) spec
  end.

(** One pixel of [(image_sequence / 255).astype(np.float32)]. *)
Definition scale_pixel (v : Z) : f32 :=
  f64_to_f32 (PrimFloat.div (f64_of_Z v) (f64_of_Z 255)).

(** [__getitem__], from the test [num_frames < self.T] on: the padding of
    both sequences by [T - num_frames] frames and the returned triple. The
    label is unbound when neither branch on [num_classes] was taken. *)
Definition pad_and_return (ds : Dataset) (label : option Z)
    (joint_points image_sequence : ndarray f32) (num_frames : Z)
  : result (ndarray f32 * ndarray f32 * Z) :=
  '(joint_points, image_sequence) <-
    (if num_frames <? T ds then
       j <- pad0 f32_zero 2 (T ds - num_frames) joint_points ;;
       i <- pad0 f32_zero 4 (T ds - num_frames) image_sequence ;;
       Ok (j, i)
     else Ok (joint_points, image_sequence)) ;;
  match label with
  | Some l => Ok (joint_points, image_sequence, l)
  | None => Err UnboundLocalError
  end.

(** [__getitem__], the assembly: the conversions to [float32], then
    [num_frames = joint_points.shape[0]], the padding and the return. *)
Definition assemble (ds : Dataset) (label : option Z)
    (pair : ndarray f32 * ndarray Z)
  : result (ndarray f32 * ndarray f32 * Z) :=
  let joint_points := fst pair in
  let image_sequence := nd_map scale_pixel (snd pair) in
  num_frames <- shape0 joint_points ;;
  pad_and_return ds label joint_points image_sequence num_frames.

(** [SHREC_DHG_Dataset.__getitem__(idx)]. *)
Definition getitem (ds : Dataset) (idx : Z)
  : result (ndarray f32 * ndarray f32 * Z) :=
  label <- select_label ds idx ;;
  num_frames <- data_at ds idx 6 ;;
  raw <- fetch_raw ds idx ;;
  pair <- augment ds raw ;;
  assemble ds label pair.

(** [init_cache(data_list, base_dir, T, D, transform_dict,
    n_cache_workers)]. [Pool.imap] hands the results back in the order of the
    rows, and raises a worker's exception when its row is reached. *)
Definition init_cache (dl : list (list Z)) (dir : string) (t d : Z)
    (td : transform_dict) (n_cache_workers : Z) : result Cache :=
  if n_cache_workers <? 1 then Err ValueError
  else
    pairs <- mapM (fun row => get_image_joint row dir t d td) dl ;;
    Ok (mk_Cache (map fst pairs) (map snd pairs)).

End Loader.

Arguments mk_externals {gvar_params aug_spec}.
Arguments np_loadtxt {gvar_params aug_spec} e.
Arguments pil_open_resize {gvar_params aug_spec} e.
Arguments grayscale_variation {gvar_params aug_spec} e.
Arguments apply_augs {gvar_params aug_spec} e.
Arguments mk_transform_dict {gvar_params aug_spec}.
Arguments td_resize {gvar_params aug_spec} t.
Arguments td_gvar {gvar_params aug_spec} t.
Arguments td_aug {gvar_params aug_spec} t.
Arguments load_joints {gvar_params aug_spec} E.
Arguments load_frame {gvar_params aug_spec} E.
Arguments load_image_sequence {gvar_params aug_spec} E.
Arguments get_image_joint {gvar_params aug_spec} E.
Arguments mk_Dataset {gvar_params aug_spec}.
Arguments data_list {gvar_params aug_spec} d.
Arguments base_dir {gvar_params aug_spec} d.
Arguments T {gvar_params aug_spec} d.
Arguments D {gvar_params aug_spec} d.
Arguments num_classes {gvar_params aug_spec} d.
Arguments transform {gvar_params aug_spec} d.
Arguments cache {gvar_params aug_spec} d.
Arguments dataset_init {gvar_params aug_spec}.
Arguments dataset_len {gvar_params aug_spec}.
Arguments data_at {gvar_params aug_spec}.
Arguments select_label {gvar_params aug_spec}.
Arguments fetch_raw {gvar_params aug_spec} E.
Arguments augment {gvar_params aug_spec} E.
Arguments pad_and_return {gvar_params aug_spec}.
Arguments assemble {gvar_params aug_spec}.
Arguments getitem {gvar_params aug_spec} E.
Arguments init_cache {gvar_params aug_spec} E.

(* ===================================================================== *)
(** ** Vocabulary of the specification *)
(* ===================================================================== *)

(** [m] is the least, respectively greatest, element of [l]. *)
Definition is_min (m : Z) (l : list Z) : Prop :=
  In m l /\ forall v, In v l -> m <= v.
Definition is_max (m : Z) (l : list Z) : Prop :=
  In m l /\ forall v, In v l -> v <= m.

(** The image has one pixel value only. *)
Definition constant_image (image : ndarray Z) : Prop :=
  forall u v, In u (data image) -> In v (data image) -> u = v.

(** Every pixel fits 16 bits (the depth frames are 8 or 16 bit images). *)
Definition pixels_16bit (image : ndarray Z) : Prop :=
  forall v, In v (data image) -> 0 <= v <= 65535.

(** Pixels that are non-negative integers below [2^63]: no integer type of
    NumPy wraps around in [image - i_min] on them, and their conversion to
    [float64] is the one of [f64_of_Z]. *)
Definition pixels_unsigned (image : ndarray Z) : Prop :=
  forall v, In v (data image) -> 0 <= v < 2 ^ 63.

(** [f] holds of the [n] integers from [a] on, checked one by one. *)
Definition all_from (f : Z -> bool) (a : Z) (n : positive) : bool :=
  snd (Pos.iter (fun st => (fst st + 1, snd st && f (fst st))) (a, true) n).

(** Consecutive elements increase strictly. *)
Fixpoint increasing (l : list Z) : Prop :=
  match l with
  | a :: ((b :: _) as t) => a < b /\ increasing t
  | _ => True
  end.

(** What the specification asks of the indices sampled for [(start, end, T)]
    with [T >= 1]: their number, their range, their order, the first one, and
    the last one when at least two are asked for. *)
Definition samples_spec (start end_ T : Z) (idxs : list Z) : Prop :=
  Z.of_nat (length idxs) = Z.min T (end_ - start + 1) /\
  (forall i, In i idxs -> start <= i <= end_) /\
  increasing idxs /\
  hd_error idxs = Some start /\
  (2 <= T -> last idxs start = end_).

(** The spacing [(stop - start) / (num - 1)] of [np.linspace]. *)
Definition linspace_step (start stop num : Z) : float :=
  PrimFloat.div (PrimFloat.sub (f64_of_Z stop) (f64_of_Z start))
    (f64_of_Z (num - 1)).

(** Element [i] of [np.linspace(start, stop, num).astype(int)], the last one
    apart: [int(i * step + start)]. *)
Definition sample_at (start : Z) (step : float) (i : Z) : Z :=
  f64_to_int32
    (PrimFloat.add (PrimFloat.mul (f64_of_Z i) step) (f64_of_Z start)).

(** The value of a finite [float32] in units of [2^-149], the spacing of the
    smallest binary32 numbers: every finite [float32] is a whole number of
    them. *)
Definition f32_value (x : f32) : Z :=
  match x with
  | S754_finite s m e => cond_Zopp s (Zpos m * 2 ^ (e + 149))
  | _ => 0
  end.

(** A coordinate as a joint file holds it: a finite binary32 number, zero
    being [+0.0]. *)
Definition f32_ok (x : f32) : Prop :=
  match x with
  | S754_zero s => s = false
  | S754_finite _ m e => bounded prec32 emax32 m e = true
  | _ => False
  end.

(** The [float32] nearest to [z * 2^-149]. *)
Definition f32_round (z : Z) : f32 :=
  binary_normalize prec32 emax32 z (-149) false.

(** [P (k + i) x y] for the elements [x], [y] at every position [i] of two
    lists of the same length. *)
Fixpoint pointwise_from {A B : Type} (P : nat -> A -> B -> Prop) (k : nat)
    (l : list A) (l' : list B) : Prop :=
  match l, l' with
  | [], [] => True
  | a :: t, b :: t' => P k a b /\ pointwise_from P (S k) t t'
  | _, _ => False
  end.

(** The coordinate at position [p] of [x'] is the one of [x] moved by the
    offset of its axis, [c[p mod d]] (in units of [2^-149]), exactly. *)
Definition moved_by (d : nat) (c : list Z) (p : nat) (x x' : f32) : Prop :=
  f32_value x' = f32_value x + nth (p mod d)%nat c 0.

(** [file'] holds the joints of [file] moved by the offset [c], one
    component per coordinate axis, without any rounding. *)
Definition exact_offset (d : nat) (c : list Z) (file file' : ndarray f32)
  : Prop :=
  shape file' = shape file /\
  pointwise_from (moved_by d c) 0 (data file) (data file').

(** The offset [c] added to every joint of [file] in [float32]
    arithmetic. *)
Definition add_offset (d : nat) (c : list f32) (file : ndarray f32)
  : ndarray f32 :=
  mk_ndarray (shape file)
    (imap (fun p v => f32_add v (nth (p mod d)%nat c f32_zero)) (data file)).

(** A joint file of [R] frames with [22] joints of [d] coordinates. *)
Definition joint_file (R d : Z) (file : ndarray f32) : Prop :=
  shape file = [R; 22 * d] /\
  Z.of_nat (length (data file)) = R * (22 * d) /\
  1 <= d /\
  Forall f32_ok (data file).

(** A frame index NumPy accepts for [R] frames. *)
Definition valid_idx (R i : Z) : Prop := - R <= i < R.

(** The rows [idxs] of a table of [R] rows of [C] elements, one after the
    other: the data of [arr[idxs]]. *)
Definition gathered_rows {A : Type} (R C : Z) (F : list A) (idxs : list Z)
  : list A :=
  concat (map (fun i => slice F (wrap_index R i * C) C) idxs).

(** The data of [arr - arr[0, 1, :]] on frames of joints with [d]
    coordinates: the joint at index 1 of the first frame spans the elements
    [d, 2 d). *)
Definition recentred (d : Z) (J : list f32) : list f32 :=
  let ref := slice J d d in
  imap (fun p x => f32_sub x (nth (p mod length ref)%nat ref f32_zero)) J.

(** The array has [n] entries of shape [rest] along its first axis. *)
Definition has_frames {A : Type} (a : ndarray A) (n : Z) (rest : list Z)
  : Prop :=
  shape a = n :: rest /\
  Z.of_nat (length (data a)) = n * size_of rest /\
  0 <= n /\ 0 <= size_of rest.

(** Every frame of [a] from the frame [n] on is all-zero. *)
Definition zero_from (a : ndarray f32) (n : Z) : Prop :=
  forall p : nat,
    n * stride0 a <= Z.of_nat p < Z.of_nat (length (data a)) ->
    nth p (data a) S754_nan = f32_zero.

(** The retrieval as the specification words it, with the frame count read
    from the data list (column 7 of the row) and not recomputed: the only
    difference to [getitem] is the [num_frames] handed to the padding. *)
Definition getitem_row_count {gvar_params aug_spec : Type}
    (E : externals gvar_params aug_spec) (ds : Dataset gvar_params aug_spec)
    (idx : Z) : result (ndarray f32 * ndarray f32 * Z) :=
  label <- select_label ds idx ;;
  num_frames <- data_at ds idx 6 ;;
  raw <- fetch_raw E ds idx ;;
  pair <- augment E ds raw ;;
  pad_and_return ds label (fst pair) (nd_map scale_pixel (snd pair))
    num_frames.

(** The data list with the frame count of every row replaced by [v]. *)
Definition set_frame_count (v : Z) (row : list Z) : list Z :=
  firstn 6 row ++ v :: skipn 7 row.

Definition with_frame_count {gvar_params aug_spec : Type} (v : Z)
    (ds : Dataset gvar_params aug_spec) : Dataset gvar_params aug_spec :=
  mk_Dataset (map (set_frame_count v) (data_list ds)) (base_dir ds) (T ds)
    (D ds) (num_classes ds) (transform ds) (cache ds).

(* ===================================================================== *)
(** ** Test data *)
(* ===================================================================== *)

(** A machine without any data file. *)
Definition no_files : externals unit unit :=
  mk_externals (fun _ => Err OSError) (fun _ _ _ => Err OSError)
    (fun _ _ => Err OSError) (fun _ _ _ => Err OSError).

(** Resize to 2 x 2, min-max normalisation, no augmentation. *)
Definition plain_transform : transform_dict unit unit :=
  mk_transform_dict (Some (2, 2)) None (Some None).

(** The data-list row of the end-to-end scenario. *)
Definition scenario_row : list Z := [1; 1; 3; 1; 5; 12; 10; 0].

(** Binary32 constants. *)
Definition f32_one : f32 := S754_finite false 8388608 (-23).
Definition f32_quarter : f32 := S754_finite false 8388608 (-25).
Definition f32_two_pow_24 : f32 := S754_finite false 8388608 1.

(** A cached trial of two frames: two joint coordinates and a 1 x 2 image
    per frame. *)
Definition two_frame_joints : ndarray f32 :=
  mk_ndarray [2; 2] [f32_one; f32_quarter; f32_quarter; f32_one].
Definition two_frame_images : ndarray Z :=
  mk_ndarray [2; 1; 1; 2] [0; 255; 51; 102].
Definition two_frame_cache : Cache :=
  mk_Cache [two_frame_joints] [two_frame_images].

(** The scenario row served from that cache, for a sequence length [t]. *)
Definition cached_dataset (t : Z) : Dataset unit unit :=
  mk_Dataset [scenario_row] "data" t 2 14 plain_transform
    (Some two_frame_cache).

(** A joint file of two frames of 22 joints with one coordinate: the
    reference joint at 1.0, the others at 0.25. *)
Definition small_joint_file : ndarray f32 :=
  mk_ndarray [2; 22]
    (concat (repeat (f32_quarter :: f32_one :: repeat f32_quarter 20) 2)).

(** A machine whose only file is the joint file [file]. *)
Definition one_joint_file (file : ndarray f32) : externals unit unit :=
  mk_externals (fun _ => Ok file) (fun _ _ _ => Err OSError)
    (fun _ _ => Err OSError) (fun _ _ _ => Err OSError).

(* ===================================================================== *)
(** ** The data list of the evaluation driver *)
(* ===================================================================== *)

(** [eval_DHG.py] reads the data list with [np.loadtxt] and hands parts of
    it to the loader. What [np.loadtxt] returns has at most two dimensions:
    a zero-dimensional array for a file of one number, a one-dimensional
    array for a file of one line or of one column (the empty one for an
    empty file), and a two-dimensional array, given by its rows, for a file
    of several lines of several numbers. *)
Inductive int_array : Type :=
  | Array0 (v : Z)
  | Array1 (l : list Z)
  | Array2 (rows : list (list Z)).

(** [np.hstack([data_list, np.arange(len(data_list)).reshape(-1, 1)])]:
    [len] raises on a zero-dimensional array, and [np.hstack] refuses to
    join a one-dimensional array and the two-dimensional index column. *)
Definition with_original_index (a : int_array) : result (list (list Z)) :=
  match a with
  | Array0 _ => Err TypeError
  | Array1 _ => Err ValueError
  | Array2 rows => Ok (imap (fun i row => row ++ [Z.of_nat i]) rows)
  end.

(** [data_list[:, c]]. *)
Definition column (dl : list (list Z)) (c : Z) : result (list Z) :=
  mapM (fun row => py_index row c) dl.

(** [rows[mask]] for a boolean mask. *)
Definition select_rows {A : Type} (mask : list bool) (rows : list A)
  : list A :=
  map snd (filter fst (combine mask rows)).

(** The validation list of [training_pipeline]: the rows of subject
    [val_sub], each with its position in the data list as a last column. *)
Definition val_list (a : int_array) (val_sub : Z)
  : result (list (list Z)) :=
  data_list <- with_original_index a ;;
  col <- column data_list 2 ;;
  Ok (select_rows (map (fun s => s =? val_sub) col) data_list).

(** [np.unique(l).tolist()]: the values of [l] in increasing order, each
    once. *)
Fixpoint insert_unique (x : Z) (l : list Z) : list Z :=
  match l with
  | [] => [x]
  | y :: t =>
      if x <? y then x :: l
      else if x =? y then l
      else y :: insert_unique x t
  end.

Definition np_unique (l : list Z) : list Z := fold_right insert_unique [] l.

(** [subjects] of [main]: [data_list[:, 2]] has one index too many for an
    array of fewer than two dimensions. *)
Definition subjects (a : int_array) : result (list Z) :=
  match a with
  | Array2 rows =>
      col <- column rows 2 ;;
      Ok (np_unique col)
  | _ => Err IndexError
  end.

(** The validation lists of the iterations of the loop of [main], the data
    list file being the same at every reading. *)
Definition loop_val_lists (a : int_array)
  : result (list (list (list Z))) :=
  subs <- subjects a ;;
  mapM (val_list a) subs.

(* ===================================================================== *)
(** ** Further vocabulary *)
(* ===================================================================== *)

(** The exact quotient the normalisation approximates in [float64]. *)
Definition exact_pixel (lo hi v : Z) : Z := 255 * (v - lo) / (hi - lo).

(** Every pixel fits 8 bits. *)
Definition pixels_8bit (image : ndarray Z) : Prop :=
  forall v, In v (data image) -> 0 <= v <= 255.

(** The normalisation of every pixel [x] of an 8 bit image of span [d]. *)
Definition span_exact (d : Z) : bool :=
  all_from (fun x => normalize_pixel 0 d x =? 255 * x / d) 0 (Z.to_pos (d + 1)).

(** A normalised pixel is normalised to itself. *)
Definition byte_fixed (v : Z) : bool := normalize_pixel 0 255 v =? v.

(** The order of [float32] numbers. *)
Definition f32_le (x y : f32) : Prop := SFleb x y = true.
Definition f32_lt (x y : f32) : Prop := SFltb x y = true.

(** A rescaled pixel lies between 0 and 1, below the next one. *)
Definition scale_ok (v : Z) : bool :=
  SFleb f32_zero (scale_pixel v) && SFleb (scale_pixel v) f32_one &&
  SFltb (scale_pixel v) (scale_pixel (v + 1)).

(** A table of [R] rows of [C] elements, as [np.loadtxt] returns it. *)
Definition table {A : Type} (R C : Z) (a : ndarray A) : Prop :=
  shape a = [R; C] /\ Z.of_nat (length (data a)) = R * C.

(** The element in row [i] (counted from the end when negative) and column
    [c] of a table of rows of [C] elements. *)
Definition cell {A : Type} (dflt : A) (R C : Z) (F : list A) (i c : Z) : A :=
  nth (Z.to_nat (wrap_index R i * C + c)) F dflt.

(** The dataset [ds] moved to another directory and coordinate
    dimension. *)
Definition relocated {gvar_params aug_spec : Type} (dir : string) (d : Z)
    (ds : Dataset gvar_params aug_spec) : Dataset gvar_params aug_spec :=
  mk_Dataset (data_list ds) dir (T ds) d (num_classes ds) (transform ds)
    (cache ds).

(** A row of the data list with its position as a last column. *)
Definition indexed_row (p : nat * list Z) : list Z :=
  snd p ++ [Z.of_nat (fst p)].

(* ===================================================================== *)
(** ** Further test data *)
(* ===================================================================== *)

(** A 2 x 2 image of 8 bit pixels. *)
Definition byte_image : ndarray Z := mk_ndarray [2; 2] [10; 20; 30; 250].

(** A machine on which every image file opens as [img]. *)
Definition one_image (img : ndarray Z) : externals unit unit :=
  mk_externals (fun _ => Err OSError) (fun _ _ _ => Ok img)
    (fun _ _ => Err OSError) (fun _ _ _ => Err OSError).

(** A machine whose only image file is the first frame of the folder
    [trial]. *)
Definition first_frame_only : externals unit unit :=
  mk_externals (fun _ => Err OSError)
    (fun path _ _ =>
       if String.eqb path "trial/0_depth.png" then Ok byte_image
       else Err OSError)
    (fun _ _ => Err OSError) (fun _ _ _ => Err OSError).

(** A joint file of two rows of three numbers. *)
Definition narrow_joint_file : ndarray f32 :=
  mk_ndarray [2; 3] (repeat f32_one 6).

(** A transform dictionary without the key ["aug"]. *)
Definition no_aug_transform : transform_dict unit unit :=
  mk_transform_dict (Some (2, 2)) None None.

(** A cached trial whose image sequence has one frame more than its joint
    sequence. *)
Definition three_frame_images : ndarray Z :=
  mk_ndarray [3; 1; 1; 2] [0; 255; 51; 102; 7; 8].
Definition misaligned_dataset (t : Z) : Dataset unit unit :=
  mk_Dataset [scenario_row] "data" t 2 14 plain_transform
    (Some (mk_Cache [two_frame_joints] [three_frame_images])).

(** A data list of three trials, of the subjects 3, 4 and 3, and a cache
    with one entry per trial. *)
Definition small_data_list : list (list Z) :=
  [[1; 1; 3; 1; 5; 12; 10]; [2; 1; 4; 1; 6; 14; 20]; [1; 2; 3; 2; 5; 13; 30]].
Definition one_frame_joints (x : f32) : ndarray f32 := mk_ndarray [1; 2] [x; x].
Definition one_frame_image (v : Z) : ndarray Z :=
  mk_ndarray [1; 1; 1; 2] [v; v].
Definition small_cache : Cache :=
  mk_Cache
    [one_frame_joints f32_one; one_frame_joints f32_quarter;
     one_frame_joints f32_two_pow_24]
    [one_frame_image 1; one_frame_image 2; one_frame_image 3].
Definition validation_dataset (vl : list (list Z)) : Dataset unit unit :=
  mk_Dataset vl "data" 1 2 14 plain_transform (Some small_cache).

(** The validation list of subject 3 of that data list. *)
Definition small_validation_list : list (list Z) :=
  [[1; 1; 3; 1; 5; 12; 10; 0]; [1; 2; 3; 2; 5; 13; 30; 2]].

(* ===================================================================== *)
(** * Properties *)
(* ===================================================================== *)

(** A sequence of steps that returns has returned at every step. *)
Lemma bind_Ok {A B : Type} (c : result A) (k : A -> result B) (b : B) :
  bind c k = Ok b -> exists a, c = Ok a /\ k a = Ok b.
Proof. destruct c as [a|e]; simpl; intros H; [eauto | discriminate]. Qed.

(** [normalize] pixel by pixel. *)
Lemma normalize_unfold (image : ndarray Z) :
  normalize image =
  match data image with
  | [] => Err ValueError
  | x :: xs =>
      let i_min := list_min x xs in
      let i_max := list_max x xs in
      let denom := if i_max >? i_min then i_max - i_min else 1 in
      Ok (nd_map (normalize_pixel i_min denom) image)
  end.
Proof.
  unfold normalize, normalize_scaled.
  destruct (data image) as [|x xs]; [reflexivity|].
  cbv zeta. cbn [bind]. unfold nd_map. cbn [shape data].
  rewrite map_map. reflexivity.
Qed.

(* ===================================================================== *)
(** ** The sampler on the scenarios of the specification *)
(* ===================================================================== *)

(** Ten frames, eight samples: both ends and six frames in between. *)
Example get_samples_10_8 : get_samples 0 9 8 = Ok [0; 1; 2; 3; 5; 6; 7; 9].
Proof. vm_compute. reflexivity. Qed.

(** Ten frames, twelve samples asked: every frame, once. *)
Example get_samples_10_12 :
  get_samples 0 9 12 = Ok [0; 1; 2; 3; 4; 5; 6; 7; 8; 9].
Proof. vm_compute. reflexivity. Qed.

(** Binary64 rounding is visible in the result: the exact value of the
    twelfth point of [linspace(0, 30, 23)] is 15, the computed one is just
    below it and truncates to 14. *)
Example get_samples_rounding :
  get_samples 0 30 23 =
  Ok [0; 1; 2; 4; 5; 6; 8; 9; 10; 12; 13; 14; 16; 17; 19; 20; 21; 23; 24; 25;
      27; 28; 30].
Proof. vm_compute. reflexivity. Qed.

(* ===================================================================== *)
(** ** Checking a range of integers *)
(* ===================================================================== *)

Lemma all_from_iter (f : Z -> bool) (n : positive) :
  forall a b,
    let r := Pos.iter (fun st => (fst st + 1, snd st && f (fst st))) (a, b) n in
    fst r = a + Zpos n /\
    (snd r = true -> b = true /\ forall z, a <= z < a + Zpos n -> f z = true).
Proof.
  induction n as [|n IH] using Pos.peano_ind; intros a b.
  - simpl. split; [reflexivity|].
    intros H. apply andb_prop in H. destruct H as [Hb Hf].
    split; [assumption|]. intros z Hz. replace z with a by lia. assumption.
  - rewrite Pos.iter_succ. cbv zeta in IH |- *.
    destruct (IH a b) as [Hfst Hsnd]. cbn [fst snd].
    split; [lia|].
    intros H. apply andb_prop in H. destruct H as [Hs Hf].
    destruct (Hsnd Hs) as [Hb Hall]. split; [assumption|].
    intros z Hz. destruct (Z.eq_dec z (a + Zpos n)) as [->|Hne].
    + rewrite <- Hfst. assumption.
    + apply Hall. lia.
Qed.

Lemma all_from_spec (f : Z -> bool) (a : Z) (n : positive) :
  all_from f a n = true -> forall z, a <= z < a + Zpos n -> f z = true.
Proof.
  unfold all_from. intros H.
  destruct (all_from_iter f n a true) as [_ Hs].
  apply Hs in H. apply H.
Qed.

(* ===================================================================== *)
(** ** normalize *)
(* ===================================================================== *)

Lemma list_min_le (l : list Z) :
  forall x, list_min x l <= x /\ forall v, In v l -> list_min x l <= v.
Proof.
  unfold list_min. induction l as [|a l IH]; intros x; simpl.
  - split; [lia | contradiction].
  - destruct (IH (Z.min x a)) as [H1 H2]. split; [lia|].
    intros v [->|Hv]; [lia | auto].
Qed.

Lemma list_min_In (l : list Z) : forall x, In (list_min x l) (x :: l).
Proof.
  unfold list_min. induction l as [|a l IH]; intros x; simpl.
  - left; reflexivity.
  - destruct (IH (Z.min x a)) as [H|H].
    + destruct (Z.min_spec x a) as [[_ Hm]|[_ Hm]]; rewrite Hm in *; auto.
    + auto.
Qed.

Lemma list_max_ge (l : list Z) :
  forall x, x <= list_max x l /\ forall v, In v l -> v <= list_max x l.
Proof.
  unfold list_max. induction l as [|a l IH]; intros x; simpl.
  - split; [lia | contradiction].
  - destruct (IH (Z.max x a)) as [H1 H2]. split; [lia|].
    intros v [->|Hv]; [lia | auto].
Qed.

Lemma list_max_In (l : list Z) : forall x, In (list_max x l) (x :: l).
Proof.
  unfold list_max. induction l as [|a l IH]; intros x; simpl.
  - left; reflexivity.
  - destruct (IH (Z.max x a)) as [H|H].
    + destruct (Z.max_spec x a) as [[_ Hm]|[_ Hm]]; rewrite Hm in *; auto.
    + auto.
Qed.

(** The pixel only depends on its distance to the minimum. *)
Lemma normalize_pixel_shift (i_min denom v : Z) :
  normalize_pixel i_min denom v = normalize_pixel 0 denom (v - i_min).
Proof. unfold normalize_pixel, normalize_float. rewrite Z.sub_0_r. reflexivity. Qed.

Lemma normalize_pixel_byte (i_min denom v : Z) :
  0 <= normalize_pixel i_min denom v <= 255.
Proof.
  unfold normalize_pixel, f64_to_uint8.
  match goal with |- 0 <= ?x mod 256 <= 255 =>
    pose proof (Z.mod_pos_bound x 256 ltac:(lia)) end.
  lia.
Qed.

Lemma normalize_pixel_flat : normalize_pixel 0 1 0 = 0.
Proof. vm_compute. reflexivity. Qed.

(* ===================================================================== *)
(** ** get_samples *)
(* ===================================================================== *)

Lemma arange_length (a b : Z) : length (arange a b) = Z.to_nat (b - a).
Proof. unfold arange. rewrite length_map, length_seq. reflexivity. Qed.

Lemma arange_In (a b i : Z) : In i (arange a b) <-> a <= i < b.
Proof.
  unfold arange. rewrite in_map_iff. split.
  - intros [k [<- Hk]]. apply in_seq in Hk. lia.
  - intros Hi. exists (Z.to_nat (i - a)). split; [lia|].
    apply in_seq. lia.
Qed.

Lemma seq_map_increasing (a : Z) (n s : nat) :
  increasing (map (fun k => a + Z.of_nat k) (seq s n)).
Proof.
  revert s. induction n as [|n IH]; intros s; simpl; [exact I|].
  destruct n as [|n]; simpl; [exact I|].
  split; [lia|]. apply (IH (S s)).
Qed.

Lemma arange_increasing (a b : Z) : increasing (arange a b).
Proof. apply seq_map_increasing. Qed.

Lemma arange_hd (a b : Z) : a < b -> hd_error (arange a b) = Some a.
Proof.
  intros H. unfold arange.
  destruct (Z.to_nat (b - a)) as [|n] eqn:Hn; [lia|].
  simpl. f_equal. lia.
Qed.

Lemma arange_last (a b d : Z) : a < b -> last (arange a b) d = b - 1.
Proof.
  intros H. unfold arange.
  destruct (Z.to_nat (b - a)) as [|n] eqn:Hn; [lia|].
  rewrite seq_S, map_app. cbn [map]. rewrite last_last. lia.
Qed.

Lemma wrap_int32_id (z : Z) :
  int32_min <= z <= int32_max -> wrap_int32 z = z.
Proof.
  unfold wrap_int32, int32_min, int32_max. intros H.
  rewrite Z.mod_small; lia.
Qed.

Lemma map_id_in {A : Type} (f : A -> A) (l : list A) :
  (forall a, In a l -> f a = a) -> map f l = l.
Proof.
  intros H. rewrite <- (map_id l) at 2. apply map_ext_in. assumption.
Qed.

(** Fewer frames than asked for: every frame, in order. *)
Lemma get_samples_short (start end_ T : Z) :
  0 <= start <= end_ -> end_ <= int32_max -> end_ - start + 1 < T ->
  get_samples start end_ T = Ok (arange start (end_ + 1)).
Proof.
  intros H1 H2 H3. unfold get_samples.
  apply Z.ltb_lt in H3. rewrite H3. f_equal.
  apply map_id_in. intros i Hi. apply arange_In in Hi.
  apply wrap_int32_id. unfold int32_min. lia.
Qed.

Lemma set_last_length {A : Type} (l : list A) (v : A) :
  length (set_last l v) = length l.
Proof.
  induction l as [|a [|b t] IH]; simpl in *; auto.
Qed.

(** The number of samples needs no bound. *)
Lemma get_samples_length (start end_ T : Z) :
  1 <= T ->
  exists idxs, get_samples start end_ T = Ok idxs /\
    Z.of_nat (length idxs) = Z.max 0 (Z.min T (end_ - start + 1)).
Proof.
  intros HT. unfold get_samples.
  destruct (end_ - start + 1 <? T) eqn:HN.
  - apply Z.ltb_lt in HN. eexists. split; [reflexivity|].
    rewrite length_map, arange_length. lia.
  - apply Z.ltb_ge in HN. unfold linspace.
    destruct (T <? 0) eqn:HT0; [apply Z.ltb_lt in HT0; lia|].
    cbn [bind]. eexists. split; [reflexivity|].
    rewrite length_map.
    assert (Hlen : forall (f g h g' : float -> float) (c1 c2 c3 : bool) (v : float),
      length (if c3 then set_last (map h (if c1 then if c2 then map f (map f64_of_Z (arange 0 T)) else map g (map f64_of_Z (arange 0 T)) else map g' (map f64_of_Z (arange 0 T)))) v
              else map h (if c1 then if c2 then map f (map f64_of_Z (arange 0 T)) else map g (map f64_of_Z (arange 0 T)) else map g' (map f64_of_Z (arange 0 T)))) = Z.to_nat T).
    { intros. destruct c1, c2, c3; rewrite ?set_last_length, !length_map, arange_length;
        f_equal; lia. }
    rewrite Hlen. lia.
Qed.

(* ===================================================================== *)
(** ** Binary rounding *)
(* ===================================================================== *)

Section Rounding.
Variables prec emax : Z.

Lemma iter_pos_swap {A : Type} (f : A -> A) (p : positive) :
  forall x, iter_pos f p (f x) = f (iter_pos f p x).
Proof.
  induction p as [p IH|p IH|]; intros x; simpl.
  - rewrite !IH. reflexivity.
  - rewrite !IH. reflexivity.
  - reflexivity.
Qed.

Lemma iter_pos_succ {A : Type} (f : A -> A) (p : positive) :
  forall x, iter_pos f (Pos.succ p) x = iter_pos f p (f x).
Proof.
  induction p as [p IH|p IH|]; intros x; simpl.
  - rewrite !IH. rewrite !iter_pos_swap. reflexivity.
  - reflexivity.
  - reflexivity.
Qed.

Lemma binary_round_aux_double (s : bool) (m : positive) (e : Z) :
  e <= fexp prec emax (Zpos (digits2_pos m) + e) ->
  binary_round_aux prec emax s (Zpos m~0) (e - 1) loc_Exact =
  binary_round_aux prec emax s (Zpos m) e loc_Exact.
Proof.
  intros Hle. unfold binary_round_aux.
  assert (Hshr : shr_fexp prec emax (Zpos m~0) (e - 1) loc_Exact =
                 shr_fexp prec emax (Zpos m) e loc_Exact).
  { unfold shr_fexp. cbn [Zdigits2 digits2_pos shr_record_of_loc].
    replace (Zpos (Pos.succ (digits2_pos m)) + (e - 1))
      with (Zpos (digits2_pos m) + e) by lia.
    set (t := fexp prec emax (Zpos (digits2_pos m) + e)) in *.
    unfold shr.
    destruct (t - e) as [|q|q] eqn:Hq; try lia.
    - replace (t - (e - 1)) with 1 by lia. simpl. f_equal. lia.
    - replace (t - (e - 1)) with (Zpos (Pos.succ q)) by lia.
      rewrite iter_pos_succ. simpl. f_equal. lia. }
  rewrite Hshr. reflexivity.
Qed.

Lemma binary_round_double (s : bool) (m : positive) (e : Z) :
  binary_round prec emax s m~0 (e - 1) = binary_round prec emax s m e.
Proof.
  unfold binary_round. cbn [digits2_pos].
  replace (Zpos (Pos.succ (digits2_pos m)) + (e - 1))
    with (Zpos (digits2_pos m) + e) by lia.
  set (t := fexp prec emax (Zpos (digits2_pos m) + e)).
  unfold shl_align.
  destruct (t - e) as [|q|q] eqn:Hq.
  - replace (t - (e - 1)) with 1 by lia.
    apply binary_round_aux_double. fold t. lia.
  - replace (t - (e - 1)) with (Zpos (Pos.succ q)) by lia.
    apply binary_round_aux_double. fold t. lia.
  - destruct (Pos.eq_dec q 1) as [->|Hne].
    + replace (t - (e - 1)) with 0 by lia. simpl.
      replace (e - 1) with t by lia. reflexivity.
    + replace (t - (e - 1)) with (Zneg (Pos.pred q)) by lia.
      rewrite <- (Pos.succ_pred q Hne) at 2.
      rewrite <- Pos.iter_succ_r. reflexivity.
Qed.

Lemma binary_round_shift (s : bool) (k : nat) :
  forall (m : positive) (e : Z),
    binary_round prec emax s (Nat.iter k xO m) (e - Z.of_nat k) =
    binary_round prec emax s m e.
Proof.
  induction k as [|k IH]; intros m e.
  - simpl. f_equal. lia.
  - rewrite Nat.iter_succ.
    replace (e - Z.of_nat (S k)) with (e - Z.of_nat k - 1) by lia.
    rewrite binary_round_double. apply IH.
Qed.

Lemma iter_xO_mul (k : nat) (m : positive) :
  Zpos (Nat.iter k xO m) = Zpos m * 2 ^ Z.of_nat k.
Proof.
  induction k as [|k IH].
  - simpl. lia.
  - rewrite Nat.iter_succ, Pos2Z.inj_xO, IH, Nat2Z.inj_succ, Z.pow_succ_r; lia.
Qed.

Lemma binary_normalize_shift (z e k : Z) (sz : bool) :
  0 <= k ->
  binary_normalize prec emax (z * 2 ^ k) (e - k) sz =
  binary_normalize prec emax z e sz.
Proof.
  intros Hk.
  rewrite <- (Z2Nat.id k Hk).
  destruct z as [|m|m].
  - reflexivity.
  - rewrite <- iter_xO_mul. cbn [binary_normalize]. apply binary_round_shift.
  - change (Zneg m) with (- Zpos m). rewrite Z.mul_opp_l, <- iter_xO_mul.
    cbn [Z.opp binary_normalize]. apply binary_round_shift.
Qed.

Lemma binary_round_canonical (s : bool) (m : positive) (e : Z) :
  bounded prec emax m e = true ->
  binary_round prec emax s m e = S754_finite s m e.
Proof.
  unfold bounded, canonical_mantissa. intros H.
  apply andb_prop in H. destruct H as [Hc He].
  apply Z.eqb_eq in Hc.
  unfold binary_round, shl_align. rewrite Hc, Z.sub_diag.
  unfold binary_round_aux, shr_fexp. cbn [Zdigits2 shr_record_of_loc].
  rewrite Hc, Z.sub_diag. cbn [shr shr_m loc_of_shr_record round_nearest_even].
  cbn [Zdigits2]. rewrite Hc, Z.sub_diag. cbn [shr shr_m].
  rewrite He. reflexivity.
Qed.
End Rounding.

(* ===================================================================== *)
(** ** The [float64] arithmetic of the normalisation *)
(* ===================================================================== *)

(** The number of binary digits of a positive number. *)
Lemma digits2_pos_bounds (p : positive) :
  2 ^ (Zpos (digits2_pos p) - 1) <= Zpos p < 2 ^ Zpos (digits2_pos p).
Proof.
  induction p as [p IH|p IH|]; cbn [digits2_pos].
  - rewrite Pos2Z.inj_succ.
    replace (Z.succ (Zpos (digits2_pos p)) - 1)
      with (Z.succ (Zpos (digits2_pos p) - 1)) by lia.
    rewrite !Z.pow_succ_r by lia. lia.
  - rewrite Pos2Z.inj_succ.
    replace (Z.succ (Zpos (digits2_pos p)) - 1)
      with (Z.succ (Zpos (digits2_pos p) - 1)) by lia.
    rewrite !Z.pow_succ_r by lia. lia.
  - cbn. lia.
Qed.

Lemma digits2_pos_unique (p : positive) (k : Z) :
  2 ^ (k - 1) <= Zpos p < 2 ^ k -> Zpos (digits2_pos p) = k.
Proof.
  intros [Hlo Hhi]. pose proof (digits2_pos_bounds p) as [Hlo' Hhi'].
  assert (Hk : 0 < k).
  { destruct (Z.ltb_spec 0 k); [assumption|].
    rewrite Z.pow_neg_r in Hlo by lia.
    destruct (Z.eq_dec k 0) as [->|]; [cbn in Hhi; lia|].
    rewrite Z.pow_neg_r in Hhi by lia. lia. }
  destruct (Z.lt_trichotomy (Zpos (digits2_pos p)) k) as [Hlt|[Heq|Hgt]];
    [|assumption|].
  - assert (2 ^ Zpos (digits2_pos p) <= 2 ^ (k - 1))
      by (apply Z.pow_le_mono_r; lia). lia.
  - assert (2 ^ k <= 2 ^ (Zpos (digits2_pos p) - 1))
      by (apply Z.pow_le_mono_r; lia). lia.
Qed.

Lemma digits2_shift (k : nat) (p : positive) :
  Zpos (digits2_pos (Nat.iter k xO p)) = Zpos (digits2_pos p) + Z.of_nat k.
Proof.
  induction k as [|k IH]; [cbn [Nat.iter nat_rect]; lia|].
  rewrite Nat.iter_succ. cbn [digits2_pos].
  rewrite Pos2Z.inj_succ, IH. lia.
Qed.

(** Right shifts of a non-negative mantissa. *)
Lemma shr_1_m (mrs : shr_record) :
  0 <= shr_m mrs -> shr_m (shr_1 mrs) = shr_m mrs / 2.
Proof.
  destruct mrs as [m r s]. cbn [shr_m]. intros Hm. unfold shr_1.
  destruct m as [|[p|p|]|p]; cbn [shr_m]; try lia.
  - reflexivity.
  - apply Z.div_unique with 1; lia.
  - apply Z.div_unique with 0; lia.
  - reflexivity.
Qed.

Lemma iter_shr_1_m (n : positive) :
  forall mrs, 0 <= shr_m mrs ->
    shr_m (iter_pos shr_1 n mrs) = shr_m mrs / 2 ^ Zpos n.
Proof.
  induction n as [|n IH] using Pos.peano_ind; intros mrs Hm.
  - cbn [iter_pos]. rewrite shr_1_m by assumption. reflexivity.
  - rewrite (iter_pos_succ shr_1 n mrs).
    rewrite IH by (rewrite shr_1_m by assumption; apply Z.div_pos; lia).
    rewrite shr_1_m by assumption.
    rewrite Pos2Z.inj_succ, Z.pow_succ_r by lia.
    rewrite Z.div_div by lia. reflexivity.
Qed.

Lemma shr_m_nonneg (mrs : shr_record) (e n : Z) :
  0 <= shr_m mrs -> 0 <= shr_m (fst (shr mrs e n)).
Proof.
  intros Hm. unfold shr. destruct n as [|p|p]; cbn [fst]; try assumption.
  rewrite iter_shr_1_m by assumption. apply Z.div_pos; lia.
Qed.

Lemma shr_record_of_loc_m (m : Z) (l : location) :
  shr_m (shr_record_of_loc m l) = m.
Proof. destruct l as [|[]]; reflexivity. Qed.

Lemma round_nearest_even_bounds (m : Z) (l : location) :
  m <= round_nearest_even m l <= m + 1.
Proof.
  unfold round_nearest_even. destruct l as [|[]]; try lia.
  destruct (Z.even m); lia.
Qed.

Section Round.
Variables prec emax : Z.

(** Rounding a non-negative mantissa never gives a NaN. *)
Lemma binary_round_aux_not_nan (s : bool) (m e : Z) (l : location) :
  0 <= m -> binary_round_aux prec emax s m e l <> S754_nan.
Proof.
  intros Hm. unfold binary_round_aux, shr_fexp.
  destruct (shr (shr_record_of_loc m l) e _) as [mrs' e'] eqn:H1.
  assert (Hm1 : 0 <= shr_m mrs').
  { change mrs' with (fst (mrs', e')). rewrite <- H1.
    apply shr_m_nonneg. rewrite shr_record_of_loc_m. assumption. }
  set (m2 := round_nearest_even (shr_m mrs') (loc_of_shr_record mrs')).
  assert (Hm2 : 0 <= m2)
    by (pose proof (round_nearest_even_bounds (shr_m mrs')
                      (loc_of_shr_record mrs')); unfold m2; lia).
  destruct (shr (shr_record_of_loc m2 loc_Exact) e' _) as [mrs'' e''] eqn:H2.
  assert (Hm3 : 0 <= shr_m mrs'').
  { change mrs'' with (fst (mrs'', e'')). rewrite <- H2.
    apply shr_m_nonneg. rewrite shr_record_of_loc_m. assumption. }
  destruct (shr_m mrs'') as [|q|q]; [discriminate| |lia].
  destruct (e'' <=? emax - prec); discriminate.
Qed.
End Round.

(** An integer of up to 63 bits converts to a finite [float64]. *)
Lemma binary_round_small (p : positive) :
  Zpos (digits2_pos p) <= 53 ->
  exists m e, binary_round prec emax false p 0 = S754_finite false m e.
Proof.
  intros Hdg.
  set (k := Z.to_nat (53 - Zpos (digits2_pos p))).
  exists (Nat.iter k xO p), (0 - Z.of_nat k).
  rewrite <- (binary_round_shift prec emax false k p 0).
  apply binary_round_canonical.
  unfold bounded, canonical_mantissa, fexp, emin, prec, emax.
  rewrite digits2_shift. fold k.
  apply andb_true_intro. split; [apply Z.eqb_eq | apply Z.leb_le]; lia.
Qed.

Lemma binary_round_large (p : positive) :
  54 <= Zpos (digits2_pos p) <= 63 ->
  exists m e, binary_round prec emax false p 0 = S754_finite false m e.
Proof.
  intros Hdg. pose proof (digits2_pos_bounds p) as Hp.
  set (dg := Zpos (digits2_pos p)) in *.
  assert (Ht : fexp prec emax (dg + 0) = dg - 53)
    by (unfold fexp, emin, prec, emax; lia).
  unfold binary_round. fold dg. rewrite Ht. unfold shl_align.
  destruct (dg - 53 - 0) as [|n|n] eqn:Hn; try lia.
  set (mrs' := iter_pos shr_1 n
                 {| shr_m := Zpos p; shr_r := false; shr_s := false |}).
  assert (H1 : shr_fexp prec emax (Zpos p) 0 loc_Exact = (mrs', 0 + Zpos n)).
  { unfold shr_fexp. cbn [Zdigits2]. fold dg. rewrite Ht, Hn. reflexivity. }
  assert (Hq : shr_m mrs' = Zpos p / 2 ^ Zpos n)
    by (unfold mrs'; rewrite iter_shr_1_m; cbn [shr_m]; [reflexivity | lia]).
  assert (Hpow : 2 ^ dg = 2 ^ 53 * 2 ^ Zpos n)
    by (rewrite <- Z.pow_add_r by lia; f_equal; lia).
  assert (Hpow' : 2 ^ (dg - 1) = 2 ^ 52 * 2 ^ Zpos n)
    by (rewrite <- Z.pow_add_r by lia; f_equal; lia).
  assert (Hpos : 0 < 2 ^ Zpos n) by (apply Z.pow_pos_nonneg; lia).
  assert (Hq1 : 2 ^ 52 <= shr_m mrs' < 2 ^ 53).
  { rewrite Hq. split.
    - apply Z.div_le_lower_bound; lia.
    - apply Z.div_lt_upper_bound; lia. }
  pose proof (round_nearest_even_bounds (shr_m mrs')
                (loc_of_shr_record mrs')) as Hr.
  unfold binary_round_aux. rewrite H1. cbv beta iota.
  destruct (round_nearest_even (shr_m mrs') (loc_of_shr_record mrs'))
    as [|q|q] eqn:Hm2; try lia.
  assert (Hd2 : Zpos (digits2_pos q) = 53 \/ Zpos (digits2_pos q) = 54).
  { destruct (Z.ltb_spec (Zpos q) (2 ^ 53)).
    - left. apply digits2_pos_unique. lia.
    - right. apply digits2_pos_unique.
      change (2 ^ (54 - 1)) with (2 ^ 53). change (2 ^ 54) with (2 * 2 ^ 53).
      lia. }
  assert (Hn63 : Zpos n <= 10) by lia.
  unfold shr_fexp. cbn [Zdigits2 shr_record_of_loc].
  destruct Hd2 as [Hd2|Hd2]; rewrite Hd2.
  - replace (fexp prec emax (53 + (0 + Zpos n)) - (0 + Zpos n)) with 0
      by (unfold fexp, emin, prec, emax; lia).
    cbn [shr shr_m].
    destruct (Z.leb_spec (0 + Zpos n) (emax - prec)) as [_|Hbad];
      [eauto | unfold emax, prec in Hbad; lia].
  - replace (fexp prec emax (54 + (0 + Zpos n)) - (0 + Zpos n)) with 1
      by (unfold fexp, emin, prec, emax; lia).
    cbn [shr iter_pos].
    assert (Hs : shr_m (shr_1 {| shr_m := Zpos q; shr_r := false;
                                 shr_s := false |}) = Zpos q / 2)
      by (apply shr_1_m; cbn [shr_m]; lia).
    destruct (shr_m (shr_1 _)) as [|q'|q'] eqn:Hq'.
    + exfalso. assert (0 < Zpos q / 2) by (apply Z.div_str_pos; lia). lia.
    + destruct (Z.leb_spec (0 + Zpos n + 1) (emax - prec)) as [_|Hbad];
        [eauto | unfold emax, prec in Hbad; lia].
    + exfalso. assert (0 <= Zpos q / 2) by (apply Z.div_pos; lia). lia.
Qed.

Lemma f64_of_Z_finite (z : Z) :
  0 < z < 2 ^ 63 ->
  exists m e, Prim2SF (f64_of_Z z) = S754_finite false m e.
Proof.
  intros Hz. unfold f64_of_Z.
  destruct (Z.ltb_spec z 0) as [|_]; [lia|].
  rewrite of_uint63_spec, Uint63.of_Z_spec.
  rewrite Z.mod_small by (change wB with (2 ^ 63); lia).
  destruct z as [|p|p]; try lia. cbn [binary_normalize].
  assert (Hdg : Zpos (digits2_pos p) <= 63).
  { pose proof (digits2_pos_bounds p) as [Hlo _].
    destruct (Z.leb_spec (Zpos (digits2_pos p)) 63) as [|Hgt]; [assumption|].
    assert (2 ^ 63 <= 2 ^ (Zpos (digits2_pos p) - 1))
      by (apply Z.pow_le_mono_r; lia). lia. }
  destruct (Z.leb_spec (Zpos (digits2_pos p)) 53).
  - apply binary_round_small. assumption.
  - apply binary_round_large. lia.
Qed.

(** A finite number divided by itself is 1. *)
Lemma SFdiv_self (s : bool) (m : positive) (e : Z) :
  SF64div (S754_finite s m e) (S754_finite s m e) =
  S754_finite false 4503599627370496 (-52).
Proof.
  unfold SF64div, SFdiv, SFdiv_core_binary.
  replace (Zdigits2 (Zpos m) + e - (Zdigits2 (Zpos m) + e)) with 0 by lia.
  rewrite Z.sub_diag.
  change (Z.min (fexp prec emax 0) 0) with (-53).
  change (0 - -53) with 53.
  rewrite Z.shiftl_mul_pow2 by lia.
  assert (Hdiv : Z.div_eucl (Zpos m * 2 ^ 53) (Zpos m) = (2 ^ 53, 0)).
  { pose proof (Z.div_eucl_eq (Zpos m * 2 ^ 53) (Zpos m) ltac:(lia)) as Heq.
    pose proof (Z.mod_pos_bound (Zpos m * 2 ^ 53) (Zpos m) ltac:(lia)) as Hb.
    unfold Z.modulo in Hb.
    destruct (Z.div_eucl (Zpos m * 2 ^ 53) (Zpos m)) as [q r].
    assert (q = 2 ^ 53) by nia. subst q. f_equal. lia. }
  rewrite Hdiv.
  assert (Hloc : new_location (Zpos m) 0 = loc_Exact).
  { unfold new_location, new_location_even, new_location_odd.
    destruct (Z.even (Zpos m)); reflexivity. }
  rewrite Hloc. destruct s; vm_compute; reflexivity.
Qed.

Lemma f64_of_Z_class (z : Z) :
  0 <= z < 2 ^ 63 ->
  Prim2SF (f64_of_Z z) = S754_zero false \/
  exists m e, Prim2SF (f64_of_Z z) = S754_finite false m e.
Proof.
  intros Hz. destruct (Z.eq_dec z 0) as [->|Hne].
  - left. vm_compute. reflexivity.
  - right. apply f64_of_Z_finite. lia.
Qed.

Lemma div_eucl_nonneg (a b : Z) :
  0 <= a -> 0 < b -> 0 <= fst (Z.div_eucl a b).
Proof. intros Ha Hb. apply (Z.div_pos a b); assumption. Qed.

(** Zero or a finite number divided by a finite number is no NaN. *)
Lemma SFdiv_not_nan (x : spec_float) (sy : bool) (my : positive) (ey : Z) :
  (exists sx, x = S754_zero sx) \/ (exists sx mx ex, x = S754_finite sx mx ex) ->
  SF64div x (S754_finite sy my ey) <> S754_nan.
Proof.
  intros [[sx ->]|[sx [mx [ex ->]]]]; [discriminate|].
  unfold SF64div, SFdiv, SFdiv_core_binary.
  set (m' := match _ with Zpos _ => _ | Z0 => _ | Zneg _ => _ end).
  assert (Hm' : 0 <= m').
  { unfold m'. destruct (ex - ey - _) as [|q|q]; try lia.
    rewrite Z.shiftl_mul_pow2 by lia.
    apply Z.mul_nonneg_nonneg; [lia|]. apply Z.pow_nonneg. lia. }
  pose proof (div_eucl_nonneg m' (Zpos my) Hm' ltac:(lia)) as Hq.
  destruct (Z.div_eucl m' (Zpos my)) as [q r]. cbn [fst] in Hq.
  apply binary_round_aux_not_nan. assumption.
Qed.

Lemma SFmul_finite_not_nan (s : bool) (m : positive) (e : Z)
    (y : spec_float) :
  y <> S754_nan -> SF64mul (S754_finite s m e) y <> S754_nan.
Proof.
  intros Hy. destruct y as [sy|sy| |sy my ey]; try discriminate;
    [congruence|].
  unfold SF64mul, SFmul. apply binary_round_aux_not_nan. lia.
Qed.

Lemma f64_255 :
  Prim2SF (f64_of_Z 255) = S754_finite false 8972014882652160 (-45).
Proof. vm_compute. reflexivity. Qed.

(** No element of the array scaled by [normalize] is a NaN, for a
    denominator that is not zero. *)
Lemma normalize_float_not_nan (lo d v : Z) :
  0 <= v - lo < 2 ^ 63 -> 0 < d < 2 ^ 63 ->
  Prim2SF (normalize_float lo d v) <> S754_nan.
Proof.
  intros Hv Hd. unfold normalize_float.
  rewrite FloatAxioms.mul_spec, FloatAxioms.div_spec, f64_255.
  destruct (f64_of_Z_finite d Hd) as [md [ed Hfd]]. rewrite Hfd.
  apply SFmul_finite_not_nan. apply SFdiv_not_nan.
  destruct (f64_of_Z_class (v - lo) Hv) as [H|[m [e H]]]; rewrite H; eauto.
Qed.

(** The least pixel is scaled to [+0.0], the greatest to [255.0]. *)
Lemma normalize_float_least (lo d : Z) :
  0 < d < 2 ^ 63 ->
  Prim2SF (normalize_float lo d lo) = S754_zero false.
Proof.
  intros Hd. unfold normalize_float.
  rewrite FloatAxioms.mul_spec, FloatAxioms.div_spec, f64_255, Z.sub_diag.
  destruct (f64_of_Z_finite d Hd) as [md [ed Hfd]]. rewrite Hfd.
  replace (Prim2SF (f64_of_Z 0)) with (S754_zero false)
    by (vm_compute; reflexivity).
  reflexivity.
Qed.

Lemma normalize_float_greatest (lo d : Z) :
  0 < d < 2 ^ 63 ->
  Prim2SF (normalize_float lo d (lo + d)) =
  S754_finite false 8972014882652160 (-45).
Proof.
  intros Hd. unfold normalize_float.
  replace (lo + d - lo) with d by lia.
  rewrite FloatAxioms.mul_spec, FloatAxioms.div_spec, f64_255.
  destruct (f64_of_Z_finite d Hd) as [md [ed Hfd]]. rewrite Hfd.
  rewrite SFdiv_self. vm_compute. reflexivity.
Qed.

Lemma f64_to_uint8_SF (x : float) (sf : spec_float) :
  Prim2SF x = sf ->
  f64_to_uint8 x =
  match (match sf with
         | S754_zero _ => Some 0
         | S754_finite s m e =>
             let v := if 0 <=? e then Zpos m * 2 ^ e else Zpos m / 2 ^ (- e) in
             Some (if s then - v else v)
         | _ => None
         end) with
  | Some z => if (int32_min <=? z) && (z <=? int32_max) then z else int32_min
  | None => int32_min
  end mod 256.
Proof.
  intros <-. unfold f64_to_uint8, f64_to_int32, f64_trunc.
  destruct (Prim2SF x); reflexivity.
Qed.

Lemma normalize_pixel_extremes (d : Z) :
  0 < d < 2 ^ 63 ->
  normalize_pixel 0 d 0 = 0 /\ normalize_pixel 0 d d = 255.
Proof.
  intros Hd. unfold normalize_pixel. split.
  - rewrite (f64_to_uint8_SF _ _ (normalize_float_least 0 d Hd)).
    reflexivity.
  - pose proof (normalize_float_greatest 0 d Hd) as H.
    rewrite Z.add_0_l in H.
    rewrite (f64_to_uint8_SF _ _ H). vm_compute. reflexivity.
Qed.

(** C2 (as amended): on an image that is not empty, of non-negative integer
    pixels, the normalisation returns an array of the same shape, the cast
    of a [float64] array without any NaN. On a constant image every element
    of that array is [+0.0] (the guarded denominator 1 divides the zero
    differences, where the difference of the extremes would give [0/0]), so
    the image returned is all-zero, not the input; an image with two
    different pixels gets minimum 0 and maximum 255. *)
Theorem normalize_min_max (image : ndarray Z) :
  data image <> [] ->
  pixels_unsigned image ->
  exists scaled out,
    normalize_scaled image = Ok scaled /\
    normalize image = Ok out /\
    out = nd_map f64_to_uint8 scaled /\
    shape out = shape image /\
    (forall x, In x (data scaled) -> Prim2SF x <> S754_nan) /\
    (constant_image image ->
     (forall x, In x (data scaled) -> Prim2SF x = S754_zero false) /\
     data out = map (fun _ => 0) (data image)) /\
    (~ constant_image image ->
     is_min 0 (data out) /\ is_max 255 (data out)).
Proof.
  intros Hne Hpix. unfold normalize, normalize_scaled.
  destruct (data image) as [|x xs] eqn:Hdata; [congruence|].
  set (i_min := list_min x xs). set (i_max := list_max x xs).
  assert (Hmin_in : In i_min (data image))
    by (rewrite Hdata; apply list_min_In).
  assert (Hmax_in : In i_max (data image))
    by (rewrite Hdata; apply list_max_In).
  assert (Hmin_le : forall v, In v (data image) -> i_min <= v).
  { rewrite Hdata. intros v [<-|Hv];
      [apply (proj1 (list_min_le xs x))
      |apply (proj2 (list_min_le xs x)); assumption]. }
  assert (Hmax_ge : forall v, In v (data image) -> v <= i_max).
  { rewrite Hdata. intros v [<-|Hv];
      [apply (proj1 (list_max_ge xs x))
      |apply (proj2 (list_max_ge xs x)); assumption]. }
  pose proof (Hpix _ Hmin_in) as Hb1. pose proof (Hpix _ Hmax_in) as Hb2.
  cbv zeta. cbn [bind]. eexists. eexists.
  split; [reflexivity|]. split; [reflexivity|]. split; [reflexivity|].
  split; [reflexivity|].
  unfold nd_map; cbn [data shape]. rewrite map_map, <- Hdata.
  fold (normalize_pixel i_min (if i_max >? i_min then i_max - i_min else 1)).
  destruct (Z.gtb_spec i_max i_min) as [Hgt|Hle].
  - (* two different pixels *)
    destruct (normalize_pixel_extremes (i_max - i_min) ltac:(lia))
      as [H0 H255].
    split; [|split].
    + intros y Hy. apply in_map_iff in Hy. destruct Hy as [v [<- Hv]].
      pose proof (Hpix v Hv). pose proof (Hmin_le v Hv).
      apply normalize_float_not_nan; lia.
    + intros Hconst. specialize (Hconst _ _ Hmin_in Hmax_in). lia.
    + intros _. split; split.
      * apply in_map_iff. exists i_min. split; [|assumption].
        rewrite normalize_pixel_shift, Z.sub_diag. assumption.
      * intros v Hv. apply in_map_iff in Hv. destruct Hv as [u [<- _]].
        apply normalize_pixel_byte.
      * apply in_map_iff. exists i_max. split; [|assumption].
        rewrite normalize_pixel_shift. assumption.
      * intros v Hv. apply in_map_iff in Hv. destruct Hv as [u [<- _]].
        apply normalize_pixel_byte.
  - (* one pixel value *)
    assert (Hflat : forall v, In v (data image) ->
              Prim2SF (normalize_float i_min 1 v) = S754_zero false).
    { intros v Hv.
      replace v with i_min
        by (pose proof (Hmin_le _ Hv); pose proof (Hmax_ge _ Hv); lia).
      apply normalize_float_least. lia. }
    split; [|split].
    + intros y Hy. apply in_map_iff in Hy. destruct Hy as [v [<- Hv]].
      rewrite (Hflat v Hv). discriminate.
    + intros _. split.
      * intros y Hy. apply in_map_iff in Hy. destruct Hy as [v [<- Hv]].
        apply Hflat. assumption.
      * apply map_ext_in. intros v Hv. unfold normalize_pixel.
        rewrite (f64_to_uint8_SF _ _ (Hflat v Hv)). reflexivity.
    + intros Hnc. exfalso. apply Hnc. intros u v Hu Hv.
      pose proof (Hmin_le _ Hu). pose proof (Hmax_ge _ Hu).
      pose proof (Hmin_le _ Hv). pose proof (Hmax_ge _ Hv). lia.
Qed.

Lemma shl_align_value (m : positive) (e e' : Z) :
  e' <= e -> Zpos (fst (shl_align m e e')) = Zpos m * 2 ^ (e - e').
Proof.
  intros H. unfold shl_align.
  destruct (e' - e) as [|d|d] eqn:Hd; try lia.
  - replace (e - e') with 0 by lia. simpl. lia.
  - replace (e - e') with (Zpos d) by lia. cbn [fst].
    change (Pos.iter xO m d) with (shift_pos d m).
    rewrite shift_pos_correct, Zpower_pos_nat, Zpower_nat_Z, positive_nat_Z. lia.
Qed.

Lemma bounded32_emin (m : positive) (e : Z) :
  bounded prec32 emax32 m e = true -> -149 <= e.
Proof.
  unfold bounded, canonical_mantissa, fexp, emin, prec32, emax32.
  intros H. apply andb_prop in H. destruct H as [H _].
  apply Z.eqb_eq in H. lia.
Qed.

Lemma f32_round_finite (s : bool) (m : positive) (e : Z) :
  bounded prec32 emax32 m e = true ->
  f32_round (cond_Zopp s (Zpos m * 2 ^ (e + 149))) = S754_finite s m e.
Proof.
  intros Hb. pose proof (bounded32_emin m e Hb) as He.
  unfold f32_round.
  replace (cond_Zopp s (Zpos m * 2 ^ (e + 149)))
    with (cond_Zopp s (Zpos m) * 2 ^ (e + 149))
    by (destruct s; cbn [cond_Zopp]; ring).
  replace (-149) with (e - (e + 149)) by lia.
  rewrite binary_normalize_shift by lia.
  destruct s; simpl; apply binary_round_canonical; assumption.
Qed.

(** Binary32 subtraction is the rounding of the exact difference. *)
Lemma f32_sub_exact (x y : f32) :
  f32_ok x -> f32_ok y ->
  f32_sub x y = f32_round (f32_value x - f32_value y).
Proof.
  destruct x as [sx| | |sx mx ex]; destruct y as [sy| | |sy my ey];
    cbn [f32_ok f32_value]; try contradiction; intros Hx Hy.
  - subst. reflexivity.
  - subst. unfold f32_sub. cbn [SFsub].
    rewrite <- (f32_round_finite (negb sy) my ey Hy). f_equal.
    destruct sy; cbn [cond_Zopp negb]; ring.
  - subst. unfold f32_sub. cbn [SFsub].
    rewrite Z.sub_0_r. symmetry. apply f32_round_finite. assumption.
  - pose proof (bounded32_emin _ _ Hx). pose proof (bounded32_emin _ _ Hy).
    unfold f32_sub, SFsub, f32_round.
    set (ez := Z.min ex ey).
    rewrite <- (binary_normalize_shift prec32 emax32 _ ez (ez + 149)) by lia.
    replace (ez - (ez + 149)) with (-149) by lia.
    f_equal.
    assert (Hmx := shl_align_value mx ex ez ltac:(lia)).
    assert (Hmy := shl_align_value my ey ez ltac:(lia)).
    assert (Hpx : 2 ^ (ex + 149) = 2 ^ (ex - ez) * 2 ^ (ez + 149))
      by (rewrite <- Z.pow_add_r by lia; f_equal; lia).
    assert (Hpy : 2 ^ (ey + 149) = 2 ^ (ey - ez) * 2 ^ (ez + 149))
      by (rewrite <- Z.pow_add_r by lia; f_equal; lia).
    rewrite Hpx, Hpy.
    destruct sx, sy; cbn [cond_Zopp]; rewrite Hmx, Hmy; ring.
Qed.

Lemma f32_sub_diag (x : f32) : f32_ok x -> f32_sub x x = f32_zero.
Proof.
  intros H. rewrite f32_sub_exact by assumption.
  rewrite Z.sub_diag. reflexivity.
Qed.

(* ===================================================================== *)
(** ** The [float64] arithmetic of the sampler *)
(* ===================================================================== *)

Lemma Zdigits2_bound (m k : Z) :
  0 <= m < 2 ^ k -> 0 <= k -> 0 <= Zdigits2 m <= k.
Proof.
  intros [Hm Hk] Hk0. destruct m as [|p|p]; cbn [Zdigits2]; try lia.
  pose proof (digits2_pos_bounds p) as [Hlo _]. split; [lia|].
  destruct (Z.leb_spec (Zpos (digits2_pos p)) k) as [|Hgt]; [assumption|].
  assert (2 ^ k <= 2 ^ (Zpos (digits2_pos p) - 1))
    by (apply Z.pow_le_mono_r; lia). lia.
Qed.

(** The conversion of an integer that [float64] holds exactly. *)
Lemma f64_of_Z_SF (z : Z) :
  0 <= z < 2 ^ 63 ->
  Prim2SF (f64_of_Z z) = binary_normalize prec emax z 0 false.
Proof.
  intros Hz. unfold f64_of_Z. destruct (Z.ltb_spec z 0) as [|_]; [lia|].
  rewrite of_uint63_spec, Uint63.of_Z_spec.
  rewrite Z.mod_small by (change wB with (2 ^ 63); lia). reflexivity.
Qed.

Lemma f64_of_Z_exact (p : positive) :
  Zpos (digits2_pos p) <= 53 ->
  Prim2SF (f64_of_Z (Zpos p)) =
  S754_finite false
    (Nat.iter (Z.to_nat (53 - Zpos (digits2_pos p))) xO p)
    (Zpos (digits2_pos p) - 53).
Proof.
  intros Hdg. pose proof (digits2_pos_bounds p) as [_ Hhi].
  assert (Zpos p < 2 ^ 63).
  { assert (2 ^ Zpos (digits2_pos p) <= 2 ^ 63)
      by (apply Z.pow_le_mono_r; lia). lia. }
  rewrite f64_of_Z_SF by lia. cbn [binary_normalize].
  set (k := Z.to_nat (53 - Zpos (digits2_pos p))).
  replace (Zpos (digits2_pos p) - 53) with (0 - Z.of_nat k) by lia.
  rewrite <- (binary_round_shift prec emax false k p 0).
  apply binary_round_canonical.
  unfold bounded, canonical_mantissa, fexp, emin, prec, emax.
  rewrite digits2_shift. fold k.
  apply andb_true_intro. split; [apply Z.eqb_eq | apply Z.leb_le]; lia.
Qed.

Lemma digits2_pos_le (p : positive) (k : Z) :
  Zpos p < 2 ^ k -> 0 <= k -> Zpos (digits2_pos p) <= k.
Proof.
  intros Hp Hk.
  pose proof (Zdigits2_bound (Zpos p) k ltac:(lia) Hk) as H.
  cbn [Zdigits2] in H. lia.
Qed.

(** The cast to [int32] gives an index back. *)
Lemma f64_to_int32_of_Z (z : Z) :
  0 <= z <= int32_max -> f64_to_int32 (f64_of_Z z) = z.
Proof.
  intros Hz. destruct z as [|p|p]; try lia; [vm_compute; reflexivity|].
  assert (Hdg : Zpos (digits2_pos p) <= 31)
    by (apply digits2_pos_le; [unfold int32_max in Hz|]; lia).
  unfold f64_to_int32, f64_trunc.
  rewrite f64_of_Z_exact by lia.
  set (k := Z.to_nat (53 - Zpos (digits2_pos p))).
  destruct (Z.leb_spec 0 (Zpos (digits2_pos p) - 53)) as [|_]; [lia|].
  rewrite iter_xO_mul.
  replace (- (Zpos (digits2_pos p) - 53)) with (Z.of_nat k) by lia.
  rewrite Z.div_mul by (apply Z.pow_nonzero; lia).
  destruct (Z.leb_spec int32_min (Zpos p)) as [_|Hbad];
    [|unfold int32_min in Hbad; lia].
  destruct (Z.leb_spec (Zpos p) int32_max) as [_|Hbad]; [reflexivity | lia].
Qed.


Lemma Zdigits2_lower (m k : Z) : 0 <= k -> 2 ^ k <= m -> k + 1 <= Zdigits2 m.
Proof.
  intros Hk Hm. assert (0 < 2 ^ k) by (apply Z.pow_pos_nonneg; lia).
  destruct m as [|p|p]; try lia. cbn [Zdigits2].
  pose proof (digits2_pos_bounds p) as [_ Hhi].
  destruct (Z.leb_spec (Zpos (digits2_pos p)) k) as [Hle|]; [|lia].
  assert (2 ^ Zpos (digits2_pos p) <= 2 ^ k) by (apply Z.pow_le_mono_r; lia).
  lia.
Qed.

Lemma shr_value (mrs : shr_record) (e n : Z) :
  0 <= shr_m mrs -> 0 <= n ->
  shr_m (fst (shr mrs e n)) = shr_m mrs / 2 ^ n /\ snd (shr mrs e n) = e + n.
Proof.
  intros Hm Hn. unfold shr. destruct n as [|p|p]; cbn [fst snd]; try lia.
  - change (2 ^ 0) with 1. rewrite Z.div_1_r. lia.
  - rewrite iter_shr_1_m by assumption. lia.
Qed.

(** Rounding a mantissa of at least 53 bits: the result is normal, and at
    most one unit of its last place away. *)
Lemma binary_round_aux_value (m e : Z) (l : location) :
  2 ^ 52 <= m -> -1000 <= e -> e + Zdigits2 m <= 1000 ->
  exists m' e',
    binary_round_aux prec emax false m e l = S754_finite false m' e' /\
    Zpos (digits2_pos m') = 53 /\
    e <= e' <= e + Zdigits2 m - 52 /\
    m - 2 ^ (e' - e) <= Zpos m' * 2 ^ (e' - e) <= m + 2 ^ (e' - e).
Proof.
  intros Hm He Hhi.
  pose proof (Zdigits2_lower m 52 ltac:(lia) Hm) as Hdg.
  assert (Hlt : 2 ^ (Zdigits2 m - 1) <= m < 2 ^ Zdigits2 m).
  { destruct m as [|p|p]; try (change (2 ^ 52) with 4503599627370496 in Hm; lia).
    cbn [Zdigits2]. apply digits2_pos_bounds. }
  set (dg := Zdigits2 m) in *. set (n := dg - 53).
  assert (Hn : 0 <= n) by (unfold n; lia).
  assert (Hpn : 0 < 2 ^ n) by (apply Z.pow_pos_nonneg; lia).
  assert (Hp1 : 2 ^ (dg - 1) = 2 ^ 52 * 2 ^ n)
    by (rewrite <- Z.pow_add_r by lia; f_equal; unfold n; lia).
  assert (Hp2 : 2 ^ dg = 2 ^ 53 * 2 ^ n)
    by (rewrite <- Z.pow_add_r by lia; f_equal; unfold n; lia).
  unfold binary_round_aux, shr_fexp. fold dg.
  replace (fexp prec emax (dg + e) - e) with n
    by (unfold fexp, emin, prec, emax, n; lia).
  destruct (shr_value (shr_record_of_loc m l) e n) as [Hv He1];
    [rewrite shr_record_of_loc_m; lia | assumption |].
  destruct (shr (shr_record_of_loc m l) e n) as [mrs' e1].
  cbn [fst snd] in Hv, He1. subst e1. rewrite shr_record_of_loc_m in Hv.
  rewrite Hv. set (f := m / 2 ^ n) in *.
  assert (Hf : f * 2 ^ n <= m < (f + 1) * 2 ^ n).
  { pose proof (Z.div_mod m (2 ^ n) ltac:(lia)) as Hdm.
    pose proof (Z.mod_pos_bound m (2 ^ n) Hpn) as Hmod. fold f in Hdm.
    lia. }
  assert (Hf2 : 2 ^ 52 <= f < 2 ^ 53).
  { split.
    - apply Z.div_le_lower_bound; lia.
    - apply Z.div_lt_upper_bound; lia. }
  pose proof (round_nearest_even_bounds f (loc_of_shr_record mrs')) as Hr.
  set (r := round_nearest_even f (loc_of_shr_record mrs')) in *.
  destruct (Z.eq_dec r (2 ^ 53)) as [Hr53|Hr53].
  - rewrite Hr53. change (Zdigits2 (2 ^ 53)) with 54.
    replace (fexp prec emax (54 + (e + n)) - (e + n)) with 1
      by (unfold fexp, emin, prec, emax; lia).
    destruct (shr_value (shr_record_of_loc (2 ^ 53) loc_Exact) (e + n) 1)
      as [Hv2 He2]; [rewrite shr_record_of_loc_m; lia | lia |].
    destruct (shr (shr_record_of_loc (2 ^ 53) loc_Exact) (e + n) 1)
      as [mrs'' e2].
    cbn [fst snd] in Hv2, He2. subst e2. rewrite shr_record_of_loc_m in Hv2.
    rewrite Hv2. change (2 ^ 53 / 2 ^ 1) with (Zpos 4503599627370496).
    cbv iota.
    destruct (Z.leb_spec (e + n + 1) (emax - prec)) as [_|Hbad];
      [|unfold emax, prec in Hbad; unfold n in Hbad; lia].
    exists 4503599627370496%positive, (e + n + 1).
    split; [reflexivity|]. split; [reflexivity|].
    split; [unfold n; lia|].
    replace (e + n + 1 - e) with (n + 1) by lia.
    rewrite Z.pow_add_r by lia. change (2 ^ 1) with 2.
    change (Zpos 4503599627370496) with (2 ^ 52).
    assert (f + 1 = 2 ^ 53) by lia.
    assert ((f + 1) * 2 ^ n = 2 ^ 52 * (2 ^ n * 2))
      by (replace (f + 1) with (2 ^ 53) by lia;
          change (2 ^ 53) with (2 ^ 52 * 2); ring).
    lia.
  - assert (Hr2 : 2 ^ 52 <= r < 2 ^ 53) by lia.
    destruct r as [|q|q];
      try (change (2 ^ 52) with 4503599627370496 in Hr2; lia).
    assert (Hq : Zpos (digits2_pos q) = 53)
      by (apply digits2_pos_unique; exact Hr2).
    cbn [Zdigits2]. rewrite Hq.
    replace (fexp prec emax (53 + (e + n)) - (e + n)) with 0
      by (unfold fexp, emin, prec, emax; lia).
    cbn [shr shr_record_of_loc shr_m].
    destruct (Z.leb_spec (e + n) (emax - prec)) as [_|Hbad];
      [|unfold emax, prec in Hbad; unfold n in Hbad; lia].
    exists q, (e + n).
    split; [reflexivity|]. split; [assumption|].
    split; [unfold n; lia|].
    replace (e + n - e) with n by lia.
    nia.
Qed.

Lemma rel_err (m m' U G : Z) :
  0 < G -> 0 < U -> 2 ^ 52 <= m' ->
  m - U <= m' * U <= m + U ->
  2 ^ 52 * (m' * U * G - m * G) <= m' * U * G /\
  2 ^ 52 * (m * G - m' * U * G) <= m' * U * G.
Proof.
  intros HG HU Hm' H.
  assert (HW : 0 < U * G) by (apply Z.mul_pos_pos; assumption).
  assert (H1 : 2 ^ 52 * (U * G) <= m' * (U * G))
    by (apply Z.mul_le_mono_nonneg_r; lia).
  assert (H2 : (m' * U - m) * G <= U * G)
    by (apply Z.mul_le_mono_nonneg_r; lia).
  assert (H3 : (m - m' * U) * G <= U * G)
    by (apply Z.mul_le_mono_nonneg_r; lia).
  replace (m' * U * G - m * G) with ((m' * U - m) * G) by ring.
  replace (m * G - m' * U * G) with ((m - m' * U) * G) by ring.
  replace (m' * U * G) with (m' * (U * G)) by ring.
  change (2 ^ 52) with 4503599627370496 in *.
  split; lia.
Qed.

Lemma pow2_split (a b : Z) : 0 <= a -> 0 <= b -> 2 ^ (a + b) = 2 ^ a * 2 ^ b.
Proof. intros. apply Z.pow_add_r; assumption. Qed.

(** An integer below [2^53] as a [float64]: normal, and exact. *)
Lemma f64_of_Z_normal (z : Z) :
  0 < z < 2 ^ 53 ->
  exists m e,
    Prim2SF (f64_of_Z z) = S754_finite false m e /\
    Zpos (digits2_pos m) = 53 /\ -52 <= e <= 0 /\
    Zpos m = z * 2 ^ (- e) /\
    Zpos m * 2 ^ (e + 200) = z * 2 ^ 200.
Proof.
  intros Hz. destruct z as [|p|p]; try lia.
  assert (Hdg : Zpos (digits2_pos p) <= 53) by (apply digits2_pos_le; lia).
  pose proof (digits2_pos_bounds p) as Hb.
  assert (0 < Zpos (digits2_pos p)) by lia.
  rewrite f64_of_Z_exact by assumption.
  eexists. eexists. split; [reflexivity|].
  rewrite digits2_shift. split; [lia|]. split; [lia|].
  rewrite iter_xO_mul. split.
  - f_equal. f_equal. lia.
  - rewrite <- Z.mul_assoc, <- Z.pow_add_r by lia.
    f_equal. f_equal. lia.
Qed.

(** The product of two normal numbers, rounded. *)
Lemma SFmul_value (mx my : positive) (ex ey : Z) :
  Zpos (digits2_pos mx) = 53 -> Zpos (digits2_pos my) = 53 ->
  -200 <= ex -> -200 <= ey -> -200 <= ex + ey <= 200 ->
  exists m' e',
    SF64mul (S754_finite false mx ex) (S754_finite false my ey) =
    S754_finite false m' e' /\
    Zpos (digits2_pos m') = 53 /\
    ex + ey <= e' <= ex + ey + 54 /\
    2 ^ 52 * (Zpos m' * 2 ^ (e' + 200) * 2 ^ 200 -
              Zpos mx * 2 ^ (ex + 200) * (Zpos my * 2 ^ (ey + 200))) <=
    Zpos m' * 2 ^ (e' + 200) * 2 ^ 200 /\
    2 ^ 52 * (Zpos mx * 2 ^ (ex + 200) * (Zpos my * 2 ^ (ey + 200)) -
              Zpos m' * 2 ^ (e' + 200) * 2 ^ 200) <=
    Zpos m' * 2 ^ (e' + 200) * 2 ^ 200.
Proof.
  intros Hdx Hdy Hex Hey He.
  pose proof (digits2_pos_bounds mx) as Hbx. rewrite Hdx in Hbx.
  pose proof (digits2_pos_bounds my) as Hby. rewrite Hdy in Hby.
  change (2 ^ (53 - 1)) with (2 ^ 52) in *.
  unfold SF64mul, SFmul. cbn [xorb].
  assert (Hlo : 2 ^ 52 <= Zpos (mx * my)).
  { rewrite Pos2Z.inj_mul. change (2 ^ 52) with 4503599627370496 in *. nia. }
  assert (Hdg : Zdigits2 (Zpos (mx * my)) <= 106).
  { apply Zdigits2_bound; [|lia]. rewrite Pos2Z.inj_mul.
    change (2 ^ 106) with (2 ^ 53 * 2 ^ 53).
    change (2 ^ 53) with 9007199254740992 in *. nia. }
  destruct (binary_round_aux_value (Zpos (mx * my)) (ex + ey) loc_Exact)
    as [m' [e' [Hr [Hd' [He' Hv]]]]]; [assumption | lia | lia |].
  exists m', e'. split; [exact Hr|]. split; [assumption|].
  split; [lia|].
  set (U := 2 ^ (e' - (ex + ey))) in *.
  set (G := 2 ^ (ex + ey + 400)).
  assert (HU : 0 < U) by (apply Z.pow_pos_nonneg; lia).
  assert (HG : 0 < G) by (apply Z.pow_pos_nonneg; lia).
  pose proof (digits2_pos_bounds m') as Hbm. rewrite Hd' in Hbm.
  change (2 ^ (53 - 1)) with (2 ^ 52) in Hbm.
  destruct (rel_err (Zpos (mx * my)) (Zpos m') U G HG HU ltac:(lia) Hv)
    as [R1 R2].
  assert (E1 : Zpos m' * 2 ^ (e' + 200) * 2 ^ 200 = Zpos m' * U * G).
  { unfold U, G. rewrite <- !Z.mul_assoc. f_equal.
    rewrite <- !Z.pow_add_r by lia. f_equal. lia. }
  assert (E2 : Zpos mx * 2 ^ (ex + 200) * (Zpos my * 2 ^ (ey + 200)) =
               Zpos (mx * my) * G).
  { unfold G. rewrite Pos2Z.inj_mul.
    replace (ex + ey + 400) with ((ex + 200) + (ey + 200)) by lia.
    rewrite (Z.pow_add_r 2 (ex + 200) (ey + 200)) by lia. ring. }
  rewrite E1, E2. split; assumption.
Qed.

(** The quotient of two normal numbers, rounded. *)
Lemma SFdiv_value (mx my : positive) (ex ey : Z) :
  Zpos (digits2_pos mx) = 53 -> Zpos (digits2_pos my) = 53 ->
  -60 <= ex <= 60 -> -60 <= ey <= 60 ->
  exists m' e',
    SF64div (S754_finite false mx ex) (S754_finite false my ey) =
    S754_finite false m' e' /\
    Zpos (digits2_pos m') = 53 /\
    ex - ey - 53 <= e' <= ex - ey - 51 /\
    2 ^ 51 * (Zpos m' * 2 ^ (e' + 200) * (Zpos my * 2 ^ (ey + 200)) -
              Zpos mx * 2 ^ (ex + 200) * 2 ^ 200) <=
    Zpos m' * 2 ^ (e' + 200) * (Zpos my * 2 ^ (ey + 200)) /\
    2 ^ 51 * (Zpos mx * 2 ^ (ex + 200) * 2 ^ 200 -
              Zpos m' * 2 ^ (e' + 200) * (Zpos my * 2 ^ (ey + 200))) <=
    Zpos m' * 2 ^ (e' + 200) * (Zpos my * 2 ^ (ey + 200)).
Proof.
  intros Hdx Hdy Hex Hey.
  pose proof (digits2_pos_bounds mx) as Hbx. rewrite Hdx in Hbx.
  pose proof (digits2_pos_bounds my) as Hby. rewrite Hdy in Hby.
  change (2 ^ (53 - 1)) with (2 ^ 52) in *.
  unfold SF64div, SFdiv, SFdiv_core_binary. cbn [Zdigits2 xorb].
  rewrite Hdx, Hdy.
  replace (fexp prec emax (53 + ex - (53 + ey))) with (ex - ey - 53)
    by (unfold fexp, emin, prec, emax; lia).
  replace (Z.min (ex - ey - 53) (ex - ey)) with (ex - ey - 53) by lia.
  replace (ex - ey - (ex - ey - 53)) with 53 by lia.
  rewrite Z.shiftl_mul_pow2 by lia.
  set (A := Zpos mx * 2 ^ 53).
  pose proof (Z.div_mod A (Zpos my) ltac:(lia)) as Hdm.
  pose proof (Z.mod_pos_bound A (Zpos my) ltac:(lia)) as Hmod.
  unfold Z.div, Z.modulo in Hdm, Hmod.
  destruct (Z.div_eucl A (Zpos my)) as [q r]. cbn [fst snd] in *.
  assert (Hq : Zpos my * q <= A < Zpos my * (q + 1)) by lia.
  assert (Hq52 : 2 ^ 52 <= q).
  { assert (Zpos my * 2 ^ 52 < Zpos my * (q + 1)); [|nia].
    unfold A in Hq. change (2 ^ 53) with 9007199254740992 in *.
    change (2 ^ 52) with 4503599627370496 in *. nia. }
  assert (Hq54 : q < 2 ^ 54).
  { assert (Zpos my * q < Zpos my * 2 ^ 54); [|nia].
    unfold A in Hq. change (2 ^ 54) with 18014398509481984.
    change (2 ^ 53) with 9007199254740992 in *.
    change (2 ^ 52) with 4503599627370496 in *. nia. }
  assert (Hdg : Zdigits2 q <= 54) by (apply Zdigits2_bound; lia).
  match goal with
  | |- context [binary_round_aux _ _ _ _ _ ?l] =>
      destruct (binary_round_aux_value q (ex - ey - 53) l)
        as [m' [e' [Hr [Hd' [He' Hv]]]]]; [assumption | lia | lia |]
  end.
  exists m', e'. split; [exact Hr|]. split; [assumption|].
  split; [lia|].
  set (U := 2 ^ (e' - (ex - ey - 53))) in *.
  set (G := 2 ^ (ex + 347)).
  assert (HU : 0 < U) by (apply Z.pow_pos_nonneg; lia).
  assert (HG : 0 < G) by (apply Z.pow_pos_nonneg; lia).
  pose proof (digits2_pos_bounds m') as Hbm. rewrite Hd' in Hbm.
  change (2 ^ (53 - 1)) with (2 ^ 52) in Hbm.
  assert (E1 : Zpos m' * 2 ^ (e' + 200) * (Zpos my * 2 ^ (ey + 200)) =
               Zpos m' * U * Zpos my * G).
  { unfold U, G.
    replace (Zpos m' * 2 ^ (e' + 200) * (Zpos my * 2 ^ (ey + 200)))
      with (Zpos m' * Zpos my * (2 ^ (e' + 200) * 2 ^ (ey + 200))) by ring.
    replace (Zpos m' * 2 ^ (e' - (ex - ey - 53)) * Zpos my * 2 ^ (ex + 347))
      with (Zpos m' * Zpos my *
            (2 ^ (e' - (ex - ey - 53)) * 2 ^ (ex + 347))) by ring.
    f_equal. rewrite <- !Z.pow_add_r by lia. f_equal. lia. }
  assert (E2 : Zpos mx * 2 ^ (ex + 200) * 2 ^ 200 = A * G).
  { unfold A, G. rewrite <- !Z.mul_assoc. f_equal.
    rewrite <- !Z.pow_add_r by lia. f_equal. lia. }
  rewrite E1, E2.
  set (m := Zpos m') in *. set (y := Zpos my) in *.
  assert (HUy : 0 < U * y) by (apply Z.mul_pos_pos; lia).
  assert (K1 : 2 ^ 52 * (U * y) <= m * (U * y))
    by (apply Z.mul_le_mono_nonneg_r; lia).
  assert (K2 : (m * U - q) * y <= U * y)
    by (apply Z.mul_le_mono_nonneg_r; lia).
  assert (K3 : (q - m * U) * y <= U * y)
    by (apply Z.mul_le_mono_nonneg_r; lia).
  assert (K4 : y <= U * y) by nia.
  assert (K5 : 2 ^ 51 * (m * U * y - A) <= m * U * y /\
               2 ^ 51 * (A - m * U * y) <= m * U * y).
  { change (2 ^ 52) with 4503599627370496 in *.
    change (2 ^ 51) with 2251799813685248 in *.
    replace (m * U * y) with (m * (U * y)) by ring.
    assert ((m * U - q) * y = m * (U * y) - q * y) by ring.
    assert ((q - m * U) * y = q * y - m * (U * y)) by ring.
    split; lia. }
  destruct K5 as [K5 K6].
  replace (m * U * y * G - A * G) with ((m * U * y - A) * G) by ring.
  replace (A * G - m * U * y * G) with ((A - m * U * y) * G) by ring.
  rewrite !Z.mul_assoc.
  split; apply Z.mul_le_mono_nonneg_r; lia.
Qed.

(** The sum of two normal numbers, rounded. *)
Lemma SFadd_value (mx my : positive) (ex ey : Z) :
  Zpos (digits2_pos mx) = 53 -> Zpos (digits2_pos my) = 53 ->
  -200 <= ex <= 200 -> -200 <= ey <= 200 ->
  exists m' e',
    SF64add (S754_finite false mx ex) (S754_finite false my ey) =
    S754_finite false m' e' /\
    Zpos (digits2_pos m') = 53 /\
    Z.min ex ey <= e' <= Z.max ex ey + 2 /\
    2 ^ 52 * (Zpos m' * 2 ^ (e' + 200) -
              (Zpos mx * 2 ^ (ex + 200) + Zpos my * 2 ^ (ey + 200))) <=
    Zpos m' * 2 ^ (e' + 200) /\
    2 ^ 52 * (Zpos mx * 2 ^ (ex + 200) + Zpos my * 2 ^ (ey + 200) -
              Zpos m' * 2 ^ (e' + 200)) <=
    Zpos m' * 2 ^ (e' + 200).
Proof.
  intros Hdx Hdy Hex Hey.
  pose proof (digits2_pos_bounds mx) as Hbx. rewrite Hdx in Hbx.
  pose proof (digits2_pos_bounds my) as Hby. rewrite Hdy in Hby.
  change (2 ^ (53 - 1)) with (2 ^ 52) in *.
  unfold SF64add, SFadd. cbn [cond_Zopp].
  set (ez := Z.min ex ey).
  pose proof (shl_align_value mx ex ez ltac:(unfold ez; lia)) as Hax.
  pose proof (shl_align_value my ey ez ltac:(unfold ez; lia)) as Hay.
  set (a := fst (shl_align mx ex ez)) in *.
  set (b := fst (shl_align my ey ez)) in *.
  change (Zpos a + Zpos b) with (Zpos (a + b)).
  cbn [binary_normalize].
  assert (Hpx : 0 < 2 ^ (ex - ez))
    by (apply Z.pow_pos_nonneg; [|unfold ez]; lia).
  assert (Hpy : 0 < 2 ^ (ey - ez))
    by (apply Z.pow_pos_nonneg; [|unfold ez]; lia).
  assert (Hsum : Zpos (a + b) = Zpos mx * 2 ^ (ex - ez) + Zpos my * 2 ^ (ey - ez))
    by (rewrite Pos2Z.inj_add; lia).
  assert (Hlo : 2 ^ 52 <= Zpos (a + b)).
  { change (2 ^ 52) with 4503599627370496 in *. nia. }
  set (k := Z.max ex ey - ez).
  assert (Hk : 0 <= k) by (unfold k, ez; lia).
  assert (Hpk : 2 ^ (ex - ez) <= 2 ^ k /\ 2 ^ (ey - ez) <= 2 ^ k)
    by (split; apply Z.pow_le_mono_r; unfold k, ez; lia).
  assert (Hup : Zpos (a + b) < 2 ^ (54 + k)).
  { rewrite Z.pow_add_r by lia. change (2 ^ 54) with (2 * 2 ^ 53).
    change (2 ^ 53) with 9007199254740992 in *. nia. }
  assert (Hdg : 53 <= Zdigits2 (Zpos (a + b)) <= 54 + k).
  { split; [apply (Zdigits2_lower _ 52); [lia | assumption]|].
    apply Zdigits2_bound; lia. }
  unfold binary_round.
  assert (Hsh : shl_align (a + b) ez
                  (fexp prec emax (Zpos (digits2_pos (a + b)) + ez)) =
                ((a + b)%positive, ez)).
  { unfold shl_align. cbn [Zdigits2] in Hdg.
    destruct (fexp prec emax (Zpos (digits2_pos (a + b)) + ez) - ez)
      as [|p|p] eqn:Hd; try reflexivity.
    unfold fexp, emin, prec, emax in Hd. lia. }
  rewrite Hsh.
  destruct (binary_round_aux_value (Zpos (a + b)) ez loc_Exact)
    as [m' [e' [Hr [Hd' [He' Hv]]]]];
    [assumption | unfold ez; lia | unfold k, ez in *; lia |].
  exists m', e'. split; [exact Hr|]. split; [assumption|].
  split; [unfold k, ez in *; lia|].
  set (U := 2 ^ (e' - ez)) in *.
  set (G := 2 ^ (ez + 200)).
  assert (HU : 0 < U) by (apply Z.pow_pos_nonneg; lia).
  assert (HG : 0 < G) by (apply Z.pow_pos_nonneg; unfold ez; lia).
  pose proof (digits2_pos_bounds m') as Hbm. rewrite Hd' in Hbm.
  change (2 ^ (53 - 1)) with (2 ^ 52) in Hbm.
  destruct (rel_err (Zpos (a + b)) (Zpos m') U G HG HU ltac:(lia) Hv)
    as [R1 R2].
  assert (E1 : Zpos m' * 2 ^ (e' + 200) = Zpos m' * U * G).
  { unfold U, G. rewrite <- !Z.mul_assoc. f_equal.
    rewrite <- Z.pow_add_r by (unfold ez in *; lia). f_equal. lia. }
  assert (E2 : Zpos mx * 2 ^ (ex + 200) + Zpos my * 2 ^ (ey + 200) =
               Zpos (a + b) * G).
  { rewrite Hsum. unfold G. rewrite Z.mul_add_distr_r, <- !Z.mul_assoc.
    rewrite <- !Z.pow_add_r by (unfold ez; lia).
    f_equal; f_equal; f_equal; lia. }
  rewrite E1, E2. split; assumption.
Qed.

(** The cast to [int32] of a normal number is the integer part of its
    value. *)
Lemma f64_to_int32_value (x : float) (m : positive) (e : Z) :
  Prim2SF x = S754_finite false m e -> -200 <= e ->
  Zpos m * 2 ^ (e + 200) / 2 ^ 200 <= int32_max ->
  f64_to_int32 x = Zpos m * 2 ^ (e + 200) / 2 ^ 200.
Proof.
  intros Hx He Hle. unfold f64_to_int32, f64_trunc. rewrite Hx.
  assert (Hv : (if 0 <=? e then Zpos m * 2 ^ e else Zpos m / 2 ^ (- e)) =
               Zpos m * 2 ^ (e + 200) / 2 ^ 200).
  { destruct (Z.leb_spec 0 e) as [Hpos|Hneg].
    - rewrite Z.pow_add_r, Z.mul_assoc by lia.
      rewrite Z.div_mul by (apply Z.pow_nonzero; lia). reflexivity.
    - replace (2 ^ 200) with (2 ^ (- e) * 2 ^ (e + 200))
        by (rewrite <- Z.pow_add_r by lia; f_equal; lia).
      rewrite Z.div_mul_cancel_r; try (apply Z.pow_nonzero; lia).
      reflexivity. }
  rewrite Hv.
  set (v := Zpos m * 2 ^ (e + 200) / 2 ^ 200) in *.
  assert (0 <= v).
  { unfold v. apply Z.div_pos; [|apply Z.pow_pos_nonneg; lia].
    apply Z.mul_nonneg_nonneg; [lia | apply Z.pow_nonneg; lia]. }
  destruct (Z.leb_spec int32_min v) as [_|Hbad];
    [|unfold int32_min in Hbad; lia].
  destruct (Z.leb_spec v int32_max) as [_|Hbad]; [reflexivity | lia].
Qed.

Lemma f64_of_Z_0 : Prim2SF (f64_of_Z 0) = S754_zero false.
Proof. vm_compute. reflexivity. Qed.

(** Sums and differences of integers are the conversions of the exact
    results. *)
Lemma f64_aligned (z : Z) (m : positive) (e ez : Z) :
  Zpos m = z * 2 ^ (- e) -> ez <= e <= 0 ->
  Zpos (fst (shl_align m e ez)) = z * 2 ^ (- ez).
Proof.
  intros Hm He. rewrite shl_align_value by lia. rewrite Hm.
  rewrite <- Z.mul_assoc, <- Z.pow_add_r by lia. f_equal. f_equal. lia.
Qed.

Lemma f64_sub_exact (a b : Z) :
  0 <= b <= a -> a < 2 ^ 53 ->
  PrimFloat.sub (f64_of_Z a) (f64_of_Z b) = f64_of_Z (a - b).
Proof.
  intros Hb Ha. apply Prim2SF_inj. rewrite FloatAxioms.sub_spec.
  assert (H63 : 2 ^ 53 < 2 ^ 63) by reflexivity.
  destruct (Z.eq_dec b 0) as [->|Hb0].
  - rewrite Z.sub_0_r, f64_of_Z_0.
    destruct (Z.eq_dec a 0) as [->|Ha0]; [rewrite f64_of_Z_0; reflexivity|].
    destruct (f64_of_Z_normal a ltac:(lia)) as [m [e [-> _]]]. reflexivity.
  - destruct (f64_of_Z_normal a ltac:(lia)) as [ma [ea [-> [_ [Hea [Hma _]]]]]].
    destruct (f64_of_Z_normal b ltac:(lia)) as [mb [eb [-> [_ [Heb [Hmb _]]]]]].
    rewrite f64_of_Z_SF by lia.
    unfold SF64sub, SFsub. cbn [cond_Zopp].
    set (ez := Z.min ea eb).
    rewrite (f64_aligned a ma ea ez Hma) by (unfold ez; lia).
    rewrite (f64_aligned b mb eb ez Hmb) by (unfold ez; lia).
    rewrite <- Z.mul_sub_distr_r.
    rewrite <- (binary_normalize_shift prec emax (a - b) 0 (- ez))
      by (unfold ez; lia).
    f_equal. lia.
Qed.

Lemma f64_add_exact (a b : Z) :
  0 <= a < 2 ^ 53 -> 0 <= b < 2 ^ 53 ->
  PrimFloat.add (f64_of_Z a) (f64_of_Z b) = f64_of_Z (a + b).
Proof.
  intros Ha Hb. apply Prim2SF_inj. rewrite FloatAxioms.add_spec.
  assert (H63 : 2 ^ 53 + 2 ^ 53 < 2 ^ 63) by reflexivity.
  destruct (Z.eq_dec a 0) as [->|Ha0]; destruct (Z.eq_dec b 0) as [->|Hb0];
    rewrite ?f64_of_Z_0, ?Z.add_0_l, ?Z.add_0_r.
  - reflexivity.
  - destruct (f64_of_Z_normal b ltac:(lia)) as [m [e [-> _]]]. reflexivity.
  - destruct (f64_of_Z_normal a ltac:(lia)) as [m [e [-> _]]]. reflexivity.
  - destruct (f64_of_Z_normal a ltac:(lia)) as [ma [ea [-> [_ [Hea [Hma _]]]]]].
    destruct (f64_of_Z_normal b ltac:(lia)) as [mb [eb [-> [_ [Heb [Hmb _]]]]]].
    rewrite f64_of_Z_SF by lia.
    unfold SF64add, SFadd. cbn [cond_Zopp].
    set (ez := Z.min ea eb).
    rewrite (f64_aligned a ma ea ez Hma) by (unfold ez; lia).
    rewrite (f64_aligned b mb eb ez Hmb) by (unfold ez; lia).
    rewrite <- Z.mul_add_distr_r.
    rewrite <- (binary_normalize_shift prec emax (a + b) 0 (- ez))
      by (unfold ez; lia).
    f_equal. lia.
Qed.

(** Multiplying by [1.0] changes nothing. *)
Lemma f64_mul_one (i : Z) (x : float) :
  0 <= i < 2 ^ 53 ->
  Prim2SF x = S754_finite false 4503599627370496 (-52) ->
  PrimFloat.mul (f64_of_Z i) x = f64_of_Z i.
Proof.
  intros Hi Hx. apply Prim2SF_inj. rewrite FloatAxioms.mul_spec, Hx.
  destruct (Z.eq_dec i 0) as [->|Hi0]; [rewrite f64_of_Z_0; reflexivity|].
  destruct (f64_of_Z_normal i ltac:(lia)) as [m [e [-> [Hd [He _]]]]].
  unfold SF64mul, SFmul. cbn [xorb].
  assert (Hm : (m * 4503599627370496)%positive = Nat.iter 52 xO m).
  { apply Pos2Z.inj. rewrite iter_xO_mul, Pos2Z.inj_mul. reflexivity. }
  rewrite Hm.
  assert (Hb : bounded prec emax m e = true).
  { unfold bounded, canonical_mantissa, fexp, emin, prec, emax. rewrite Hd.
    apply andb_true_intro. split; [apply Z.eqb_eq | apply Z.leb_le]; lia. }
  rewrite <- (binary_round_canonical prec emax false m e Hb).
  rewrite <- (binary_round_shift prec emax false 52 m e).
  unfold binary_round at 1.
  assert (Hsh : shl_align (Nat.iter 52 xO m) (e - Z.of_nat 52)
                  (fexp prec emax
                     (Zpos (digits2_pos (Nat.iter 52 xO m)) +
                      (e - Z.of_nat 52))) =
                (Nat.iter 52 xO m, e - Z.of_nat 52)).
  { unfold shl_align. rewrite digits2_shift, Hd.
    destruct (fexp prec emax (53 + Z.of_nat 52 + (e - Z.of_nat 52)) -
              (e - Z.of_nat 52)) as [|p|p] eqn:Hsub; try reflexivity.
    unfold fexp, emin, prec, emax in Hsub. lia. }
  rewrite Hsh. reflexivity.
Qed.

(** The three rounding errors of a sample add up to less than [1 / D]. *)
Lemma scale_bound (c k x y b : Z) :
  0 <= k -> 0 <= y -> c * x <= y -> 0 <= c -> y * k <= b -> c * (k * x) <= b.
Proof.
  intros Hk Hy H Hc Hb.
  assert (k * (c * x) <= k * y) by (apply Z.mul_le_mono_nonneg_l; assumption).
  replace (c * (k * x)) with (k * (c * x)) by ring. lia.
Qed.

Lemma near_from_errors (M D dl a i Vs Vp Vy : Z) :
  0 < M -> 1 <= D <= dl -> 0 <= a -> D * (a + dl) < 2 ^ 48 ->
  0 <= i <= D ->
  0 <= Vs -> 0 <= Vp -> 0 <= Vy ->
  2 ^ 51 * (Vs * D - dl * M) <= Vs * D ->
  2 ^ 51 * (dl * M - Vs * D) <= Vs * D ->
  2 ^ 52 * (Vp - i * Vs) <= Vp ->
  2 ^ 52 * (i * Vs - Vp) <= Vp ->
  2 ^ 52 * (Vy - (Vp + a * M)) <= Vy ->
  2 ^ 52 * (Vp + a * M - Vy) <= Vy ->
  (D * a + i * dl) * M - M < D * Vy < (D * a + i * dl) * M + M.
Proof.
  intros HM HD Ha Hdom Hi HVs HVp HVy H1 H1' H2 H2' H3 H3'.
  change (2 ^ 48) with 281474976710656 in Hdom.
  change (2 ^ 51) with 2251799813685248 in *.
  change (2 ^ 52) with 4503599627370496 in *.
  assert (HdM : 0 <= dl * M) by (apply Z.mul_nonneg_nonneg; lia).
  assert (HaM : 0 <= a * M) by (apply Z.mul_nonneg_nonneg; lia).
  set (X := dl * M) in *. set (Y := a * M) in *.
  set (P := Vs * D) in *.
  (* the step *)
  assert (A1 : P <= 2 * X) by lia.
  assert (A2 : 1125899906842624 * (P - X) <= X) by lia.
  assert (A3 : 1125899906842624 * (X - P) <= X) by lia.
  (* the product *)
  set (Q := i * Vs) in *.
  assert (HQ : 0 <= Q) by (apply Z.mul_nonneg_nonneg; lia).
  assert (B0 : Q * D <= 2 * X * D).
  { replace (Q * D) with (i * P) by (unfold Q, P; ring).
    transitivity (D * P).
    - apply Z.mul_le_mono_nonneg_r; [unfold P; apply Z.mul_nonneg_nonneg |]; lia.
    - replace (2 * X * D) with (D * (2 * X)) by ring.
      apply Z.mul_le_mono_nonneg_l; lia. }
  assert (B0' : Q <= 2 * X).
  { apply Z.mul_le_mono_pos_r with D; lia. }
  assert (B1 : Vp <= 4 * X) by lia.
  assert (B2 : 1125899906842624 * (Vp - Q) <= X) by lia.
  assert (B3 : 1125899906842624 * (Q - Vp) <= X) by lia.
  (* the sum *)
  set (Z0 := X + Y).
  assert (C1 : Vy <= 8 * Z0) by (unfold Z0; lia).
  assert (C2 : 562949953421312 * (Vy - (Vp + Y)) <= Z0) by (unfold Z0; lia).
  assert (C3 : 562949953421312 * (Vp + Y - Vy) <= Z0) by (unfold Z0; lia).
  assert (HZ0 : 0 <= Z0) by (unfold Z0; lia).
  assert (HXZ : X <= Z0) by (unfold Z0; lia).
  assert (Hid : D * Vy - (D * a + i * dl) * M =
                D * (Vy - (Vp + Y)) + D * (Vp - Q) + i * (P - X))
    by (unfold Y, Q, P, X; ring).
  assert (HDEM : Z0 * D < 281474976710656 * M).
  { replace (Z0 * D) with (D * (a + dl) * M) by (unfold Z0, X, Y; ring).
    apply Z.mul_lt_mono_pos_r; lia. }
  set (B := Z0 * D) in *.
  assert (HZi : Z0 * i <= B)
    by (unfold B; apply Z.mul_le_mono_nonneg_l; lia).
  assert (HXD : X * D <= B)
    by (unfold B; apply Z.mul_le_mono_nonneg_r; lia).
  assert (HXi : X * i <= B).
  { transitivity (X * D); [apply Z.mul_le_mono_nonneg_l; lia | assumption]. }
  assert (T1 : 562949953421312 * (D * (Vy - (Vp + Y))) <= B)
    by (apply scale_bound with Z0; unfold B; lia).
  assert (T1' : 562949953421312 * (D * (Vp + Y - Vy)) <= B)
    by (apply scale_bound with Z0; unfold B; lia).
  assert (T2 : 1125899906842624 * (D * (Vp - Q)) <= B)
    by (apply scale_bound with X; lia).
  assert (T2' : 1125899906842624 * (D * (Q - Vp)) <= B)
    by (apply scale_bound with X; lia).
  assert (T3 : 1125899906842624 * (i * (P - X)) <= B)
    by (apply scale_bound with X; lia).
  assert (T3' : 1125899906842624 * (i * (X - P)) <= B)
    by (apply scale_bound with X; lia).
  lia.
Qed.

(* ===================================================================== *)
(** ** The samples of [np.linspace] *)
(* ===================================================================== *)

Lemma cancel_scale (c A B M : Z) :
  0 < M -> c * (A * M - B * M) <= A * M -> c * (A - B) <= A.
Proof.
  intros HM H. apply Z.mul_le_mono_pos_r with M; [assumption|].
  replace (c * (A - B) * M) with (c * (A * M - B * M)) by ring. assumption.
Qed.

(** The spacing is a normal number within [2^-51] of [(end - start) / D]. *)
Lemma linspace_step_value (start end_ D : Z) :
  0 <= start -> end_ <= int32_max -> 1 <= D <= end_ - start ->
  exists m e,
    Prim2SF (linspace_step start end_ (D + 1)) = S754_finite false m e /\
    Zpos (digits2_pos m) = 53 /\ -105 <= e <= 1 /\
    2 ^ 51 * (Zpos m * 2 ^ (e + 200) * D - (end_ - start) * 2 ^ 200) <=
    Zpos m * 2 ^ (e + 200) * D /\
    2 ^ 51 * ((end_ - start) * 2 ^ 200 - Zpos m * 2 ^ (e + 200) * D) <=
    Zpos m * 2 ^ (e + 200) * D.
Proof.
  intros Hs He HD. unfold linspace_step, int32_max in *.
  assert (H53 : 2 ^ 31 < 2 ^ 53) by reflexivity.
  replace (D + 1 - 1) with D by lia.
  rewrite f64_sub_exact by lia.
  rewrite FloatAxioms.div_spec.
  destruct (f64_of_Z_normal (end_ - start) ltac:(lia))
    as [mx [ex [-> [Hdx [Hex [_ Hvx]]]]]].
  destruct (f64_of_Z_normal D ltac:(lia))
    as [my [ey [-> [Hdy [Hey [_ Hvy]]]]]].
  destruct (SFdiv_value mx my ex ey Hdx Hdy ltac:(lia) ltac:(lia))
    as [m [e [Hr [Hd [Hre [H1 H2]]]]]].
  exists m, e. split; [exact Hr|]. split; [assumption|]. split; [lia|].
  rewrite Hvx, Hvy in H1, H2.
  assert (HM : 0 < 2 ^ 200) by reflexivity.
  set (M := 2 ^ 200) in *. set (V := Zpos m * 2 ^ (e + 200)) in *.
  split.
  - apply (cancel_scale _ (V * D) ((end_ - start) * M) M HM).
    replace (V * D * M) with (V * (D * M)) by ring. assumption.
  - assert (H2' : 2 ^ 51 * ((end_ - start) * M * M - V * D * M) <= V * D * M)
      by (replace (V * D * M) with (V * (D * M)) by ring; assumption).
    apply Z.mul_le_mono_pos_r with M; [assumption|].
    replace (2 ^ 51 * ((end_ - start) * M - V * D) * M)
      with (2 ^ 51 * ((end_ - start) * M * M - V * D * M)) by ring.
    assumption.
Qed.

Lemma linspace_step_nonzero (start end_ D : Z) :
  0 <= start -> end_ <= int32_max -> 1 <= D <= end_ - start ->
  PrimFloat.eqb (linspace_step start end_ (D + 1)) PrimFloat.zero = false.
Proof.
  intros Hs He HD.
  destruct (linspace_step_value start end_ D Hs He HD) as [m [e [Hr _]]].
  rewrite FloatAxioms.eqb_spec, Hr. reflexivity.
Qed.

(** With as many samples as frames the spacing is [1.0]. *)
Lemma linspace_step_one (start end_ D : Z) :
  0 <= start -> end_ <= int32_max -> 1 <= D -> D = end_ - start ->
  Prim2SF (linspace_step start end_ (D + 1)) =
  S754_finite false 4503599627370496 (-52).
Proof.
  intros Hs He HD Heq. unfold linspace_step, int32_max in *.
  assert (H53 : 2 ^ 31 < 2 ^ 53) by reflexivity.
  replace (D + 1 - 1) with D by lia.
  rewrite f64_sub_exact by lia. rewrite <- Heq.
  rewrite FloatAxioms.div_spec.
  destruct (f64_of_Z_normal D ltac:(lia)) as [m [e [-> _]]].
  apply SFdiv_self.
Qed.

(** The first sample is [start], whatever the spacing. *)
Lemma sample_at_0 (start : Z) (step : float) :
  0 <= start <= int32_max ->
  (Prim2SF step = S754_zero false \/
   exists m e, Prim2SF step = S754_finite false m e) ->
  sample_at start step 0 = start.
Proof.
  intros Hs Hstep. unfold sample_at.
  assert (Hm : Prim2SF (PrimFloat.mul (f64_of_Z 0) step) = S754_zero false).
  { rewrite FloatAxioms.mul_spec, f64_of_Z_0.
    destruct Hstep as [->|[m [e ->]]]; reflexivity. }
  assert (Ha : PrimFloat.add (PrimFloat.mul (f64_of_Z 0) step)
                 (f64_of_Z start) = f64_of_Z start).
  { apply Prim2SF_inj. rewrite FloatAxioms.add_spec, Hm.
    destruct (Z.eq_dec start 0) as [->|Hs0];
      [rewrite f64_of_Z_0; reflexivity|].
    assert (H53 : int32_max < 2 ^ 53) by reflexivity.
    destruct (f64_of_Z_normal start ltac:(lia)) as [m [e [-> _]]].
    reflexivity. }
  rewrite Ha. apply f64_to_int32_of_Z. lia.
Qed.

(** With spacing [1.0] sample [i] is [start + i]. *)
Lemma sample_at_exact (start i : Z) (step : float) :
  0 <= start -> 0 <= i -> start + i <= int32_max ->
  Prim2SF step = S754_finite false 4503599627370496 (-52) ->
  sample_at start step i = start + i.
Proof.
  intros Hs Hi Hle Hstep. unfold sample_at.
  assert (H53 : int32_max < 2 ^ 53) by reflexivity.
  rewrite (f64_mul_one i step) by (try assumption; lia).
  rewrite f64_add_exact by lia.
  rewrite f64_to_int32_of_Z by lia. lia.
Qed.

(** Sample [i] is within one of [start + i * (end - start) / D]. *)
Lemma sample_at_near (start end_ D i : Z) :
  0 <= start -> end_ <= int32_max -> 1 <= D <= end_ - start ->
  D * end_ < 2 ^ 48 ->
  1 <= i <= D ->
  D * (sample_at start (linspace_step start end_ (D + 1)) i - start) <=
  i * (end_ - start) <=
  D * (sample_at start (linspace_step start end_ (D + 1)) i - start + 1).
Proof.
  intros Hs He HD Hdom Hi.
  assert (H53 : int32_max < 2 ^ 53) by reflexivity.
  destruct (linspace_step_value start end_ D Hs He HD)
    as [ms [es [Hstep [Hds [Hes [S1 S2]]]]]].
  destruct (f64_of_Z_normal i ltac:(unfold int32_max in *; lia))
    as [mi [ei [Hi' [Hdi [Hei [_ Hvi]]]]]].
  destruct (SFmul_value mi ms ei es Hdi Hds ltac:(lia) ltac:(lia) ltac:(lia))
    as [mp [ep [Hp [Hdp [Hep [P1 P2]]]]]].
  assert (HM : 0 < 2 ^ 200) by reflexivity.
  set (M := 2 ^ 200) in *.
  set (Vs := Zpos ms * 2 ^ (es + 200)) in *.
  set (Vp := Zpos mp * 2 ^ (ep + 200)) in *.
  rewrite Hvi in P1, P2.
  assert (P1' : 2 ^ 52 * (Vp - i * Vs) <= Vp).
  { apply (cancel_scale _ Vp (i * Vs) M HM).
    replace (i * Vs * M) with (i * M * Vs) by ring. assumption. }
  assert (P2' : 2 ^ 52 * (i * Vs - Vp) <= Vp).
  { apply Z.mul_le_mono_pos_r with M; [assumption|].
    replace (2 ^ 52 * (i * Vs - Vp) * M)
      with (2 ^ 52 * (i * M * Vs - Vp * M)) by ring. assumption. }
  assert (Hprod : Prim2SF (PrimFloat.mul (f64_of_Z i)
                             (linspace_step start end_ (D + 1))) =
                  S754_finite false mp ep)
    by (rewrite FloatAxioms.mul_spec, Hi', Hstep; exact Hp).
  assert (Hsum : exists my ey,
    Prim2SF (PrimFloat.add
               (PrimFloat.mul (f64_of_Z i) (linspace_step start end_ (D + 1)))
               (f64_of_Z start)) = S754_finite false my ey /\
    -200 <= ey /\
    2 ^ 52 * (Zpos my * 2 ^ (ey + 200) - (Vp + start * M)) <=
    Zpos my * 2 ^ (ey + 200) /\
    2 ^ 52 * (Vp + start * M - Zpos my * 2 ^ (ey + 200)) <=
    Zpos my * 2 ^ (ey + 200)).
  { rewrite FloatAxioms.add_spec, Hprod.
    destruct (Z.eq_dec start 0) as [->|Hs0].
    - rewrite f64_of_Z_0. exists mp, ep. split; [reflexivity|].
      split; [lia|]. fold Vp.
      assert (0 <= Vp)
        by (unfold Vp; apply Z.mul_nonneg_nonneg;
            [lia | apply Z.pow_nonneg; lia]).
      change (2 ^ 52) with 4503599627370496. lia.
    - destruct (f64_of_Z_normal start ltac:(lia))
        as [ma [ea [-> [Hda [Hea [_ Hva]]]]]].
      destruct (SFadd_value mp ma ep ea Hdp Hda ltac:(lia) ltac:(lia))
        as [my [ey [Hy [Hdy [Hey [A1 A2]]]]]].
      exists my, ey. split; [exact Hy|]. split; [lia|].
      fold Vp in A1, A2. rewrite Hva in A1, A2. split; assumption. }
  destruct Hsum as [my [ey [Hy [Hey [A1 A2]]]]].
  set (Vy := Zpos my * 2 ^ (ey + 200)) in *.
  assert (HVs : 0 <= Vs)
    by (unfold Vs; apply Z.mul_nonneg_nonneg; [lia | apply Z.pow_nonneg; lia]).
  assert (HVp : 0 <= Vp)
    by (unfold Vp; apply Z.mul_nonneg_nonneg; [lia | apply Z.pow_nonneg; lia]).
  assert (HVy : 0 <= Vy)
    by (unfold Vy; apply Z.mul_nonneg_nonneg; [lia | apply Z.pow_nonneg; lia]).
  pose proof (near_from_errors M D (end_ - start) start i Vs Vp Vy
                HM HD Hs
                ltac:(replace (start + (end_ - start)) with end_ by lia;
                      assumption)
                ltac:(lia) HVs HVp HVy S1 S2 P1' P2' A1 A2) as [N1 N2].
  set (dl := end_ - start) in *.
  pose proof (Z.div_mod Vy M ltac:(lia)) as Hdm.
  pose proof (Z.mod_pos_bound Vy M HM) as Hmod.
  set (v := Vy / M) in *.
  assert (Hv1 : D * (v - start) <= i * dl).
  { assert (D * (M * v) <= D * Vy) by (apply Z.mul_le_mono_nonneg_l; lia).
    assert (D * (M * v) < (D * start + i * dl + 1) * M) by lia.
    assert ((D * v) * M < (D * start + i * dl + 1) * M)
      by (replace (D * v * M) with (D * (M * v)) by ring; assumption).
    assert (D * v < D * start + i * dl + 1)
      by (apply Z.mul_lt_mono_pos_r with M; assumption).
    lia. }
  assert (Hv2 : i * dl <= D * (v - start + 1)).
  { assert (D * Vy <= D * (M * (v + 1)))
      by (apply Z.mul_le_mono_nonneg_l; lia).
    assert ((D * start + i * dl - 1) * M < D * (M * (v + 1))) by lia.
    assert ((D * start + i * dl - 1) * M < (D * (v + 1)) * M)
      by (replace (D * (v + 1) * M) with (D * (M * (v + 1))) by ring;
          assumption).
    assert (D * start + i * dl - 1 < D * (v + 1))
      by (apply Z.mul_lt_mono_pos_r with M; assumption).
    lia. }
  assert (Hvle : v <= int32_max).
  { assert (i * dl <= D * dl) by (apply Z.mul_le_mono_nonneg_r; lia).
    assert (D * (v - start) <= D * dl) by lia.
    assert (v - start <= dl) by (apply Z.mul_le_mono_pos_l with D; lia).
    unfold dl in *. lia. }
  unfold sample_at.
  rewrite (f64_to_int32_value _ my ey Hy Hey Hvle).
  fold Vy M v. split; assumption.
Qed.

Lemma arange_snoc (a b : Z) : a <= b -> arange a (b + 1) = arange a b ++ [b].
Proof.
  intros H. unfold arange.
  replace (Z.to_nat (b + 1 - a)) with (S (Z.to_nat (b - a))) by lia.
  rewrite seq_S, map_app. cbn [map]. f_equal. f_equal. lia.
Qed.

Lemma set_last_snoc {A : Type} (l : list A) (x v : A) :
  set_last (l ++ [x]) v = l ++ [v].
Proof.
  induction l as [|a l IH]; [reflexivity|].
  cbn [app set_last]. rewrite IH.
  destruct (l ++ [x]) eqn:E; [destruct l; discriminate | reflexivity].
Qed.

(** At least two samples of at least as many frames: every element of
    [np.linspace] but the last is [int(i * step + start)], and the last is
    [end]. *)
Lemma get_samples_long (start end_ D : Z) :
  0 <= start -> end_ <= int32_max -> 1 <= D <= end_ - start ->
  get_samples start end_ (D + 1) =
  Ok (map (sample_at start (linspace_step start end_ (D + 1))) (arange 0 D)
      ++ [end_]).
Proof.
  intros Hs He HD. unfold get_samples.
  destruct (Z.ltb_spec (end_ - start + 1) (D + 1)) as [|_]; [lia|].
  unfold linspace.
  destruct (Z.ltb_spec (D + 1) 0) as [|_]; [lia|].
  destruct (Z.ltb_spec 0 (D + 1 - 1)) as [_|]; [|lia].
  destruct (Z.ltb_spec 1 (D + 1)) as [_|]; [|lia].
  change (PrimFloat.div (PrimFloat.sub (f64_of_Z end_) (f64_of_Z start))
            (f64_of_Z (D + 1 - 1)))
    with (linspace_step start end_ (D + 1)).
  rewrite (linspace_step_nonzero start end_ D Hs He HD).
  cbn [bind]. f_equal.
  rewrite (arange_snoc 0 D) by lia.
  rewrite !map_app. cbn [map]. rewrite set_last_snoc, map_app. cbn [map].
  rewrite !map_map. f_equal. f_equal.
  apply f64_to_int32_of_Z. lia.
Qed.

(** One sample of a range that is not empty: [start]. *)
Lemma get_samples_one (start end_ : Z) :
  0 <= start <= end_ -> end_ <= int32_max ->
  get_samples start end_ 1 = Ok [start].
Proof.
  intros Hs He. unfold get_samples.
  destruct (Z.ltb_spec (end_ - start + 1) 1) as [|_]; [lia|].
  unfold linspace.
  change (1 <? 0) with false. change (0 <? 1 - 1) with false.
  change (1 <? 1) with false. change (arange 0 1) with [0].
  cbn [bind map]. f_equal. f_equal.
  assert (H53 : int32_max < 2 ^ 53) by reflexivity.
  rewrite f64_sub_exact by lia.
  apply (sample_at_0 start (f64_of_Z (end_ - start))); [lia|].
  destruct (Z.eq_dec (end_ - start) 0) as [->|Hne].
  - left. apply f64_of_Z_0.
  - right. destruct (f64_of_Z_normal (end_ - start) ltac:(lia))
      as [m [e [-> _]]]. eauto.
Qed.

Lemma seq_map_increasing' (H : nat -> Z) (n : nat) :
  forall s,
    (forall k, (s <= k)%nat -> (S k < s + n)%nat -> H k < H (S k)) ->
    increasing (map H (seq s n)).
Proof.
  induction n as [|n IH]; intros s Hk; [exact I|].
  destruct n as [|n]; [exact I|].
  cbn [seq map increasing]. split; [apply Hk; lia|].
  apply (IH (S s)). intros k H1 H2. apply Hk; lia.
Qed.

Lemma increasing_snoc (l : list Z) (v : Z) :
  increasing l -> (forall x, In x l -> x < v) -> increasing (l ++ [v]).
Proof.
  induction l as [|a [|b t] IH]; intros Hl Hv.
  - exact I.
  - cbn. split; [apply Hv; left; reflexivity | exact I].
  - destruct Hl as [Hab Ht]. split; [assumption|].
    apply IH; [assumption|]. intros x Hx. apply Hv. right. assumption.
Qed.

(** Samples that stay below [end] and increase from one index to the next
    make a list that meets the specification. *)
Lemma samples_spec_of_pointwise (start end_ D : Z) (G : Z -> Z) :
  0 <= start -> 1 <= D <= end_ - start ->
  G 0 = start ->
  (forall i, 0 <= i < D -> start <= G i <= end_ - 1) ->
  (forall i, 0 <= i -> i + 1 < D -> G i < G (i + 1)) ->
  samples_spec start end_ (D + 1) (map G (arange 0 D) ++ [end_]).
Proof.
  intros Hs HD H0 Hrange Hinc. unfold samples_spec.
  split; [|split; [|split; [|split]]].
  - rewrite length_app, length_map, arange_length. cbn [length]. lia.
  - intros x Hx. apply in_app_or in Hx. destruct Hx as [Hx|[<-|[]]]; [|lia].
    apply in_map_iff in Hx. destruct Hx as [i [<- Hi]].
    apply arange_In in Hi. specialize (Hrange i Hi). lia.
  - apply increasing_snoc.
    + unfold arange. rewrite map_map. apply seq_map_increasing'.
      intros k H1 H2.
      replace (0 + Z.of_nat (S k)) with (0 + Z.of_nat k + 1) by lia.
      apply Hinc; lia.
    + intros x Hx. apply in_map_iff in Hx. destruct Hx as [i [<- Hi]].
      apply arange_In in Hi. specialize (Hrange i Hi). lia.
  - pose proof (arange_hd 0 D ltac:(lia)) as Hhd.
    destruct (arange 0 D) as [|x l]; [discriminate|].
    injection Hhd as ->. cbn. f_equal. assumption.
  - intros _. apply last_last.
Qed.

(** The samples, index by index. *)
Lemma samples_pointwise (start end_ D : Z) :
  0 <= start -> end_ <= int32_max -> 1 <= D <= end_ - start ->
  D = end_ - start \/ D * end_ < 2 ^ 48 ->
  (forall i, 0 <= i < D ->
     start <= sample_at start (linspace_step start end_ (D + 1)) i
           <= end_ - 1) /\
  (forall i, 0 <= i -> i + 1 < D ->
     sample_at start (linspace_step start end_ (D + 1)) i <
     sample_at start (linspace_step start end_ (D + 1)) (i + 1)).
Proof.
  intros Hs He HD Hdom.
  set (G := sample_at start (linspace_step start end_ (D + 1))).
  destruct (Z.eq_dec D (end_ - start)) as [Heq|Hne].
  - pose proof (linspace_step_one start end_ D Hs He ltac:(lia) Heq) as H1.
    assert (HG : forall i, 0 <= i < D -> G i = start + i).
    { intros i Hi. apply sample_at_exact; try assumption; lia. }
    split.
    + intros i Hi. rewrite HG by lia. lia.
    + intros i H0 Hi. rewrite !HG by lia. lia.
  - assert (Hd : D * end_ < 2 ^ 48) by (destruct Hdom; [contradiction | assumption]).
    assert (H0 : G 0 = start).
    { apply sample_at_0; [lia|]. right.
      destruct (linspace_step_value start end_ D Hs He HD)
        as [m [e [Hr _]]]. eauto. }
    assert (Hnear : forall i, 1 <= i <= D ->
              D * (G i - start) <= i * (end_ - start) <=
              D * (G i - start + 1))
      by (intros i Hi; apply sample_at_near; assumption).
    set (dl := end_ - start) in *.
    assert (Hlow : forall i, 1 <= i < D -> start + 1 <= G i <= end_ - 1).
    { intros i Hi. destruct (Hnear i ltac:(lia)) as [N1 N2].
      assert (dl <= i * dl) by nia.
      assert (i * dl <= (D - 1) * dl) by (apply Z.mul_le_mono_nonneg_r; lia).
      split.
      - assert (D * 1 < D * (G i - start + 1)) by lia.
        assert (1 < G i - start + 1)
          by (apply Z.mul_lt_mono_pos_l with D; lia).
        lia.
      - assert (D * (G i - start) < D * (dl - 1)) by lia.
        assert (G i - start < dl - 1)
          by (apply Z.mul_lt_mono_pos_l with D; lia).
        unfold dl in *. lia. }
    split.
    + intros i Hi. destruct (Z.eq_dec i 0) as [->|Hi0]; [rewrite H0; lia|].
      specialize (Hlow i ltac:(lia)). lia.
    + intros i Hi0 Hi.
      destruct (Z.eq_dec i 0) as [->|Hi1].
      * rewrite H0. specialize (Hlow 1 ltac:(lia)). cbn. lia.
      * destruct (Hnear i ltac:(lia)) as [N1 _].
        destruct (Hnear (i + 1) ltac:(lia)) as [_ N2].
        assert (D * (G i - start + 1) < D * (G (i + 1) - start + 1)) by lia.
        assert (G i - start + 1 < G (i + 1) - start + 1)
          by (apply Z.mul_lt_mono_pos_l with D; lia).
        lia.
Qed.

(** C3 (as amended): for [0 <= start <= end <= 2^31 - 1] and [T >= 1] the
    sampler returns [min(T, N)] indices, [N = end - start + 1]; the first one
    is [start]; the last one is [end] when [T >= 2], and with [T = 1] the
    only index is [start]. When [N <= T] or [(T - 1) * end < 2^48] the
    indices are all within [[start, end]] and strictly increasing. *)
Theorem get_samples_spec (start end_ T : Z) :
  0 <= start <= end_ -> end_ <= int32_max -> 1 <= T ->
  exists idxs,
    get_samples start end_ T = Ok idxs /\
    Z.of_nat (length idxs) = Z.min T (end_ - start + 1) /\
    hd_error idxs = Some start /\
    (2 <= T -> last idxs start = end_) /\
    (T = 1 -> idxs = [start]) /\
    (end_ - start + 1 <= T \/ (T - 1) * end_ < 2 ^ 48 ->
     (forall i, In i idxs -> start <= i <= end_) /\ increasing idxs).
Proof.
  intros Hse He HT.
  destruct (Z.ltb_spec (end_ - start + 1) T) as [Hshort|Hlong].
  - exists (arange start (end_ + 1)).
    split; [apply get_samples_short; assumption|].
    split; [rewrite arange_length; lia|].
    split; [apply arange_hd; lia|].
    split; [intros _; rewrite arange_last by lia; lia|].
    split; [lia|].
    intros _. split; [|apply arange_increasing].
    intros i Hi. apply arange_In in Hi. lia.
  - destruct (Z.eq_dec T 1) as [->|HT1].
    + exists [start]. split; [apply get_samples_one; assumption|].
      split; [cbn [length]; lia|]. split; [reflexivity|].
      split; [lia|]. split; [reflexivity|].
      intros _. split; [|exact I].
      intros i [<-|[]]. lia.
    + set (D := T - 1). replace T with (D + 1) in * by (unfold D; lia).
      replace (D + 1 - 1) with D by lia.
      assert (HD : 1 <= D <= end_ - start) by lia.
      assert (Hs : 0 <= start) by lia.
      set (G := sample_at start (linspace_step start end_ (D + 1))).
      assert (H0 : G 0 = start).
      { apply sample_at_0; [lia|]. right.
        destruct (linspace_step_value start end_ D Hs He HD)
          as [m [e [Hr _]]]. eauto. }
      exists (map G (arange 0 D) ++ [end_]).
      split; [apply get_samples_long; assumption|].
      split; [rewrite length_app, length_map, arange_length; cbn [length];
              lia|].
      split.
      { pose proof (arange_hd 0 D ltac:(lia)) as Hhd.
        destruct (arange 0 D) as [|x l]; [discriminate|].
        injection Hhd as ->. cbn. f_equal. assumption. }
      split; [intros _; apply last_last|].
      split; [lia|].
      intros Hdom.
      destruct (samples_pointwise start end_ D Hs He HD)
        as [Hrange Hinc]; [destruct Hdom; [left|right]; lia|].
      destruct (samples_spec_of_pointwise start end_ D G Hs HD H0 Hrange Hinc)
        as [_ [Hin [Hincr _]]].
      split; assumption.
Qed.

Lemma nth_error_arange (D c : Z) :
  0 <= c < D -> nth_error (arange 0 D) (Z.to_nat c) = Some c.
Proof.
  intros Hc. unfold arange. rewrite nth_error_map, nth_error_seq.
  destruct (Nat.ltb_spec (Z.to_nat c) (Z.to_nat (D - 0))) as [_|Hbad];
    [|lia].
  cbn [option_map]. f_equal. lia.
Qed.

Lemma nth_error_samples (G : Z -> Z) (D c v : Z) :
  0 <= c < D ->
  nth_error (map G (arange 0 D) ++ [v]) (Z.to_nat c) = Some (G c).
Proof.
  intros Hc. rewrite nth_error_app1
    by (rewrite length_map, arange_length; lia).
  rewrite nth_error_map, nth_error_arange by assumption. reflexivity.
Qed.

Lemma increasing_nth (l : list Z) :
  increasing l ->
  forall k x y, nth_error l k = Some x -> nth_error l (S k) = Some y -> x < y.
Proof.
  induction l as [|a [|b t] IH]; intros Hl k x y Hx Hy.
  - destruct k; discriminate.
  - destruct k as [|[|k]]; discriminate.
  - destruct Hl as [Hab Ht]. destruct k as [|k].
    + cbn in Hx, Hy. injection Hx as <-. injection Hy as <-. assumption.
    + apply (IH Ht k x y); assumption.
Qed.

(* ===================================================================== *)
(** ** Lists and arrays *)
(* ===================================================================== *)

Lemma mapM_ok {A B : Type} (f : A -> result B) (g : A -> B) (l : list A) :
  (forall a, In a l -> f a = Ok (g a)) -> mapM f l = Ok (map g l).
Proof.
  induction l as [|a l IH]; intros H; simpl; [reflexivity|].
  rewrite (H a (or_introl eq_refl)). simpl.
  rewrite IH by (intros b Hb; apply H; right; assumption).
  reflexivity.
Qed.

Lemma mapM_nth {A B : Type} (f : A -> result B) (l : list A) :
  forall bs, mapM f l = Ok bs ->
    length bs = length l /\
    forall i a, nth_error l i = Some a ->
      exists b, nth_error bs i = Some b /\ f a = Ok b.
Proof.
  induction l as [|a l IH]; simpl; intros bs H.
  - injection H as <-. split; [reflexivity|].
    intros [|i] x Hx; discriminate.
  - apply bind_Ok in H. destruct H as [b [Hb H]].
    apply bind_Ok in H. destruct H as [bs' [Hbs H]].
    injection H as <-. destruct (IH bs' Hbs) as [Hlen Hnth].
    split; [simpl; congruence|].
    intros [|i] x Hx; simpl in *.
    + injection Hx as <-. eauto.
    + apply Hnth. assumption.
Qed.

Lemma slice_length {A : Type} (l : list A) (off len : Z) :
  0 <= off -> 0 <= len -> off + len <= Z.of_nat (length l) ->
  length (slice l off len) = Z.to_nat len.
Proof.
  intros H1 H2 H3. unfold slice.
  rewrite length_firstn, length_skipn. lia.
Qed.

Lemma slice_nth {A : Type} (l : list A) (off len : Z) (k : nat) (d : A) :
  0 <= off -> (k < Z.to_nat len)%nat ->
  nth k (slice l off len) d = nth (Z.to_nat off + k) l d.
Proof.
  intros H1 H2. unfold slice.
  rewrite nth_firstn.
  destruct (Nat.ltb_spec k (Z.to_nat len)); [|lia].
  apply nth_skipn.
Qed.

Lemma slice_incl {A : Type} (l : list A) (off len : Z) (x : A) :
  In x (slice l off len) -> In x l.
Proof.
  unfold slice. intros H.
  rewrite <- (firstn_skipn (Z.to_nat off) l). apply in_or_app. right.
  rewrite <- (firstn_skipn (Z.to_nat len) (skipn (Z.to_nat off) l)).
  apply in_or_app. left. assumption.
Qed.

Lemma imap_length {A B : Type} (f : nat -> A -> B) (l : list A) :
  length (imap f l) = length l.
Proof.
  unfold imap. rewrite length_map, length_combine, length_seq. lia.
Qed.

Lemma imap_nth {A B : Type} (f : nat -> A -> B) (l : list A) (p : nat)
    (da : A) (db : B) :
  (p < length l)%nat -> nth p (imap f l) db = f p (nth p l da).
Proof.
  intros Hp. unfold imap.
  rewrite (nth_indep _ db (f (fst (0%nat, da)) (snd (0%nat, da))))
    by (rewrite length_map, length_combine, length_seq; lia).
  rewrite (map_nth (fun q => f (fst q) (snd q))).
  rewrite combine_nth by (rewrite length_seq; reflexivity).
  rewrite seq_nth by assumption. reflexivity.
Qed.

Lemma nth_ext_eq {A : Type} (l l' : list A) (d : A) :
  length l = length l' ->
  (forall p, (p < length l)%nat -> nth p l d = nth p l' d) ->
  l = l'.
Proof.
  intros Hlen H. apply (nth_ext l l' d d); assumption.
Qed.

(* ===================================================================== *)
(** ** Lists related position by position *)
(* ===================================================================== *)

Section Pointwise.
Context {A B : Type}.
Variable P : nat -> A -> B -> Prop.

Lemma pointwise_length (l : list A) :
  forall k l', pointwise_from P k l l' -> length l = length l'.
Proof.
  induction l as [|a l IH]; intros k [|b l'] H; simpl in *;
    try contradiction; [reflexivity|].
  f_equal. apply (IH (S k)). apply H.
Qed.

Lemma pointwise_nth (l : list A) (da : A) (db : B) :
  forall k l' p, pointwise_from P k l l' -> (p < length l)%nat ->
    P (k + p)%nat (nth p l da) (nth p l' db).
Proof.
  induction l as [|a l IH]; intros k [|b l'] p H Hp; simpl in *;
    try contradiction; try lia.
  destruct H as [Hab Ht]. destruct p as [|p].
  - rewrite Nat.add_0_r. assumption.
  - replace (k + S p)%nat with (S k + p)%nat by lia.
    apply IH; [assumption | lia].
Qed.

Lemma pointwise_skipn (n : nat) :
  forall k l l', pointwise_from P k l l' ->
    pointwise_from P (k + n) (skipn n l) (skipn n l').
Proof.
  induction n as [|n IH]; intros k l l' H.
  - rewrite Nat.add_0_r. assumption.
  - destruct l as [|a l], l' as [|b l']; simpl in *; try contradiction;
      [exact I|].
    replace (k + S n)%nat with (S k + n)%nat by lia.
    apply IH. apply H.
Qed.

Lemma pointwise_firstn (n : nat) :
  forall k l l', pointwise_from P k l l' ->
    pointwise_from P k (firstn n l) (firstn n l').
Proof.
  induction n as [|n IH]; intros k l l' H; [exact I|].
  destruct l as [|a l], l' as [|b l']; simpl in *; try contradiction;
    [exact I|].
  destruct H as [Hab Ht]. split; [assumption|]. apply IH. assumption.
Qed.

Lemma pointwise_app (l1 : list A) :
  forall k l1' l2 l2',
    pointwise_from P k l1 l1' ->
    pointwise_from P (k + length l1) l2 l2' ->
    pointwise_from P k (l1 ++ l2) (l1' ++ l2').
Proof.
  induction l1 as [|a l1 IH]; intros k [|b l1'] l2 l2' H1 H2; simpl in *;
    try contradiction.
  - rewrite Nat.add_0_r in H2. assumption.
  - destruct H1 as [Hab Ht]. split; [assumption|].
    apply IH; [assumption|].
    replace (S k + length l1)%nat with (k + S (length l1))%nat by lia.
    assumption.
Qed.

(** A relation that only looks at the position modulo [d] can be started
    from any position of the same residue. *)
Lemma pointwise_periodic (d : nat) :
  (forall p q x y, (p mod d = q mod d)%nat -> P p x y -> P q x y) ->
  forall l k k' l', (k mod d = k' mod d)%nat ->
    pointwise_from P k l l' -> pointwise_from P k' l l'.
Proof.
  intros Hper. induction l as [|a l IH]; intros k k' [|b l'] Hk H;
    simpl in *; try contradiction; [exact I|].
  destruct H as [Hab Ht]. split; [apply (Hper k); assumption|].
  apply (IH (S k)); [|assumption].
  rewrite <- (Nat.add_1_r k), <- (Nat.add_1_r k').
  rewrite (Nat.Div0.add_mod k 1), (Nat.Div0.add_mod k' 1), Hk. reflexivity.
Qed.
End Pointwise.

Lemma size_of_cons (n : Z) (sh : list Z) : size_of (n :: sh) = n * size_of sh.
Proof. reflexivity. Qed.

Lemma take_rows_ok {A : Type} (a : ndarray A) (R : Z) (rest : list Z)
    (idxs : list Z) :
  shape a = R :: rest ->
  Forall (valid_idx R) idxs ->
  take_rows a idxs =
  Ok (mk_ndarray (Z.of_nat (length idxs) :: rest)
        (gathered_rows R (size_of rest) (data a) idxs)).
Proof.
  intros Hsh Hidx. unfold take_rows, gathered_rows. rewrite Hsh.
  rewrite (mapM_ok _ (fun i =>
    slice (data a) (wrap_index R i * size_of rest)
      (size_of rest))).
  - reflexivity.
  - intros i Hi. rewrite Forall_forall in Hidx. specialize (Hidx i Hi).
    unfold valid_idx in Hidx. unfold wrap_index.
    destruct (i <? 0) eqn:Hneg.
    + apply Z.ltb_lt in Hneg.
      destruct (Z.leb_spec 0 (i + R)); [|lia].
      destruct (Z.ltb_spec (i + R) R); [|lia]. reflexivity.
    + apply Z.ltb_ge in Hneg.
      destruct (Z.leb_spec 0 i); [|lia].
      destruct (Z.ltb_spec i R); [|lia]. reflexivity.
Qed.

Lemma reshape_infer_ok {A : Type} (a : ndarray A) (known : list Z) (q : Z) :
  0 < size_of known ->
  size_of (shape a) = size_of known * q ->
  reshape_infer a known = Ok (mk_ndarray (known ++ [q]) (data a)).
Proof.
  intros Hk Hsz. unfold reshape_infer. rewrite Hsz.
  destruct (Z.leb_spec (size_of known) 0); [lia|].
  rewrite Z.mul_comm, Z.mod_mul, Z.div_mul by lia. reflexivity.
Qed.

Lemma concat_map_length {A B : Type} (g : A -> list B) (c : nat) (l : list A) :
  (forall a, In a l -> length (g a) = c) ->
  length (concat (map g l)) = (length l * c)%nat.
Proof.
  induction l as [|a l IH]; intros H; simpl; [reflexivity|].
  rewrite length_app, (H a (or_introl eq_refl)), IH; [reflexivity|].
  intros b Hb. apply H. right. assumption.
Qed.

Section Gathered.
Variables R d : Z.
Variable idxs : list Z.
Hypothesis Hd : 1 <= d.
Hypothesis Hidx : Forall (valid_idx R) idxs.

Let C := 22 * d.

Lemma row_offset (i : Z) :
  In i idxs ->
  0 <= wrap_index R i * C /\
  wrap_index R i * C + C <= R * C.
Proof.
  intros Hi. rewrite Forall_forall in Hidx. specialize (Hidx i Hi).
  unfold valid_idx in Hidx. unfold C, wrap_index.
  destruct (i <? 0) eqn:Hneg;
    [apply Z.ltb_lt in Hneg | apply Z.ltb_ge in Hneg]; nia.
Qed.

Lemma gathered_length {A : Type} (F : list A) :
  Z.of_nat (length F) = R * C ->
  length (gathered_rows R C F idxs) = (length idxs * Z.to_nat C)%nat.
Proof.
  intros HF. unfold gathered_rows. apply concat_map_length.
  intros i Hi. destruct (row_offset i Hi) as [H1 H2].
  apply slice_length; unfold C in *; lia.
Qed.

Lemma gathered_incl {A : Type} (F : list A) (x : A) :
  In x (gathered_rows R C F idxs) -> In x F.
Proof.
  unfold gathered_rows. intros H. apply in_concat in H.
  destruct H as [row [Hrow Hx]]. apply in_map_iff in Hrow.
  destruct Hrow as [i [<- _]]. apply slice_incl in Hx. assumption.
Qed.

Lemma offset_multiple (i : Z) :
  In i idxs ->
  (Z.to_nat (wrap_index R i * C) mod Z.to_nat d = 0)%nat.
Proof.
  intros Hi. destruct (row_offset i Hi) as [H1 _].
  set (j := wrap_index R i) in *.
  assert (Hj : 0 <= j) by (unfold C in H1; nia).
  replace (j * C) with ((j * 22) * d) by (unfold C; ring).
  rewrite Z2Nat.inj_mul by lia.
  apply Nat.Div0.mod_mul.
Qed.

Lemma moved_by_periodic (c : list Z) (p q : nat) (x y : f32) :
  (p mod Z.to_nat d = q mod Z.to_nat d)%nat ->
  moved_by (Z.to_nat d) c p x y -> moved_by (Z.to_nat d) c q x y.
Proof. unfold moved_by. intros ->. auto. Qed.

Lemma gathered_pointwise_incl (c : list Z) (F F' : list f32) (l : list Z) :
  Z.of_nat (length F) = R * C ->
  pointwise_from (moved_by (Z.to_nat d) c) 0 F F' ->
  incl l idxs ->
  pointwise_from (moved_by (Z.to_nat d) c) 0
    (gathered_rows R C F l) (gathered_rows R C F' l).
Proof.
  intros HF Hpw. unfold gathered_rows.
  induction l as [|i l IH]; intros Hall; simpl; [exact I|].
  assert (Hi : In i idxs) by (apply Hall; left; reflexivity).
  destruct (row_offset i Hi) as [H1 H2].
  apply pointwise_app.
  - apply (pointwise_periodic _ (Z.to_nat d) (moved_by_periodic c) _
             (0 + Z.to_nat (wrap_index R i * C))%nat).
    + rewrite Nat.add_0_l, offset_multiple by assumption.
      symmetry. apply Nat.Div0.mod_0_l.
    + unfold slice. apply pointwise_firstn. apply pointwise_skipn.
      assumption.
  - apply (pointwise_periodic _ (Z.to_nat d) (moved_by_periodic c) _ 0%nat).
    + rewrite Nat.add_0_l, slice_length by lia.
      unfold C. rewrite Z2Nat.inj_mul by lia.
      rewrite Nat.Div0.mod_mul. apply Nat.Div0.mod_0_l.
    + apply IH. intros j Hj. apply Hall. right. assumption.
Qed.

Lemma gathered_pointwise (c : list Z) (F F' : list f32) :
  Z.of_nat (length F) = R * C ->
  pointwise_from (moved_by (Z.to_nat d) c) 0 F F' ->
  pointwise_from (moved_by (Z.to_nat d) c) 0
    (gathered_rows R C F idxs) (gathered_rows R C F' idxs).
Proof.
  intros HF Hpw. apply gathered_pointwise_incl; auto. apply incl_refl.
Qed.
End Gathered.

(* ===================================================================== *)
(** ** load_joints *)
(* ===================================================================== *)

Lemma nth_In_Forall {A : Type} (P : A -> Prop) (l : list A) (p : nat) (d : A) :
  Forall P l -> (p < length l)%nat -> P (nth p l d).
Proof.
  intros H Hp. rewrite Forall_forall in H. apply H. apply nth_In. assumption.
Qed.

Section Recentred.
Variable d : Z.
Variable J : list f32.
Hypothesis Hd : 1 <= d.
Hypothesis Hlen : 2 * d <= Z.of_nat (length J).
Hypothesis Hok : Forall f32_ok J.

Lemma reference_length : length (slice J d d) = Z.to_nat d.
Proof. apply slice_length; lia. Qed.

Lemma reference_nth (q : nat) (dflt : f32) :
  (q < Z.to_nat d)%nat ->
  nth q (slice J d d) dflt = nth (Z.to_nat d + q) J dflt.
Proof. intros Hq. apply slice_nth; lia. Qed.

Lemma recentred_nth (p : nat) :
  (p < length J)%nat ->
  nth p (recentred d J) f32_zero =
  f32_round (f32_value (nth p J f32_zero) -
             f32_value (nth (Z.to_nat d + p mod Z.to_nat d) J f32_zero)).
Proof.
  intros Hp. unfold recentred.
  rewrite (imap_nth _ J p f32_zero f32_zero Hp).
  rewrite reference_length.
  assert (Hq : (p mod Z.to_nat d < Z.to_nat d)%nat)
    by (apply Nat.mod_upper_bound; lia).
  rewrite reference_nth by assumption.
  apply f32_sub_exact; apply nth_In_Forall; try assumption; lia.
Qed.

Lemma recentred_reference (k : Z) :
  0 <= k < d ->
  nth (Z.to_nat (d + k)) (recentred d J) f32_zero = f32_zero.
Proof.
  intros Hk. rewrite recentred_nth by lia.
  replace (Z.to_nat (d + k)) with (Z.to_nat k + 1 * Z.to_nat d)%nat by lia.
  rewrite Nat.Div0.mod_add, Nat.mod_small by lia.
  replace (Z.to_nat d + Z.to_nat k)%nat
    with (Z.to_nat k + 1 * Z.to_nat d)%nat by lia.
  rewrite Z.sub_diag. reflexivity.
Qed.

Lemma recentred_exact_offset (c : list Z) (J' : list f32) :
  Forall f32_ok J' ->
  pointwise_from (moved_by (Z.to_nat d) c) 0 J J' ->
  recentred d J' = recentred d J.
Proof.
  intros Hok' Hpw.
  pose proof (pointwise_length _ _ _ _ Hpw) as HlenJ.
  apply (nth_ext_eq _ _ f32_zero).
  - unfold recentred. rewrite !imap_length. congruence.
  - intros p Hp. unfold recentred in Hp. rewrite imap_length in Hp.
    rewrite recentred_nth by lia.
    unfold recentred.
    rewrite (imap_nth _ J' p f32_zero f32_zero Hp).
    rewrite slice_length by lia.
    assert (Hq : (p mod Z.to_nat d < Z.to_nat d)%nat)
      by (apply Nat.mod_upper_bound; lia).
    rewrite slice_nth by lia.
    rewrite f32_sub_exact by (apply nth_In_Forall; try assumption; lia).
    f_equal.
    pose proof (pointwise_nth _ J f32_zero f32_zero 0%nat J' p Hpw
                  ltac:(lia)) as H1.
    pose proof (pointwise_nth _ J f32_zero f32_zero 0%nat J'
                  (Z.to_nat d + p mod Z.to_nat d)%nat Hpw ltac:(lia)) as H2.
    unfold moved_by in H1, H2. rewrite !Nat.add_0_l in *.
    replace ((Z.to_nat d + p mod Z.to_nat d) mod Z.to_nat d)%nat
      with (p mod Z.to_nat d)%nat in H2.
    + lia.
    + replace (Z.to_nat d + p mod Z.to_nat d)%nat
        with (p mod Z.to_nat d + 1 * Z.to_nat d)%nat by lia.
      rewrite Nat.Div0.mod_add, Nat.Div0.mod_mod. reflexivity.
Qed.
End Recentred.

Section JointLoader.
Variables gvar_params aug_spec : Type.

Lemma load_joints_closed (E : externals gvar_params aug_spec) (path : string) (idxs : list Z) (T : Z)
    (file : ndarray f32) (R d : Z) :
  np_loadtxt E path = Ok file ->
  joint_file R d file ->
  idxs <> [] ->
  Forall (valid_idx R) idxs ->
  load_joints E path idxs T =
  Ok (mk_ndarray [Z.of_nat (length idxs); 22 * d]
        (recentred d (gathered_rows R (22 * d) (data file) idxs))).
Proof.
  intros Hload [Hsh [Hlen [Hd Hok]]] Hne Hidx.
  assert (Hn : 0 < Z.of_nat (length idxs))
    by (destruct idxs; [congruence | simpl; lia]).
  unfold load_joints. rewrite Hload. cbn [bind].
  rewrite (take_rows_ok file R [22 * d] idxs Hsh Hidx). cbn [bind shape0 shape].
  change (size_of [22 * d]) with (22 * d * 1). rewrite Z.mul_1_r.
  set (J := gathered_rows R (22 * d) (data file) idxs).
  set (n := Z.of_nat (length idxs)) in *.
  rewrite (reshape_infer_ok _ [n; 22] d);
    [| cbn [size_of fold_right]; lia | cbn [size_of fold_right shape]; ring].
  cbn [bind app].
  unfold index_ij, palm_idx, wrap_index. cbn [shape data].
  change (0 <? 0) with false. change (1 <? 0) with false. cbv iota.
  destruct (Z.ltb_spec 0 n) as [_|]; [|lia].
  change (0 <=? 0) with true. change (0 <=? 1) with true.
  change (1 <? 22) with true. cbn [andb bind].
  change (0 * 22 + 1) with 1. rewrite Z.mul_1_l.
  unfold broadcast_sub. cbn [shape data].
  rewrite (reshape_infer_ok _ [n] (22 * d));
    [| cbn [size_of fold_right]; lia | cbn [size_of fold_right shape]; ring].
  reflexivity.
Qed.

(** C6 (as amended): on a joint file of at least two frames (a file of one
    line is loaded as a one-dimensional array) of finite [float32]
    coordinates and at least one valid frame index, the loader returns an
    array of shape [(len(idxs), 22 d)] with [len(idxs) * 22 d] elements, in
    which the coordinates of the reference joint (index 1) of the first
    sampled frame are exactly zero; and every file that holds the same
    joints moved by a constant offset per axis, each moved coordinate being
    exact (not rounded), gives the same output. *)
Theorem load_joints_recentred (E : externals gvar_params aug_spec)
    (path : string) (idxs : list Z) (T : Z)
    (file : ndarray f32) (R d : Z) :
  np_loadtxt E path = Ok file ->
  joint_file R d file ->
  2 <= R ->
  idxs <> [] ->
  Forall (valid_idx R) idxs ->
  exists out,
    load_joints E path idxs T = Ok out /\
    shape out = [Z.of_nat (length idxs); 22 * d] /\
    Z.of_nat (length (data out)) = Z.of_nat (length idxs) * (22 * d) /\
    (forall k, 0 <= k < d ->
       nth_error (data out) (Z.to_nat (palm_idx * d + k)) = Some f32_zero) /\
    (forall (E' : externals gvar_params aug_spec) file' c,
       np_loadtxt E' path = Ok file' ->
       joint_file R d file' ->
       exact_offset (Z.to_nat d) c file file' ->
       load_joints E' path idxs T = Ok out).
Proof.
  intros Hload Hfile _ Hne Hidx.
  pose proof Hfile as [Hsh [Hlen [Hd Hok]]].
  assert (Hn : 1 <= Z.of_nat (length idxs))
    by (destruct idxs; [congruence | simpl; lia]).
  assert (HlenJ : forall F : list f32, Z.of_nat (length F) = R * (22 * d) ->
            2 * d <= Z.of_nat (length (gathered_rows R (22 * d) F idxs))).
  { intros F HF. rewrite (gathered_length R d idxs Hd Hidx F HF). nia. }
  assert (Hout : length (recentred d
                           (gathered_rows R (22 * d) (data file) idxs)) =
                 (length idxs * Z.to_nat (22 * d))%nat).
  { unfold recentred. rewrite imap_length.
    apply (gathered_length R d idxs Hd Hidx). assumption. }
  eexists. split; [eapply load_joints_closed; eassumption|].
  split; [reflexivity|]. cbn [data]. split; [rewrite Hout; nia|]. split.
  - intros k Hk. unfold palm_idx. rewrite Z.mul_1_l.
    rewrite (nth_error_nth' _ f32_zero) by (rewrite Hout; nia).
    f_equal. apply recentred_reference; auto.
    rewrite Forall_forall. intros x Hx. rewrite Forall_forall in Hok.
    apply Hok. eapply gathered_incl. eassumption.
  - intros E' file' c Hload' Hfile' [Hsh' Hpw].
    pose proof Hfile' as [_ [Hlen' [_ Hok']]].
    rewrite (load_joints_closed E' path idxs T file' R d Hload' Hfile' Hne Hidx).
    f_equal. f_equal.
    apply (recentred_exact_offset d _ Hd (HlenJ _ Hlen)) with (c := c).
    + rewrite Forall_forall. intros x Hx. rewrite Forall_forall in Hok.
      apply Hok. eapply gathered_incl. eassumption.
    + rewrite Forall_forall. intros x Hx. rewrite Forall_forall in Hok'.
      apply Hok'. eapply gathered_incl. eassumption.
    + apply gathered_pointwise; assumption.
Qed.

End JointLoader.

(* ===================================================================== *)
(** ** Padding *)
(* ===================================================================== *)

Lemma has_frames_map {A B : Type} (f : A -> B) (a : ndarray A) (n : Z)
    (rest : list Z) :
  has_frames a n rest -> has_frames (nd_map f a) n rest.
Proof.
  unfold has_frames, nd_map. cbn [shape data]. rewrite length_map. auto.
Qed.

Lemma pad0_ok {A : Type} (zero : A) (ndim : nat) (k n : Z) (rest : list Z)
    (a : ndarray A) :
  shape a = n :: rest ->
  S (length rest) = ndim ->
  0 <= k ->
  pad0 zero ndim k a =
  Ok (mk_ndarray (n + k :: rest)
        (data a ++ repeat zero (Z.to_nat (k * size_of rest)))).
Proof.
  intros Hsh Hnd Hk. unfold pad0. rewrite Hsh. cbn [length].
  rewrite Hnd, Nat.eqb_refl.
  destruct (Z.leb_spec 0 k); [reflexivity | lia].
Qed.

Section Padded.
Context {A : Type}.
Variables (zero : A) (a : ndarray A) (n k : Z) (rest : list Z).
Hypothesis Ha : has_frames a n rest.
Hypothesis Hk : 0 <= k.

Let padded : ndarray A :=
  mk_ndarray (n + k :: rest)
    (data a ++ repeat zero (Z.to_nat (k * size_of rest))).

Lemma padded_frames : has_frames padded (n + k) rest.
Proof.
  destruct Ha as [Hsh [Hlen [Hn Hrest]]].
  unfold has_frames, padded. cbn [shape data].
  rewrite length_app, repeat_length. repeat split; nia.
Qed.

Lemma padded_prefix : firstn (length (data a)) (data padded) = data a.
Proof.
  unfold padded. cbn [data].
  rewrite firstn_app, Nat.sub_diag, firstn_all. cbn [firstn].
  apply app_nil_r.
Qed.

Lemma padded_tail (p : nat) (dflt : A) :
  n * size_of rest <= Z.of_nat p < Z.of_nat (length (data padded)) ->
  nth p (data padded) dflt = zero.
Proof.
  destruct Ha as [Hsh [Hlen [Hn Hrest]]].
  unfold padded. cbn [data]. rewrite length_app, repeat_length.
  intros Hp. rewrite app_nth2 by lia.
  rewrite (nth_indep _ dflt zero) by (rewrite repeat_length; lia).
  apply nth_repeat.
Qed.
End Padded.

Lemma pad0_frames {A : Type} (zero : A) (ndim : nat) (a : ndarray A)
    (n t : Z) (rest : list Z) :
  has_frames a n rest ->
  S (length rest) = ndim ->
  n <= t ->
  exists b,
    pad0 zero ndim (t - n) a = Ok b /\
    has_frames b t rest /\
    (forall (p : nat) (dflt : A),
       n * stride0 b <= Z.of_nat p < Z.of_nat (length (data b)) ->
       nth p (data b) dflt = zero) /\
    firstn (length (data a)) (data b) = data a.
Proof.
  intros Ha Hnd Hn. pose proof Ha as [Hsh _].
  rewrite (pad0_ok zero ndim (t - n) n rest a Hsh Hnd ltac:(lia)).
  eexists. split; [reflexivity|].
  split.
  { pose proof (padded_frames zero a n (t - n) rest Ha ltac:(lia))
      as [Hs [Hl [H0 Hr]]].
    cbn [shape data] in *. unfold has_frames. cbn [shape data].
    replace (n + (t - n)) with t in * by lia. auto. }
  split.
  { intros p dflt Hp. unfold stride0 in Hp. cbn [shape tl] in Hp.
    apply (padded_tail zero a n (t - n) rest Ha p dflt).
    cbn [data]. exact Hp. }
  apply padded_prefix.
Qed.


(* ===================================================================== *)
(** ** The frame-count column *)
(* ===================================================================== *)

Lemma py_index_map {A B : Type} (f : A -> B) (l : list A) (i : Z) :
  py_index (map f l) i = bind (py_index l i) (fun a => Ok (f a)).
Proof.
  unfold py_index. rewrite length_map, nth_error_map.
  destruct (_ && _); [|reflexivity].
  destruct (nth_error l _); reflexivity.
Qed.

Lemma py_index_In {A : Type} (l : list A) (i : Z) (a : A) :
  py_index l i = Ok a -> In a l.
Proof.
  unfold py_index. destruct (_ && _); [|discriminate].
  destruct (nth_error l _) eqn:Hn; [|discriminate].
  intros H. injection H as <-. eapply nth_error_In. eassumption.
Qed.

Lemma set_frame_count_columns (v : Z) (row : list Z) :
  (8 <= length row)%nat ->
  py_index (set_frame_count v row) 4 = py_index row 4 /\
  py_index (set_frame_count v row) 5 = py_index row 5 /\
  py_index (set_frame_count v row) 7 = py_index row 7 /\
  py_index (set_frame_count v row) 6 = Ok v /\
  exists nf, py_index row 6 = Ok nf.
Proof.
  intros H.
  destruct row as [|a0 [|a1 [|a2 [|a3 [|a4 [|a5 [|a6 [|a7 rest]]]]]]]];
    simpl in H; try lia.
  unfold set_frame_count, py_index, wrap_index.
  cbn [firstn skipn app length].
  repeat match goal with
  | |- context [?a <? 0] => change (a <? 0) with false
  | |- context [0 <=? ?a] => change (0 <=? a) with true
  end.
  cbv iota. cbn [andb].
  repeat match goal with
  | |- context [?a <? Z.of_nat ?b] =>
      destruct (Z.ltb_spec a (Z.of_nat b)); [|lia]
  end.
  cbn. repeat split; try reflexivity. exists a6. reflexivity.
Qed.

(* ===================================================================== *)
(** ** The dataset *)
(* ===================================================================== *)

Section DatasetProps.
Variables gvar_params aug_spec : Type.
Implicit Types (E : externals gvar_params aug_spec)
  (ds : Dataset gvar_params aug_spec)
  (td : transform_dict gvar_params aug_spec).

(** The sampler call of [get_image_joint] has one argument too few: the
    function raises on every row, [IndexError] when the row has no column 7
    and [TypeError] otherwise. *)
Lemma get_image_joint_raises E (row : list Z) (dir : string) (t d : Z) td :
  get_image_joint E row dir t d td =
  match py_index row 6 with
  | Ok _ => Err TypeError
  | Err e => Err e
  end.
Proof.
  unfold get_image_joint. destruct (py_index row 6); reflexivity.
Qed.

Lemma get_image_joint_never_returns E (row : list Z) (dir : string)
    (t d : Z) td (r : ndarray f32 * ndarray Z) :
  get_image_joint E row dir t d td <> Ok r.
Proof.
  rewrite get_image_joint_raises. destruct (py_index row 6); discriminate.
Qed.

(** The cache builder keeps the order of the rows: whenever it returns, the
    entries at position [i] are the pair loaded for row [i]. *)
Lemma init_cache_order E (dl : list (list Z)) (dir : string) (t d : Z) td
    (n : Z) (c : Cache) :
  init_cache E dl dir t d td n = Ok c ->
  length (cache_joint c) = length dl /\
  length (cache_image c) = length dl /\
  forall i row, nth_error dl i = Some row ->
    exists j im,
      nth_error (cache_joint c) i = Some j /\
      nth_error (cache_image c) i = Some im /\
      get_image_joint E row dir t d td = Ok (j, im).
Proof.
  unfold init_cache. destruct (n <? 1); [discriminate|].
  intros H. apply bind_Ok in H. destruct H as [pairs [Hm H]].
  injection H as <-. cbn [cache_joint cache_image].
  destruct (mapM_nth _ _ _ Hm) as [Hlen Hnth].
  rewrite !length_map. repeat split; try assumption.
  intros i row Hrow. destruct (Hnth i row Hrow) as [[j im] [Hp Hl]].
  exists j, im. rewrite !nth_error_map, Hp. auto.
Qed.

Lemma init_cache_first_row E (row : list Z) (dl : list (list Z))
    (dir : string) (t d : Z) td (n : Z) :
  1 <= n ->
  init_cache E (row :: dl) dir t d td n =
  match py_index row 6 with
  | Ok _ => Err TypeError
  | Err e => Err e
  end.
Proof.
  intros Hn. unfold init_cache.
  destruct (Z.ltb_spec n 1); [lia|].
  cbn [mapM]. rewrite get_image_joint_raises.
  destruct (py_index row 6); reflexivity.
Qed.

(** [getitem] once the label, the raw pair and the augmented pair are
    known. *)
Lemma getitem_stages E ds (idx nf : Z) (label : option Z)
    (raw pair : ndarray f32 * ndarray Z) :
  select_label ds idx = Ok label ->
  data_at ds idx 6 = Ok nf ->
  fetch_raw E ds idx = Ok raw ->
  augment E ds raw = Ok pair ->
  getitem E ds idx = assemble ds label pair.
Proof.
  intros H1 H2 H3 H4. unfold getitem.
  rewrite H1, H2, H3. cbn [bind]. rewrite H4. reflexivity.
Qed.

Lemma getitem_Ok_stages E ds (idx : Z)
    (out : ndarray f32 * ndarray f32 * Z) :
  getitem E ds idx = Ok out ->
  exists label nf raw pair,
    select_label ds idx = Ok label /\
    data_at ds idx 6 = Ok nf /\
    fetch_raw E ds idx = Ok raw /\
    augment E ds raw = Ok pair /\
    assemble ds label pair = Ok out.
Proof.
  unfold getitem. intros H.
  apply bind_Ok in H. destruct H as [label [H1 H]].
  apply bind_Ok in H. destruct H as [nf [H2 H]].
  apply bind_Ok in H. destruct H as [raw [H3 H]].
  apply bind_Ok in H. destruct H as [pair [H4 H]].
  exists label, nf, raw, pair. auto.
Qed.

Lemma pad_and_return_label ds (label : option Z) (jp im : ndarray f32)
    (n : Z) (out : ndarray f32 * ndarray f32 * Z) :
  pad_and_return ds label jp im n = Ok out -> label = Some (snd out).
Proof.
  unfold pad_and_return. intros H.
  apply bind_Ok in H. destruct H as [[j i] [_ H]].
  destruct label as [l|]; [|discriminate].
  injection H as <-. reflexivity.
Qed.

Lemma assemble_label ds (label : option Z) (pair : ndarray f32 * ndarray Z)
    (out : ndarray f32 * ndarray f32 * Z) :
  assemble ds label pair = Ok out -> label = Some (snd out).
Proof.
  unfold assemble. intros H.
  apply bind_Ok in H. destruct H as [n [_ H]].
  eapply pad_and_return_label. eassumption.
Qed.


(** C1: the end-to-end scenario on the code. The dataset of the row
    [(1,1,3,1,5,12,10,0)] with [T = 8], [D = 2] and 14 classes is built, and
    its retrieval without a cache raises [TypeError] at the sampler call of
    [get_image_joint], whatever the files and the transforms are: no index is
    sampled and no triple is returned. *)
Theorem scenario_retrieval_raises E (dir : string) td :
  exists ds,
    dataset_init [scenario_row] dir 2 8 14 td None = Ok ds /\
    getitem E ds 0 = Err TypeError.
Proof. eexists. split; reflexivity. Qed.

(** C4: both sides of the equivalence on the code. For the scenario row the
    direct loading raises [TypeError], and so does the cache builder on a
    data list that holds the row: neither side yields a pair. *)
Theorem direct_and_cached_loading_raise E (dir : string) (t d : Z) td :
  get_image_joint E scenario_row dir t d td = Err TypeError /\
  init_cache E [scenario_row] dir t d td 4 = Err TypeError.
Proof. split; reflexivity. Qed.

(** C9: the cache builder on the code. With the scenario row first in the
    data list it raises [TypeError] and returns no cache; only the empty
    data list gives a cache, the empty one. *)
Theorem init_cache_raises E (dl : list (list Z)) (dir : string) (t d : Z) td :
  init_cache E (scenario_row :: dl) dir t d td 4 = Err TypeError /\
  init_cache E [] dir t d td 4 = Ok (mk_Cache [] []).
Proof. split; reflexivity. Qed.


(** C5: a trial whose loaded (and augmented) joint and image sequences have
    [n < T] frames is returned with exactly [T] frames in both tensors; the
    frames from [n] on are all-zero, those before are the loaded ones. *)
Theorem getitem_pads_short_trial E ds (idx lab nf : Z)
    (raw : ndarray f32 * ndarray Z) (jp : ndarray f32) (im : ndarray Z)
    (n w c h w' : Z) :
  select_label ds idx = Ok (Some lab) ->
  data_at ds idx 6 = Ok nf ->
  fetch_raw E ds idx = Ok raw ->
  augment E ds raw = Ok (jp, im) ->
  has_frames jp n [w] ->
  has_frames im n [c; h; w'] ->
  n < T ds ->
  exists j i,
    getitem E ds idx = Ok (j, i, lab) /\
    has_frames j (T ds) [w] /\
    has_frames i (T ds) [c; h; w'] /\
    zero_from j n /\
    zero_from i n /\
    firstn (length (data jp)) (data j) = data jp /\
    firstn (length (data im)) (data i) = map scale_pixel (data im).
Proof.
  intros Hl Hnf Hraw Haug Hj Hi Hn.
  rewrite (getitem_stages E ds idx nf _ raw (jp, im) Hl Hnf Hraw Haug).
  pose proof (has_frames_map scale_pixel im n _ Hi) as Hi'.
  destruct (pad0_frames f32_zero 2 jp n (T ds) [w] Hj eq_refl ltac:(lia))
    as [j [Hpj [Hfj [Hzj Hkj]]]].
  destruct (pad0_frames f32_zero 4 (nd_map scale_pixel im) n (T ds)
              [c; h; w'] Hi' eq_refl ltac:(lia))
    as [i [Hpi [Hfi [Hzi Hki]]]].
  exists j, i.
  unfold assemble, shape0. cbn [fst snd].
  destruct Hj as [Hshj _]. rewrite Hshj. cbn [bind].
  unfold pad_and_return.
  destruct (Z.ltb_spec n (T ds)); [|lia].
  rewrite Hpj. cbn [bind]. rewrite Hpi. cbn [bind].
  split; [reflexivity|].
  split; [assumption|]. split; [assumption|].
  split; [intros p Hp; apply Hzj; assumption|].
  split; [intros p Hp; apply Hzi; assumption|].
  split; [assumption|].
  unfold nd_map in Hki. cbn [data] in Hki. rewrite length_map in Hki.
  assumption.
Qed.

(** C10: a trial whose loaded (and augmented) joint sequence has [n >= T]
    frames is returned as it is: the joint tensor is the loaded one, the
    image tensor its rescaled pixels, and both keep their shapes; nothing is
    cut to [T] frames. *)
Theorem getitem_keeps_long_trial E ds (idx lab nf n : Z)
    (raw : ndarray f32 * ndarray Z) (jp : ndarray f32) (im : ndarray Z) :
  select_label ds idx = Ok (Some lab) ->
  data_at ds idx 6 = Ok nf ->
  fetch_raw E ds idx = Ok raw ->
  augment E ds raw = Ok (jp, im) ->
  shape0 jp = Ok n ->
  T ds <= n ->
  exists j i,
    getitem E ds idx = Ok (j, i, lab) /\
    j = jp /\
    shape i = shape im /\
    data i = map scale_pixel (data im).
Proof.
  intros Hl Hnf Hraw Haug Hsh Hn.
  rewrite (getitem_stages E ds idx nf _ raw (jp, im) Hl Hnf Hraw Haug).
  unfold assemble. cbn [fst snd]. rewrite Hsh. cbn [bind].
  unfold pad_and_return.
  destruct (Z.ltb_spec n (T ds)); [lia|]. cbn [bind].
  eexists. eexists. split; [reflexivity|]. auto.
Qed.


Lemma data_at_with_frame_count ds (v idx : Z) :
  Forall (fun row => (8 <= length row)%nat) (data_list ds) ->
  data_at (with_frame_count v ds) idx 4 = data_at ds idx 4 /\
  data_at (with_frame_count v ds) idx 5 = data_at ds idx 5 /\
  data_at (with_frame_count v ds) idx 7 = data_at ds idx 7 /\
  (forall nf, data_at ds idx 6 = Ok nf ->
     data_at (with_frame_count v ds) idx 6 = Ok v).
Proof.
  intros Hrows. unfold data_at, with_frame_count. cbn [data_list].
  rewrite py_index_map.
  destruct (py_index (data_list ds) idx) as [row|e] eqn:Hrow; cbn [bind].
  - apply py_index_In in Hrow. rewrite Forall_forall in Hrows.
    destruct (set_frame_count_columns v row (Hrows row Hrow))
      as [H4 [H5 [H7 [H6 _]]]].
    auto.
  - repeat split; try reflexivity. discriminate.
Qed.

(** C8 (as amended): the label is read from the data list, and so is the
    cache position; the frame count that decides the padding is the first
    dimension of the loaded (and augmented) joint array, the value read from
    the frame-count column being overwritten before its use. A retrieval
    from a cache therefore does not depend on that column at all. *)
Theorem frame_count_from_joints E ds (idx v nf n : Z) (label : option Z)
    (raw : ndarray f32 * ndarray Z) (jp : ndarray f32) (im : ndarray Z) :
  cache ds <> None ->
  Forall (fun row => (8 <= length row)%nat) (data_list ds) ->
  select_label ds idx = Ok label ->
  data_at ds idx 6 = Ok nf ->
  fetch_raw E ds idx = Ok raw ->
  augment E ds raw = Ok (jp, im) ->
  shape0 jp = Ok n ->
  getitem E ds idx =
    pad_and_return ds label jp (nd_map scale_pixel im) n /\
  getitem E (with_frame_count v ds) idx = getitem E ds idx /\
  select_label (with_frame_count v ds) idx = Ok label /\
  (forall out, getitem E ds idx = Ok out -> label = Some (snd out)).
Proof.
  intros Hc Hrows Hl Hnf Hraw Haug Hsh.
  destruct (data_at_with_frame_count ds v idx Hrows) as [H4 [H5 [H7 H6]]].
  assert (Hl' : select_label (with_frame_count v ds) idx = Ok label).
  { rewrite <- Hl. unfold select_label.
    change (num_classes (with_frame_count v ds)) with (num_classes ds).
    rewrite H4, H5. reflexivity. }
  assert (Hraw' : fetch_raw E (with_frame_count v ds) idx = Ok raw).
  { rewrite <- Hraw. unfold fetch_raw.
    change (cache (with_frame_count v ds)) with (cache ds).
    destruct (cache ds) as [c|]; [|congruence].
    rewrite H7. reflexivity. }
  assert (Hget : getitem E ds idx = assemble ds label (jp, im))
    by (eapply getitem_stages; eassumption).
  split.
  { rewrite Hget. unfold assemble. cbn [fst snd]. rewrite Hsh. reflexivity. }
  split.
  { rewrite Hget.
    rewrite (getitem_stages E (with_frame_count v ds) idx v label raw
               (jp, im) Hl' (H6 nf Hnf) Hraw' Haug).
    reflexivity. }
  split; [assumption|].
  intros out Hout. rewrite Hget in Hout.
  eapply assemble_label. eassumption.
Qed.

End DatasetProps.

(* ===================================================================== *)
(** ** The properties on the test data *)
(* ===================================================================== *)

(** The claim of C2 about constant images fails: a constant image of value
    7 is returned as the all-zero image, not unchanged. *)
Lemma normalize_constant_image_changes :
  let image := mk_ndarray [2; 2] [7; 7; 7; 7] in
  constant_image image /\
  normalize image = Ok (mk_ndarray [2; 2] [0; 0; 0; 0]) /\
  normalize image <> Ok image.
Proof.
  cbv zeta. split; [|split].
  - intros u v Hu Hv. simpl in Hu, Hv.
    repeat (destruct Hu as [<-|Hu]; [|]); try contradiction;
      repeat (destruct Hv as [<-|Hv]; [|]); try contradiction; reflexivity.
  - vm_compute. reflexivity.
  - vm_compute. discriminate.
Qed.

Lemma normalize_min_max_witness :
  exists out,
    normalize (mk_ndarray [2; 2] [3; 3; 9; 20]) = Ok out /\
    shape out = [2; 2] /\
    is_min 0 (data out) /\ is_max 255 (data out).
Proof.
  destruct (normalize_min_max (mk_ndarray [2; 2] [3; 3; 9; 20]))
    as [scaled [out [_ [Hout [_ [Hsh [_ [_ Hmm]]]]]]]].
  - simpl. discriminate.
  - intros v Hv. simpl in Hv.
    repeat (destruct Hv as [<-|Hv]; [lia|]). contradiction.
  - exists out. split; [assumption|]. split; [assumption|].
    apply Hmm. intros Hc.
    specialize (Hc 3 9 (or_introl eq_refl)
                  (or_intror (or_intror (or_introl eq_refl)))).
    discriminate.
Defined.

(** C3 fails twice: one sample asked of six frames is the first frame, not
    the last; and [2^30 + 1] samples asked of [2^30 + 13] frames repeat an
    index, because [i * step] is rounded down just below [2^30] and the sum
    with [start] is rounded to even. *)
Lemma get_samples_claim_fails :
  (get_samples 0 5 1 = Ok [0] /\ last [0] 0 <> 5) /\
  exists idxs,
    get_samples 1 1073741837 1073741825 = Ok idxs /\
    nth_error idxs (Z.to_nat 1073741812) = Some 1073741825 /\
    nth_error idxs (Z.to_nat 1073741813) = Some 1073741825 /\
    ~ increasing idxs.
Proof.
  split; [split; [vm_compute; reflexivity | cbn; lia]|].
  assert (H1 : 0 <= 1) by lia.
  assert (H2 : 1073741837 <= int32_max) by (unfold int32_max; lia).
  assert (H3 : 1 <= 1073741824 <= 1073741837 - 1) by lia.
  pose proof (get_samples_long 1 1073741837 1073741824 H1 H2 H3) as Hg.
  change (1073741824 + 1) with 1073741825 in Hg.
  set (G := sample_at 1 (linspace_step 1 1073741837 1073741825)) in *.
  assert (Ha : G 1073741812 = 1073741825) by (vm_compute; reflexivity).
  assert (Hb : G 1073741813 = 1073741825) by (vm_compute; reflexivity).
  pose proof (nth_error_samples G 1073741824 1073741812 1073741837
                ltac:(lia)) as Na.
  pose proof (nth_error_samples G 1073741824 1073741813 1073741837
                ltac:(lia)) as Nb.
  rewrite Ha in Na. rewrite Hb in Nb.
  eexists. split; [exact Hg|]. split; [exact Na|]. split; [exact Nb|].
  intros Hinc.
  assert (Hk : Z.to_nat 1073741813 = S (Z.to_nat 1073741812)) by lia.
  rewrite Hk in Nb.
  pose proof (increasing_nth _ Hinc _ _ _ Na Nb). lia.
Qed.

(** Below zero the cast to [int32] rounds up, and two samples can meet. *)
Example get_samples_negative_start :
  get_samples (-2) 2 4 = Ok [-2; 0; 0; 2].
Proof. vm_compute. reflexivity. Qed.

(** Beyond [2^31 - 1] the cast to [int32] wraps around. *)
Example get_samples_beyond_int32 :
  get_samples 2147483647 2147483648 3 = Ok [2147483647; -2147483648].
Proof. vm_compute. reflexivity. Qed.

Lemma get_samples_spec_witness :
  exists idxs,
    get_samples 0 9 8 = Ok idxs /\ samples_spec 0 9 8 idxs.
Proof.
  destruct (get_samples_spec 0 9 8 ltac:(lia) ltac:(unfold int32_max; lia)
              ltac:(lia))
    as [idxs [Hg [Hlen [Hhd [Hlast [_ Hord]]]]]].
  destruct Hord as [Hin Hinc]; [right; lia|].
  exists idxs. split; [assumption|].
  unfold samples_spec. repeat split; try assumption.
  - apply Hin. assumption.
  - apply Hin. assumption.
Defined.

Lemma small_joint_file_ok : joint_file 2 1 small_joint_file.
Proof.
  unfold joint_file. split; [reflexivity|]. split; [reflexivity|].
  split; [lia|].
  unfold small_joint_file. cbn [data concat repeat app].
  repeat (constructor; [reflexivity|]). constructor.
Defined.

(** The claim of C6 about offsets fails in [float32]: the offset [2^24]
    added to every coordinate of a valid file rounds 0.25 and 1.0 to the
    same number, and the first output coordinate changes from -0.75 to 0. *)
Lemma offset_rounding_changes_output :
  let file := small_joint_file in
  let moved := add_offset 1 [f32_two_pow_24] file in
  joint_file 2 1 file /\
  (exists out,
     load_joints (one_joint_file file) "" [0; 1] 2 = Ok out /\
     nth 0 (data out) f32_zero = S754_finite true 12582912 (-24)) /\
  (exists out,
     load_joints (one_joint_file moved) "" [0; 1] 2 = Ok out /\
     nth 0 (data out) f32_zero = f32_zero) /\
  load_joints (one_joint_file moved) "" [0; 1] 2 <>
  load_joints (one_joint_file file) "" [0; 1] 2.
Proof.
  cbv zeta. split; [exact small_joint_file_ok|].
  split; [eexists; split; [vm_compute; reflexivity | reflexivity]|].
  split; [eexists; split; [vm_compute; reflexivity | reflexivity]|].
  vm_compute. discriminate.
Qed.

Lemma load_joints_recentred_witness :
  exists out,
    load_joints (one_joint_file small_joint_file) "" [0; 1] 2 = Ok out /\
    shape out = [2; 22] /\
    length (data out) = 44%nat /\
    nth_error (data out) 1 = Some f32_zero.
Proof.
  destruct (load_joints_recentred unit unit (one_joint_file small_joint_file)
              "" [0; 1] 2 small_joint_file 2 1)
    as [out [Hout [Hsh [Hlen [Hzero _]]]]].
  - reflexivity.
  - exact small_joint_file_ok.
  - lia.
  - discriminate.
  - repeat constructor; unfold valid_idx; lia.
  - exists out. split; [assumption|]. split; [assumption|].
    split; [simpl in Hlen; lia|].
    apply (Hzero 0). lia.
Defined.

Lemma two_frame_joints_frames : has_frames two_frame_joints 2 [2].
Proof. unfold has_frames. simpl. repeat split; lia. Defined.

Lemma two_frame_images_frames : has_frames two_frame_images 2 [1; 1; 2].
Proof. unfold has_frames. simpl. repeat split; lia. Defined.

Lemma getitem_pads_short_trial_witness :
  exists j i,
    getitem no_files (cached_dataset 4) 0 = Ok (j, i, 4) /\
    has_frames j 4 [2] /\
    has_frames i 4 [1; 1; 2] /\
    zero_from j 2 /\
    zero_from i 2.
Proof.
  destruct (getitem_pads_short_trial unit unit no_files (cached_dataset 4)
              0 4 10 (two_frame_joints, two_frame_images)
              two_frame_joints two_frame_images 2 2 1 1 2)
    as [j [i [Hget [Hj [Hi [Hzj [Hzi _]]]]]]].
  - reflexivity.
  - reflexivity.
  - reflexivity.
  - reflexivity.
  - exact two_frame_joints_frames.
  - exact two_frame_images_frames.
  - simpl. lia.
  - exists j, i. auto.
Defined.

Lemma getitem_keeps_long_trial_witness :
  exists j i,
    getitem no_files (cached_dataset 2) 0 = Ok (j, i, 4) /\
    j = two_frame_joints /\
    shape i = [2; 1; 1; 2].
Proof.
  destruct (getitem_keeps_long_trial unit unit no_files (cached_dataset 2)
              0 4 10 2 (two_frame_joints, two_frame_images)
              two_frame_joints two_frame_images)
    as [j [i [Hget [Hj [Hi _]]]]].
  - reflexivity.
  - reflexivity.
  - reflexivity.
  - reflexivity.
  - reflexivity.
  - simpl. lia.
  - exists j, i. auto.
Defined.

(** The claim of C8 about the frame count fails: the row says 10 frames,
    the cached trial has 2, and with [T = 4] the retrieval pads the 2 loaded
    frames to 4, where the count of the row would leave them unpadded. *)
Lemma frame_count_recomputed :
  data_at (cached_dataset 4) 0 6 = Ok 10 /\
  (exists j i,
     getitem no_files (cached_dataset 4) 0 = Ok (j, i, 4) /\
     shape j = [4; 2] /\ shape i = [4; 1; 1; 2]) /\
  (exists j i,
     getitem_row_count no_files (cached_dataset 4) 0 = Ok (j, i, 4) /\
     shape j = [2; 2] /\ shape i = [2; 1; 1; 2]) /\
  getitem no_files (cached_dataset 4) 0 <>
  getitem_row_count no_files (cached_dataset 4) 0.
Proof.
  split; [reflexivity|].
  split; [eexists; eexists; split; [vm_compute; reflexivity | split; reflexivity]|].
  split; [eexists; eexists; split; [vm_compute; reflexivity | split; reflexivity]|].
  vm_compute. discriminate.
Qed.

Lemma frame_count_from_joints_witness :
  getitem no_files (with_frame_count 3 (cached_dataset 4)) 0 =
  getitem no_files (cached_dataset 4) 0.
Proof.
  destruct (frame_count_from_joints unit unit no_files (cached_dataset 4)
              0 3 10 2 (Some 4) (two_frame_joints, two_frame_images)
              two_frame_joints two_frame_images)
    as [_ [Hsame _]].
  - discriminate.
  - repeat constructor.
  - reflexivity.
  - reflexivity.
  - reflexivity.
  - reflexivity.
  - reflexivity.
  - exact Hsame.
Defined.

(** A retrieval from the cache returns the label of column 5, minus one. *)
Example cached_retrieval_label :
  exists j i, getitem no_files (cached_dataset 4) 0 = Ok (j, i, 4).
Proof. eexists. eexists. vm_compute. reflexivity. Qed.

(* ===================================================================== *)
(** ** Normalisation, rescaling and sampling, further *)
(* ===================================================================== *)

Lemma list_min_unique (x : Z) (xs : list Z) (m : Z) :
  is_min m (x :: xs) -> list_min x xs = m.
Proof.
  intros [Hin Hle].
  pose proof (list_min_In xs x) as Hin'.
  destruct (list_min_le xs x) as [H1 H2].
  assert (list_min x xs <= m).
  { destruct Hin as [<-|Hin]; [assumption | apply H2; assumption]. }
  pose proof (Hle _ Hin'). lia.
Qed.

Lemma list_max_unique (x : Z) (xs : list Z) (m : Z) :
  is_max m (x :: xs) -> list_max x xs = m.
Proof.
  intros [Hin Hle].
  pose proof (list_max_In xs x) as Hin'.
  destruct (list_max_ge xs x) as [H1 H2].
  assert (m <= list_max x xs).
  { destruct Hin as [<-|Hin]; [assumption | apply H2; assumption]. }
  pose proof (Hle _ Hin'). lia.
Qed.

(** [normalize] written with the least and the greatest pixel. *)
Lemma normalize_with_extremes (image : ndarray Z) (lo hi : Z) :
  is_min lo (data image) -> is_max hi (data image) ->
  normalize image =
  Ok (nd_map (normalize_pixel lo (if hi >? lo then hi - lo else 1)) image).
Proof.
  intros Hlo Hhi. rewrite normalize_unfold.
  destruct (data image) as [|x xs] eqn:Hd.
  - destruct Hlo as [[] _].
  - rewrite (list_min_unique x xs lo Hlo), (list_max_unique x xs hi Hhi).
    reflexivity.
Qed.

(** Binary64 evaluation on every pixel and span of an 8 bit image. *)
Lemma spans_8bit : all_from span_exact 1 255 = true.
Proof. vm_compute. reflexivity. Qed.

Lemma normalize_pixel_8bit (d x : Z) :
  1 <= d <= 255 -> 0 <= x <= d -> normalize_pixel 0 d x = 255 * x / d.
Proof.
  intros Hd Hx.
  pose proof (all_from_spec _ _ _ spans_8bit d ltac:(lia)) as H.
  unfold span_exact in H.
  pose proof (all_from_spec _ _ _ H x) as Hx'. cbv beta in Hx'.
  rewrite Z2Pos.id in Hx' by lia.
  apply Z.eqb_eq. apply Hx'. lia.
Qed.

(** X1: on an 8 bit image with two different pixel values the binary64
    arithmetic of [normalize] is exact: every pixel [v] becomes the integer
    quotient [255 * (v - min) / (max - min)], so the order of the pixels is
    kept. *)
Theorem normalize_8bit_exact (image : ndarray Z) (lo hi : Z) :
  pixels_8bit image ->
  is_min lo (data image) ->
  is_max hi (data image) ->
  lo < hi ->
  normalize image = Ok (nd_map (exact_pixel lo hi) image) /\
  (forall u v, u <= v -> In u (data image) -> In v (data image) ->
     exact_pixel lo hi u <= exact_pixel lo hi v).
Proof.
  intros Hpix Hlo Hhi Hlt. split.
  - rewrite (normalize_with_extremes image lo hi Hlo Hhi).
    destruct (Z.gtb_spec hi lo) as [_|]; [|lia].
    unfold nd_map. f_equal. f_equal. apply map_ext_in. intros v Hv.
    pose proof (Hpix _ (proj1 Hlo)). pose proof (Hpix _ (proj1 Hhi)).
    pose proof (proj2 Hlo _ Hv). pose proof (proj2 Hhi _ Hv).
    rewrite normalize_pixel_shift. unfold exact_pixel.
    apply normalize_pixel_8bit; lia.
  - intros u v Huv Hu Hv. unfold exact_pixel.
    apply Z.div_le_mono; [lia|]. 
    pose proof (proj2 Hlo _ Hu). nia.
Qed.

Lemma bytes_fixed : all_from byte_fixed 0 256 = true.
Proof. vm_compute. reflexivity. Qed.

Lemma normalize_pixel_fixed (v : Z) :
  0 <= v <= 255 -> normalize_pixel 0 255 v = v.
Proof.
  intros Hv. apply Z.eqb_eq.
  apply (all_from_spec _ _ _ bytes_fixed v). lia.
Qed.

(** The two outcomes of the normalisation of a 16 bit image. *)
Lemma normalize_outcomes (image : ndarray Z) :
  data image <> [] ->
  pixels_16bit image ->
  exists out,
    normalize image = Ok out /\
    shape out = shape image /\
    data out <> [] /\
    ((forall v, In v (data out) -> v = 0) \/
     (is_min 0 (data out) /\ is_max 255 (data out))).
Proof.
  intros Hne Hpix. rewrite normalize_unfold.
  destruct (data image) as [|x xs] eqn:Hdata; [congruence|].
  set (i_min := list_min x xs). set (i_max := list_max x xs).
  assert (Hmin_in : In i_min (data image))
    by (rewrite Hdata; apply list_min_In).
  assert (Hmax_in : In i_max (data image))
    by (rewrite Hdata; apply list_max_In).
  assert (Hmin_le : forall v, In v (data image) -> i_min <= v).
  { rewrite Hdata. intros v [<-|Hv];
      [apply (proj1 (list_min_le xs x))
      |apply (proj2 (list_min_le xs x)); assumption]. }
  assert (Hmax_ge : forall v, In v (data image) -> v <= i_max).
  { rewrite Hdata. intros v [<-|Hv];
      [apply (proj1 (list_max_ge xs x))
      |apply (proj2 (list_max_ge xs x)); assumption]. }
  eexists. split; [reflexivity|]. split; [reflexivity|].
  unfold nd_map; cbn [data]. rewrite Hdata. split; [discriminate|].
  rewrite <- Hdata.
  destruct (Z.gtb_spec i_max i_min) as [Hgt|Hle].
  - right.
    pose proof (Hpix _ Hmin_in) as Hb1. pose proof (Hpix _ Hmax_in) as Hb2.
    destruct (normalize_pixel_extremes (i_max - i_min) ltac:(lia))
      as [H0 H255].
    split; split.
    + apply in_map_iff. exists i_min. split; [|assumption].
      rewrite normalize_pixel_shift, Z.sub_diag. assumption.
    + intros v Hv. apply in_map_iff in Hv. destruct Hv as [u [<- _]].
      apply normalize_pixel_byte.
    + apply in_map_iff. exists i_max. split; [|assumption].
      rewrite normalize_pixel_shift. assumption.
    + intros v Hv. apply in_map_iff in Hv. destruct Hv as [u [<- _]].
      apply normalize_pixel_byte.
  - left. intros v Hv. apply in_map_iff in Hv. destruct Hv as [u [<- Hu]].
    rewrite normalize_pixel_shift.
    replace (u - i_min) with 0
      by (pose proof (Hmin_le _ Hu); pose proof (Hmax_ge _ Hu); lia).
    apply normalize_pixel_flat.
Qed.

(** X2: normalising twice is normalising once: the normalised image of a
    non-empty 16 bit image is its own normalisation. *)
Theorem normalize_idempotent (image : ndarray Z) :
  data image <> [] ->
  pixels_16bit image ->
  exists out, normalize image = Ok out /\ normalize out = Ok out.
Proof.
  intros Hne Hpix.
  destruct (normalize_outcomes image Hne Hpix)
    as [out [Hout [_ [Hne' [Hzero|[Hmin Hmax]]]]]];
    exists out; (split; [assumption|]).
  - assert (Hlo : is_min 0 (data out)).
    { destruct (data out) as [|y ys] eqn:Hd; [congruence|].
      split; [left; apply Hzero; left; reflexivity|].
      intros v Hv. rewrite (Hzero v Hv). lia. }
    assert (Hhi : is_max 0 (data out)).
    { destruct Hlo as [Hin _]. split; [assumption|].
      intros v Hv. rewrite (Hzero v Hv). lia. }
    rewrite (normalize_with_extremes out 0 0 Hlo Hhi).
    change (0 >? 0) with false. cbv iota.
    destruct out as [sh d]. unfold nd_map. cbn [shape data] in *.
    f_equal. f_equal. apply map_id_in. intros v Hv.
    rewrite (Hzero v Hv). apply normalize_pixel_flat.
  - rewrite (normalize_with_extremes out 0 255 Hmin Hmax).
    change (255 >? 0) with true. cbv iota.
    destruct out as [sh d]. unfold nd_map. cbn [shape data] in *.
    f_equal. f_equal. apply map_id_in. intros v Hv.
    change (255 - 0) with 255. apply normalize_pixel_fixed.
    pose proof (proj2 Hmin v Hv). pose proof (proj2 Hmax v Hv). lia.
Qed.

Lemma scales_ok : all_from scale_ok 0 255 = true.
Proof. vm_compute. reflexivity. Qed.

Lemma scale_pixel_bounds (v : Z) :
  0 <= v <= 255 ->
  f32_le f32_zero (scale_pixel v) /\ f32_le (scale_pixel v) f32_one.
Proof.
  intros Hv. destruct (Z.eq_dec v 255) as [->|Hne].
  - split; vm_compute; reflexivity.
  - pose proof (all_from_spec _ _ _ scales_ok v ltac:(lia)) as H.
    unfold scale_ok in H.
    apply andb_prop in H. destruct H as [H _].
    apply andb_prop in H. destruct H as [Hlo Hhi].
    split; assumption.
Qed.

(** X11: the division by 255 of [__getitem__] maps the bytes into the unit
    interval of [float32], 0 to 0.0 and 255 to 1.0, and keeps different bytes
    apart and in order. *)
Theorem scale_pixel_unit_range (v : Z) :
  0 <= v <= 255 ->
  f32_le f32_zero (scale_pixel v) /\
  f32_le (scale_pixel v) f32_one /\
  (v < 255 -> f32_lt (scale_pixel v) (scale_pixel (v + 1))) /\
  scale_pixel 0 = f32_zero /\
  scale_pixel 255 = f32_one.
Proof.
  intros Hv.
  assert (H01 : scale_pixel 0 = f32_zero /\ scale_pixel 255 = f32_one)
    by (split; vm_compute; reflexivity).
  destruct (Z.eq_dec v 255) as [->|Hne].
  - destruct H01 as [H0 H1]. rewrite H1.
    split; [reflexivity|]. split; [reflexivity|].
    split; [intros Hlt; lia|]. split; [assumption | reflexivity].
  - pose proof (all_from_spec _ _ _ scales_ok v ltac:(lia)) as H.
    unfold scale_ok in H.
    apply andb_prop in H. destruct H as [H Hlt].
    apply andb_prop in H. destruct H as [Hlo Hhi].
    unfold f32_le, f32_lt. tauto.
Qed.

(** X3: the sampler outside [T >= 1]: a negative [T] not above the number
    of frames [N] raises [ValueError] (from [np.linspace]); in every other
    case the sampler returns [max 0 (min T N)] indices, so none for [T = 0]
    and none for an empty range. *)
Theorem get_samples_outcome (start end_ T : Z) :
  (T < 0 /\ T <= end_ - start + 1 ->
   get_samples start end_ T = Err ValueError) /\
  (0 <= T \/ end_ - start + 1 < T ->
   exists idxs,
     get_samples start end_ T = Ok idxs /\
     Z.of_nat (length idxs) = Z.max 0 (Z.min T (end_ - start + 1))).
Proof.
  unfold get_samples. split.
  - intros [HT HN].
    destruct (Z.ltb_spec (end_ - start + 1) T); [lia|].
    unfold linspace. destruct (Z.ltb_spec T 0); [reflexivity | lia].
  - intros H.
    destruct (Z.ltb_spec (end_ - start + 1) T) as [HN|HN].
    + eexists. split; [reflexivity|].
      rewrite length_map, arange_length. lia.
    + unfold linspace.
      destruct (Z.ltb_spec T 0) as [HT0|HT0]; [lia|].
      cbn [bind]. eexists. split; [reflexivity|].
      rewrite length_map.
      assert (Hlen : forall (l : list float) (c1 c2 c3 : bool)
                (f g g' h : float -> float) (v : float),
        length (if c3
                then set_last (map h (if c1 then if c2 then map f l
                                       else map g l else map g' l)) v
                else map h (if c1 then if c2 then map f l
                            else map g l else map g' l)) = length l).
      { intros. destruct c1, c2, c3;
          rewrite ?set_last_length, !length_map; reflexivity. }
      rewrite Hlen, length_map, arange_length. lia.
Qed.

(* ===================================================================== *)
(** ** The joint loader, entry by entry *)
(* ===================================================================== *)

Lemma mapM_first_error {A B : Type} (f : A -> result B) (e : exn)
    (pre post : list A) (a : A) :
  (forall x, In x pre -> exists b, f x = Ok b) ->
  f a = Err e ->
  mapM f (pre ++ a :: post) = Err e.
Proof.
  induction pre as [|x pre IH]; intros Hpre Ha; simpl.
  - rewrite Ha. reflexivity.
  - destruct (Hpre x (or_introl eq_refl)) as [b Hb]. rewrite Hb. simpl.
    rewrite IH; [reflexivity | | assumption].
    intros y Hy. apply Hpre. right. assumption.
Qed.

Lemma mapM_some_error {A B : Type} (f : A -> result B) (e : exn)
    (l : list A) :
  (forall x, In x l -> (exists b, f x = Ok b) \/ f x = Err e) ->
  (exists x, In x l /\ f x = Err e) ->
  mapM f l = Err e.
Proof.
  induction l as [|x l IH]; intros Hall [a [Ha He]]; [contradiction|].
  simpl. destruct (Hall x (or_introl eq_refl)) as [[b Hb]|Hx].
  - rewrite Hb. simpl.
    destruct Ha as [->|Ha]; [congruence|].
    rewrite IH; [reflexivity | | eauto].
    intros y Hy. apply Hall. right. assumption.
  - rewrite Hx. reflexivity.
Qed.

Section Cells.
Context {A : Type}.
Variables (R C : Z) (F : list A) (dflt : A).
Hypothesis HC : 0 <= C.
Hypothesis HF : Z.of_nat (length F) = R * C.

Lemma gathered_cell (idxs : list Z) :
  Forall (valid_idx R) idxs ->
  forall (k : nat) (i c : Z),
    nth_error idxs k = Some i ->
    0 <= c < C ->
    nth (Z.to_nat (Z.of_nat k * C + c)) (gathered_rows R C F idxs) dflt =
    cell dflt R C F i c.
Proof.
  unfold gathered_rows, cell.
  induction idxs as [|i0 l IH]; intros Hidx k i c Hk Hc.
  - destruct k; discriminate.
  - inversion Hidx as [|? ? Hi0 Hl]; subst.
    assert (Hoff : 0 <= wrap_index R i0 * C /\
                   wrap_index R i0 * C + C <= R * C).
    { unfold valid_idx, wrap_index in *.
      destruct (i0 <? 0) eqn:Hneg;
        [apply Z.ltb_lt in Hneg | apply Z.ltb_ge in Hneg]; nia. }
    cbn [map concat].
    assert (Hlen : length (slice F (wrap_index R i0 * C) C) = Z.to_nat C)
      by (apply slice_length; lia).
    destruct k as [|k].
    + injection Hk as <-. cbn [Z.of_nat]. rewrite Z.mul_0_l, Z.add_0_l.
      rewrite app_nth1 by lia.
      rewrite slice_nth by lia. f_equal. lia.
    + cbn [nth_error] in Hk.
      rewrite app_nth2 by (rewrite Hlen; nia).
      rewrite Hlen.
      replace (Z.to_nat (Z.of_nat (S k) * C + c) - Z.to_nat C)%nat
        with (Z.to_nat (Z.of_nat k * C + c)) by nia.
      apply IH; assumption.
Qed.
End Cells.

Lemma recentred_entry (d : Z) (J : list f32) (p : nat) :
  1 <= d ->
  2 * d <= Z.of_nat (length J) ->
  (p < length J)%nat ->
  nth p (recentred d J) f32_zero =
  f32_sub (nth p J f32_zero)
    (nth (Z.to_nat d + p mod Z.to_nat d) J f32_zero).
Proof.
  intros Hd Hlen Hp. unfold recentred.
  rewrite (imap_nth _ J p f32_zero f32_zero Hp).
  rewrite slice_length by lia.
  rewrite slice_nth by (try apply Nat.mod_upper_bound; lia).
  reflexivity.
Qed.

Section JointLoaderMore.
Variables gvar_params aug_spec : Type.
Implicit Types (E : externals gvar_params aug_spec).

(** The loader on a table of frames of 22 joints. *)
Lemma load_joints_table E (path : string) (idxs : list Z) (T : Z)
    (file : ndarray f32) (R d : Z) :
  np_loadtxt E path = Ok file ->
  table R (22 * d) file ->
  1 <= d ->
  idxs <> [] ->
  Forall (valid_idx R) idxs ->
  load_joints E path idxs T =
  Ok (mk_ndarray [Z.of_nat (length idxs); 22 * d]
        (recentred d (gathered_rows R (22 * d) (data file) idxs))).
Proof.
  intros Hload [Hsh Hlen] Hd Hne Hidx.
  assert (Hn : 0 < Z.of_nat (length idxs))
    by (destruct idxs; [congruence | simpl; lia]).
  unfold load_joints. rewrite Hload. cbn [bind].
  rewrite (take_rows_ok file R [22 * d] idxs Hsh Hidx). cbn [bind shape0 shape].
  change (size_of [22 * d]) with (22 * d * 1). rewrite Z.mul_1_r.
  set (J := gathered_rows R (22 * d) (data file) idxs).
  set (n := Z.of_nat (length idxs)) in *.
  rewrite (reshape_infer_ok _ [n; 22] d);
    [| cbn [size_of fold_right]; lia | cbn [size_of fold_right shape]; ring].
  cbn [bind app].
  unfold index_ij, palm_idx, wrap_index. cbn [shape data].
  change (0 <? 0) with false. change (1 <? 0) with false. cbv iota.
  destruct (Z.ltb_spec 0 n) as [_|]; [|lia].
  change (0 <=? 0) with true. change (0 <=? 1) with true.
  change (1 <? 22) with true. cbn [andb bind].
  change (0 * 22 + 1) with 1. rewrite Z.mul_1_l.
  unfold broadcast_sub. cbn [shape data].
  rewrite (reshape_infer_ok _ [n] (22 * d));
    [| cbn [size_of fold_right]; lia | cbn [size_of fold_right shape]; ring].
  reflexivity.
Qed.

(** X4: every output coordinate of [load_joints]: for the [k]-th selected
    frame [i], joint [j] and axis [a], it is the [float32] difference of
    that coordinate in the file and the same axis of joint 1 in the first
    selected frame [i0]; negative frame indices count from the end. *)
Theorem load_joints_entry E (path : string) (idxs : list Z) (T : Z)
    (file : ndarray f32) (R d : Z) (k : nat) (i i0 j a : Z) :
  np_loadtxt E path = Ok file ->
  table R (22 * d) file ->
  Forall (valid_idx R) idxs ->
  nth_error idxs 0 = Some i0 ->
  nth_error idxs k = Some i ->
  0 <= j < 22 ->
  0 <= a < d ->
  exists out,
    load_joints E path idxs T = Ok out /\
    shape out = [Z.of_nat (length idxs); 22 * d] /\
    nth (Z.to_nat (Z.of_nat k * (22 * d) + (j * d + a))) (data out) f32_zero =
    f32_sub (cell f32_zero R (22 * d) (data file) i (j * d + a))
            (cell f32_zero R (22 * d) (data file) i0 (palm_idx * d + a)).
Proof.
  intros Hload Htab Hidx Hi0 Hi Hj Ha.
  assert (Hd : 1 <= d) by lia.
  assert (Hne : idxs <> []) by (destruct idxs; [discriminate | congruence]).
  pose proof Htab as [Hsh Hlen].
  eexists. split; [eapply load_joints_table; eassumption|].
  split; [reflexivity|]. cbn [data].
  set (C := 22 * d) in *.
  set (J := gathered_rows R C (data file) idxs).
  assert (HJ : length J = (length idxs * Z.to_nat C)%nat)
    by (apply (gathered_length R d idxs Hd Hidx); assumption).
  assert (Hk : (k < length idxs)%nat)
    by (apply nth_error_Some; congruence).
  assert (Hpos : 0 <= j * d + a < C) by (unfold C; nia).
  rewrite recentred_entry; [| lia | unfold C in *; nia | unfold C in *; nia].
  f_equal.
  - apply gathered_cell; auto; unfold C; lia.
  - replace (Z.to_nat d + Z.to_nat (Z.of_nat k * C + (j * d + a)) mod Z.to_nat d)%nat
      with (Z.to_nat (Z.of_nat 0 * C + (palm_idx * d + a))).
    + apply gathered_cell; auto; unfold C, palm_idx; lia.
    + unfold palm_idx. cbn [Z.of_nat]. rewrite Z.mul_0_l, Z.add_0_l, Z.mul_1_l.
      replace (Z.to_nat (Z.of_nat k * C + (j * d + a)))
        with (Z.to_nat a + (k * 22 + Z.to_nat j) * Z.to_nat d)%nat
        by (unfold C; nia).
      rewrite Nat.Div0.mod_add, Nat.mod_small by lia. lia.
Qed.

(** X5: a frame index outside [-R, R) for a joint file of [R] rows makes
    [load_joints] raise [IndexError], wherever it stands among the
    indices. *)
Theorem load_joints_index_error E (path : string) (idxs : list Z) (T : Z)
    (file : ndarray f32) (R : Z) (rest : list Z) (i : Z) :
  np_loadtxt E path = Ok file ->
  shape file = R :: rest ->
  In i idxs ->
  ~ valid_idx R i ->
  load_joints E path idxs T = Err IndexError.
Proof.
  intros Hload Hsh Hin Hbad.
  unfold load_joints. rewrite Hload. cbn [bind].
  unfold take_rows. rewrite Hsh.
  rewrite (mapM_some_error _ IndexError); [reflexivity | |].
  - intros x _. destruct (_ && _); eauto.
  - exists i. split; [assumption|].
    unfold valid_idx, wrap_index in *.
    destruct (i <? 0) eqn:Hneg;
      [apply Z.ltb_lt in Hneg | apply Z.ltb_ge in Hneg].
    + destruct (Z.leb_spec 0 (i + R)); [lia | reflexivity].
    + destruct (Z.leb_spec 0 i); [|lia].
      destruct (Z.ltb_spec i R); [lia | reflexivity].
Qed.

(** X6: [load_joints] raises [ValueError] when no frame is selected, and
    when the rows of the file cannot be split into 22 joints. *)
Theorem load_joints_shape_error E (path : string) (idxs : list Z) (T : Z)
    (file : ndarray f32) (R : Z) (rest : list Z) :
  np_loadtxt E path = Ok file ->
  shape file = R :: rest ->
  Forall (valid_idx R) idxs ->
  idxs = [] \/ size_of rest mod 22 <> 0 ->
  load_joints E path idxs T = Err ValueError.
Proof.
  intros Hload Hsh Hidx Hbad.
  unfold load_joints. rewrite Hload. cbn [bind].
  rewrite (take_rows_ok file R rest idxs Hsh Hidx). cbn [bind shape0 shape].
  unfold reshape_infer. cbn [shape size_of fold_right].
  fold (size_of rest).
  set (n := Z.of_nat (length idxs)).
  destruct (Z.leb_spec (n * (22 * 1)) 0) as [Hle|Hgt]; [reflexivity|].
  cbn [orb].
  destruct Hbad as [->|Hmod]; [simpl in n; lia|].
  replace (n * size_of rest) with (size_of rest * n) by ring.
  replace (n * (22 * 1)) with (22 * n) by ring.
  rewrite Z.mul_mod_distr_r by lia.
  destruct (Z.eqb_spec (size_of rest mod 22 * n) 0) as [H0|]; [nia|].
  reflexivity.
Qed.

End JointLoaderMore.

(* ===================================================================== *)
(** ** The image loader *)
(* ===================================================================== *)

Section ImageLoader.
Variables gvar_params aug_spec : Type.
Implicit Types (E : externals gvar_params aug_spec)
  (td : transform_dict gvar_params aug_spec).

(** A frame that opens as an [H x W] image with at least one pixel is
    loaded as its normalisation, [H * W] bytes. *)
Lemma load_frame_normalized E (dir : string) (mode : naming) (H W idx : Z)
    (img : ndarray Z) :
  pil_open_resize E (os_path_join dir (file_name mode idx)) W H = Ok img ->
  table H W img ->
  data img <> [] ->
  exists fr,
    load_frame E dir mode H W None idx = Ok fr /\
    Z.of_nat (length fr) = H * W /\
    (forall v, In v fr -> 0 <= v <= 255) /\
    (exists out, normalize img = Ok out /\ fr = data out).
Proof.
  intros Hopen [Hsh Hlen] Hne.
  assert (Hnorm : exists lo den,
            normalize img = Ok (nd_map (normalize_pixel lo den) img)).
  { rewrite normalize_unfold. destruct (data img); [congruence | eauto]. }
  destruct Hnorm as [lo [den Hnorm]].
  unfold load_frame. rewrite Hopen. cbn [bind]. rewrite Hnorm. cbn [bind].
  unfold nd_map. cbn [shape data]. rewrite Hsh.
  rewrite !Z.eqb_refl. cbn [andb].
  eexists. split; [reflexivity|].
  split; [rewrite !length_map; assumption|].
  split.
  - intros v Hv. apply in_map_iff in Hv. destruct Hv as [u [<- _]].
    pose proof (Z.mod_pos_bound u 256 ltac:(lia)). lia.
  - eexists. split; [reflexivity|]. cbn [data].
    apply map_id_in. intros v Hv. apply in_map_iff in Hv.
    destruct Hv as [u [<- _]].
    apply Z.mod_small.
    pose proof (normalize_pixel_byte lo den u). lia.
Qed.

Lemma concat_length_const {A : Type} (c : nat) (ls : list (list A)) :
  (forall l, In l ls -> length l = c) ->
  length (concat ls) = (length ls * c)%nat.
Proof.
  induction ls as [|l ls IH]; intros H; simpl; [reflexivity|].
  rewrite length_app, (H l (or_introl eq_refl)), IH; [reflexivity|].
  intros l' Hl'. apply H. right. assumption.
Qed.

Lemma mapM_each {A B : Type} (f : A -> result B) (P : B -> Prop)
    (l : list A) :
  (forall a, In a l -> exists b, f a = Ok b /\ P b) ->
  exists bs, mapM f l = Ok bs /\ length bs = length l /\ Forall P bs.
Proof.
  induction l as [|a l IH]; intros H; simpl.
  - exists []. auto.
  - destruct (H a (or_introl eq_refl)) as [b [Hb HP]].
    destruct IH as [bs [Hbs [Hlen HPs]]];
      [intros x Hx; apply H; right; assumption|].
    rewrite Hb, Hbs. simpl. exists (b :: bs).
    split; [reflexivity|]. split; [simpl; congruence | constructor; assumption].
Qed.

Lemma slice_concat_const {A : Type} (c : nat) (ls : list (list A)) :
  (forall l, In l ls -> length l = c) ->
  forall (k : nat) (l : list A),
    nth_error ls k = Some l ->
    slice (concat ls) (Z.of_nat (k * c)) (Z.of_nat c) = l.
Proof.
  unfold slice. rewrite Nat2Z.id.
  induction ls as [|l0 ls IH]; intros Hc k l Hk.
  - destruct k; discriminate.
  - pose proof (Hc l0 (or_introl eq_refl)) as Hl0.
    cbn [concat]. destruct k as [|k].
    + injection Hk as <-. cbn [Nat.mul Z.of_nat Z.to_nat skipn].
      rewrite <- Hl0, firstn_app, Nat.sub_diag, firstn_all.
      cbn [firstn]. apply app_nil_r.
    + cbn [nth_error] in Hk. rewrite Nat2Z.id.
      rewrite skipn_app, Hl0, skipn_all2 by lia. cbn [app].
      replace (S k * c - c)%nat with (k * c)%nat by lia.
      rewrite <- (Nat2Z.id (k * c)).
      apply IH; [|assumption].
      intros l' Hl'. apply Hc. right. assumption.
Qed.

(** X7: without the key ["gvar"], when every selected frame opens as an
    [H x W] image, [load_image_sequence] returns an array of shape
    [(len(frame_idxs), 1, H, W)] of bytes, whose [k]-th block is the
    normalisation of the [k]-th selected frame. *)
Theorem load_image_sequence_frames E (dir : string) (idxs : list Z) (T : Z)
    td (mode : naming) (H W : Z) (imgs : Z -> ndarray Z) :
  td_resize td = Some (H, W) ->
  td_gvar td = None ->
  1 <= H -> 1 <= W ->
  (forall idx, In idx idxs ->
     pil_open_resize E (os_path_join dir (file_name mode idx)) W H =
       Ok (imgs idx) /\
     table H W (imgs idx)) ->
  exists out,
    load_image_sequence E dir idxs T td mode = Ok out /\
    shape out = [Z.of_nat (length idxs); 1; H; W] /\
    Z.of_nat (length (data out)) = Z.of_nat (length idxs) * (H * W) /\
    (forall v, In v (data out) -> 0 <= v <= 255) /\
    (forall (k : nat) (idx : Z),
       nth_error idxs k = Some idx ->
       exists frame,
         normalize (imgs idx) = Ok frame /\
         slice (data out) (Z.of_nat k * (H * W)) (H * W) = data frame).
Proof.
  intros Hres Hgv HH HW Himgs.
  unfold load_image_sequence. rewrite Hres, Hgv.
  destruct (Z.ltb_spec H 0); [lia|]. destruct (Z.ltb_spec W 0); [lia|].
  cbn [orb].
  destruct (mapM_each (load_frame E dir mode H W None)
              (fun fr => length fr = Z.to_nat (H * W) /\
                         forall v, In v fr -> 0 <= v <= 255) idxs)
    as [frames [Hm [Hlen Hall]]].
  { intros idx Hidx. destruct (Himgs idx Hidx) as [Hopen Htab].
    assert (Hne : data (imgs idx) <> []).
    { destruct Htab as [_ Hl]. destruct (data (imgs idx)); [simpl in Hl; nia|].
      discriminate. }
    destruct (load_frame_normalized E dir mode H W idx _ Hopen Htab Hne)
      as [fr [Hfr [Hl [Hr _]]]].
    exists fr. split; [assumption|]. split; [lia | assumption]. }
  rewrite Hm. cbn [bind]. eexists. split; [reflexivity|].
  split; [reflexivity|]. cbn [data]. rewrite Forall_forall in Hall.
  split; [|split].
  - rewrite (concat_length_const (Z.to_nat (H * W))).
    + rewrite Hlen. nia.
    + intros l Hl. apply (Hall l Hl).
  - intros v Hv. apply in_concat in Hv. destruct Hv as [fr [Hfr Hv]].
    apply (proj2 (Hall fr Hfr)). assumption.
  - intros k idx Hk.
    pose proof (nth_error_In _ _ Hk) as Hidx.
    destruct (Himgs idx Hidx) as [Hopen Htab].
    assert (Hne : data (imgs idx) <> []).
    { destruct Htab as [_ Hl]. destruct (data (imgs idx)); [simpl in Hl; nia|].
      discriminate. }
    destruct (load_frame_normalized E dir mode H W idx _ Hopen Htab Hne)
      as [fr [Hfr [_ [_ [frame [Hnorm Hdata]]]]]].
    destruct (proj2 (mapM_nth _ _ _ Hm) k idx Hk) as [fr' [Hk' Hfr']].
    rewrite Hfr in Hfr'. injection Hfr' as <-.
    exists frame. split; [assumption|]. rewrite <- Hdata.
    replace (Z.of_nat k * (H * W))
      with (Z.of_nat (k * Z.to_nat (H * W))) by nia.
    replace (H * W) with (Z.of_nat (Z.to_nat (H * W))) at 2 by nia.
    apply slice_concat_const; [|assumption].
    intros l Hl. apply (Hall l Hl).
Qed.

(** X8: [load_image_sequence] stops at the first frame that cannot be
    opened and raises its exception, whatever follows in the index list. *)
Theorem load_image_sequence_first_error E (dir : string)
    (pre post : list Z) (i T : Z) td (mode : naming) (H W : Z) (e : exn) :
  td_resize td = Some (H, W) ->
  0 <= H -> 0 <= W ->
  (forall idx, In idx pre ->
     exists fr, load_frame E dir mode H W (td_gvar td) idx = Ok fr) ->
  pil_open_resize E (os_path_join dir (file_name mode i)) W H = Err e ->
  load_image_sequence E dir (pre ++ i :: post) T td mode = Err e.
Proof.
  intros Hres HH HW Hpre Hfail.
  unfold load_image_sequence. rewrite Hres.
  destruct (Z.ltb_spec H 0); [lia|]. destruct (Z.ltb_spec W 0); [lia|].
  cbn [orb].
  rewrite (mapM_first_error _ e pre post i Hpre); [reflexivity|].
  unfold load_frame. rewrite Hfail. reflexivity.
Qed.

(** X9: [load_image_sequence] on its edges: without the key ["resize"] it
    raises [KeyError] and with a negative size [ValueError], both before any
    file is opened; with no frame selected it returns the empty array of
    shape [(0, 1, H, W)]. *)
Theorem load_image_sequence_config_error E (dir : string) (idxs : list Z)
    (T : Z) td (mode : naming) :
  (td_resize td = None ->
   load_image_sequence E dir idxs T td mode = Err KeyError) /\
  (forall H W, td_resize td = Some (H, W) -> H < 0 \/ W < 0 ->
   load_image_sequence E dir idxs T td mode = Err ValueError) /\
  (forall H W, td_resize td = Some (H, W) -> 0 <= H -> 0 <= W ->
   load_image_sequence E dir [] T td mode =
   Ok (mk_ndarray [0; 1; H; W] [])).
Proof.
  unfold load_image_sequence. split; [intros ->; reflexivity|]. split.
  - intros H W -> Hneg.
    destruct (Z.ltb_spec H 0); [reflexivity|].
    destruct (Z.ltb_spec W 0); [reflexivity | lia].
  - intros H W -> HH HW.
    destruct (Z.ltb_spec H 0); [lia|]. destruct (Z.ltb_spec W 0); [lia|].
    reflexivity.
Qed.

End ImageLoader.

(* ===================================================================== *)
(** ** The frame files *)
(* ===================================================================== *)

Lemma str_of_Z_inj (a b : Z) : str_of_Z a = str_of_Z b -> a = b.
Proof.
  unfold str_of_Z. intros H.
  assert (Hint : forall z,
            NilZero.int_of_string (NilZero.string_of_int (Z.to_int z)) =
            Some (Z.to_int z)).
  { intros z. apply NilZero.isi; destruct z as [|p|p]; cbn [Z.to_int];
      try discriminate; intros Hp; injection Hp as Hp;
      exact (Unsigned.to_uint_nonnil p Hp). }
  pose proof (Hint a) as Ha. rewrite H, Hint in Ha. injection Ha as Ha.
  rewrite <- (DecimalZ.of_to a), <- (DecimalZ.of_to b), Ha. reflexivity.
Qed.

Lemma string_length_append (a b : string) :
  String.length (a ++ b) = (String.length a + String.length b)%nat.
Proof.
  induction a as [|c a IH]; [reflexivity|].
  cbn [String.append String.length]. rewrite IH. reflexivity.
Qed.

Lemma append_inj_l (p a b : string) :
  (p ++ a)%string = (p ++ b)%string -> a = b.
Proof.
  induction p as [|c p IH]; cbn [String.append]; intros H; [assumption|].
  injection H as H. apply IH. assumption.
Qed.

Lemma append_inj_r (s a b : string) :
  (a ++ s)%string = (b ++ s)%string -> a = b.
Proof.
  revert b. induction a as [|c a IH]; intros b H.
  - destruct b as [|c' b]; [reflexivity|].
    apply (f_equal String.length) in H.
    cbn [String.append String.length] in H.
    rewrite string_length_append in H. lia.
  - destruct b as [|c' b].
    + apply (f_equal String.length) in H.
      cbn [String.append String.length] in H.
      rewrite string_length_append in H. lia.
    + cbn [String.append] in H. injection H as -> H.
      f_equal. apply IH. assumption.
Qed.

Lemma file_name_inj (mode : naming) (i j : Z) :
  file_name mode i = file_name mode j -> i = j.
Proof.
  destruct mode; unfold file_name; intros H.
  - apply append_inj_r in H. apply str_of_Z_inj. assumption.
  - apply append_inj_l in H. apply append_inj_r in H.
    apply str_of_Z_inj. assumption.
Qed.

Lemma string_of_uint_head (d : Decimal.uint) (s : string) :
  starts_with_slash (NilZero.string_of_uint d ++ s) = false.
Proof. destruct d; reflexivity. Qed.

Lemma file_name_relative (mode : naming) (i : Z) :
  starts_with_slash (file_name mode i) = false.
Proof.
  destruct mode; [|reflexivity].
  unfold file_name, str_of_Z.
  destruct i as [|p|p]; cbn [Z.to_int NilZero.string_of_int].
  - reflexivity.
  - apply string_of_uint_head.
  - reflexivity.
Qed.

Lemma os_path_join_inj (dir a b : string) :
  starts_with_slash a = false -> starts_with_slash b = false ->
  os_path_join dir a = os_path_join dir b -> a = b.
Proof.
  unfold os_path_join. intros -> ->.
  destruct (ends_with_slash dir).
  - apply append_inj_l.
  - destruct dir as [|c dir]; [auto|].
    intros H. apply append_inj_l in H. apply append_inj_l in H.
    assumption.
Qed.

(** X10: [load_image_sequence] reads different frame indices from different
    files, in both naming conventions. *)
Theorem frame_paths_distinct (image_dir : string) (mode : naming)
    (i j : Z) :
  i <> j ->
  os_path_join image_dir (file_name mode i) <>
  os_path_join image_dir (file_name mode j).
Proof.
  intros Hne H. apply Hne.
  apply os_path_join_inj in H; try apply file_name_relative.
  apply (file_name_inj mode). assumption.
Qed.


(* ===================================================================== *)
(** ** The retrieval, further *)
(* ===================================================================== *)

Lemma py_index_out_of_range {A : Type} (l : list A) (i : Z) :
  i < - Z.of_nat (length l) \/ Z.of_nat (length l) <= i ->
  py_index l i = Err IndexError.
Proof.
  intros H. unfold py_index, wrap_index.
  destruct (i <? 0) eqn:Hneg;
    [apply Z.ltb_lt in Hneg | apply Z.ltb_ge in Hneg].
  - destruct (Z.leb_spec 0 (i + Z.of_nat (length l))); [lia | reflexivity].
  - destruct (Z.leb_spec 0 i); [|lia].
    destruct (Z.ltb_spec i (Z.of_nat (length l))); [lia | reflexivity].
Qed.

Lemma py_index_negative {A : Type} (l : list A) (i : Z) :
  - Z.of_nat (length l) <= i < 0 ->
  py_index l i = py_index l (i + Z.of_nat (length l)).
Proof.
  intros H. unfold py_index, wrap_index.
  destruct (Z.ltb_spec i 0); [|lia].
  destruct (Z.ltb_spec (i + Z.of_nat (length l)) 0); [lia|].
  reflexivity.
Qed.

Section DatasetMore.
Variables gvar_params aug_spec : Type.
Implicit Types (E : externals gvar_params aug_spec)
  (ds : Dataset gvar_params aug_spec)
  (td : transform_dict gvar_params aug_spec).

(** X12: [__getitem__] raises [IndexError] for an index outside
    [-len, len), and a negative index inside it retrieves the item counted
    from the end. *)
Theorem getitem_index_range E ds (idx : Z) :
  (idx < - dataset_len ds \/ dataset_len ds <= idx ->
   getitem E ds idx = Err IndexError) /\
  (- dataset_len ds <= idx < 0 ->
   getitem E ds idx = getitem E ds (idx + dataset_len ds)).
Proof.
  unfold dataset_len. split.
  - intros H. pose proof (py_index_out_of_range (data_list ds) idx H) as Hrow.
    unfold getitem, select_label, data_at. rewrite Hrow. cbn [bind].
    destruct (num_classes ds =? 14); [reflexivity|].
    destruct (num_classes ds =? 28); reflexivity.
  - intros H. pose proof (py_index_negative (data_list ds) idx H) as Hrow.
    unfold getitem, select_label, fetch_raw, data_at. rewrite Hrow.
    reflexivity.
Qed.

(** X13: with a cache attached and no augmentation, a retrieval depends on
    neither the files, nor the base directory, nor [D]. *)
Theorem cached_getitem_reads_nothing E (E' : externals gvar_params aug_spec)
    ds (idx : Z) (dir : string) (d : Z) :
  cache ds <> None ->
  td_aug (transform ds) = Some None ->
  getitem E' (relocated dir d ds) idx = getitem E ds idx.
Proof.
  intros Hc Haug. unfold getitem, fetch_raw, augment, relocated.
  cbn [cache transform T D base_dir data_list num_classes].
  destruct (cache ds) as [c|]; [|congruence].
  rewrite Haug. reflexivity.
Qed.

(** X14: a transform dictionary without the key ["aug"] is accepted by the
    constructor, but no retrieval from the dataset returns: once the pair is
    fetched, [__getitem__] raises [KeyError]. *)
Theorem getitem_without_aug_key E (dl : list (list Z)) (dir : string)
    (d t nc : Z) td (c : option Cache) :
  nc = 14 \/ nc = 28 ->
  td_aug td = None ->
  exists ds,
    dataset_init dl dir d t nc td c = Ok ds /\
    (forall idx out, getitem E ds idx <> Ok out) /\
    (forall idx label nf raw,
       select_label ds idx = Ok label ->
       data_at ds idx 6 = Ok nf ->
       fetch_raw E ds idx = Ok raw ->
       getitem E ds idx = Err KeyError).
Proof.
  intros Hnc Haug. unfold dataset_init.
  assert (Hb : (nc =? 14) || (nc =? 28) = true).
  { destruct Hnc as [->| ->]; reflexivity. }
  rewrite Hb. eexists. split; [reflexivity|]. split.
  - intros idx out Hout.
    apply getitem_Ok_stages in Hout.
    destruct Hout as [label [nf [raw [pair [_ [_ [_ [Ha _]]]]]]]].
    unfold augment in Ha. cbn [transform] in Ha. rewrite Haug in Ha.
    discriminate.
  - intros idx label nf raw Hl Hnf Hraw.
    unfold getitem. rewrite Hl, Hnf, Hraw. cbn [bind].
    unfold augment. cbn [transform]. rewrite Haug. reflexivity.
Qed.

(** X15: the padding of [__getitem__] is decided by the joint sequence
    alone: with [n] joint frames and [m] image frames the returned tensors
    have [max n T] and [m + max 0 (T - n)] frames. *)
Theorem getitem_frame_counts E ds (idx lab nf : Z)
    (raw : ndarray f32 * ndarray Z) (jp : ndarray f32) (im : ndarray Z)
    (n m w c h w' : Z) :
  select_label ds idx = Ok (Some lab) ->
  data_at ds idx 6 = Ok nf ->
  fetch_raw E ds idx = Ok raw ->
  augment E ds raw = Ok (jp, im) ->
  has_frames jp n [w] ->
  has_frames im m [c; h; w'] ->
  exists j i,
    getitem E ds idx = Ok (j, i, lab) /\
    has_frames j (Z.max n (T ds)) [w] /\
    has_frames i (m + Z.max 0 (T ds - n)) [c; h; w'].
Proof.
  intros Hl Hnf Hraw Haug Hj Hi.
  rewrite (getitem_stages _ _ E ds idx nf _ raw (jp, im) Hl Hnf Hraw Haug).
  pose proof (has_frames_map scale_pixel im m _ Hi) as Hi'.
  unfold assemble, shape0. cbn [fst snd].
  pose proof Hj as [Hshj _]. rewrite Hshj. cbn [bind].
  unfold pad_and_return.
  destruct (Z.ltb_spec n (T ds)) as [Hn|Hn].
  - destruct (pad0_frames f32_zero 2 jp n (T ds) [w] Hj eq_refl ltac:(lia))
      as [j [Hpj [Hfj _]]].
    destruct (pad0_frames f32_zero 4 (nd_map scale_pixel im) m
                (m + (T ds - n)) [c; h; w'] Hi' eq_refl ltac:(lia))
      as [i [Hpi [Hfi _]]].
    replace (m + (T ds - n) - m) with (T ds - n) in Hpi by lia.
    exists j, i. rewrite Hpj. cbn [bind]. rewrite Hpi. cbn [bind].
    rewrite Z.max_r by lia. rewrite (Z.max_r 0) by lia. auto.
  - exists jp, (nd_map scale_pixel im). cbn [bind].
    rewrite Z.max_l by lia. rewrite (Z.max_l 0) by lia.
    rewrite Z.add_0_r. auto.
Qed.

(** X16: with a cache of 8 bit image sequences and no augmentation, every
    value of a returned image tensor lies in the unit interval, padding
    included. *)
Theorem cached_image_unit_range E ds (c : Cache) (idx : Z)
    (out : ndarray f32 * ndarray f32 * Z) :
  cache ds = Some c ->
  td_aug (transform ds) = Some None ->
  (forall im, In im (cache_image c) -> pixels_8bit im) ->
  getitem E ds idx = Ok out ->
  forall x, In x (data (snd (fst out))) ->
    f32_le f32_zero x /\ f32_le x f32_one.
Proof.
  intros Hc Haug Hpix Hout x Hx.
  apply getitem_Ok_stages in Hout.
  destruct Hout as [label [nf [raw [pair [_ [_ [Hraw [Ha Hasm]]]]]]]].
  unfold augment in Ha. rewrite Haug in Ha. injection Ha as <-.
  unfold fetch_raw in Hraw. rewrite Hc in Hraw.
  apply bind_Ok in Hraw. destruct Hraw as [ci [_ Hraw]].
  apply bind_Ok in Hraw. destruct Hraw as [jp [_ Hraw]].
  apply bind_Ok in Hraw. destruct Hraw as [im [Him Hraw]].
  injection Hraw as <-. apply py_index_In in Him.
  pose proof (Hpix im Him) as Him8.
  unfold assemble in Hasm. cbn [fst snd] in Hasm.
  apply bind_Ok in Hasm. destruct Hasm as [n [_ Hasm]].
  unfold pad_and_return in Hasm.
  apply bind_Ok in Hasm. destruct Hasm as [[j i] [Hpad Hasm]].
  destruct label as [l|]; [|discriminate]. injection Hasm as <-.
  cbn [fst snd] in Hx.
  assert (Hin : In x (map scale_pixel (data im)) \/ x = f32_zero).
  { destruct (n <? T ds).
    - apply bind_Ok in Hpad. destruct Hpad as [j' [_ Hpad]].
      apply bind_Ok in Hpad. destruct Hpad as [i' [Hi' Hpad]].
      injection Hpad as <- <-.
      unfold pad0 in Hi'. cbn [shape nd_map data] in Hi'.
      destruct (shape im) as [|m rest]; [discriminate|].
      destruct (_ && _); [|discriminate]. injection Hi' as <-.
      cbn [data] in Hx. apply in_app_or in Hx.
      destruct Hx as [Hx|Hx]; [left; assumption|].
      right. apply repeat_spec in Hx. assumption.
    - injection Hpad as <- <-. left. exact Hx. }
  destruct Hin as [Hin| ->].
  - apply in_map_iff in Hin. destruct Hin as [v [<- Hv]].
    apply scale_pixel_bounds. apply Him8. assumption.
  - split; reflexivity.
Qed.

End DatasetMore.

(* ===================================================================== *)
(** ** The data list of the driver *)
(* ===================================================================== *)

Lemma py_index_nth_error {A : Type} (l : list A) (c : nat) (a : A) :
  nth_error l c = Some a -> py_index l (Z.of_nat c) = Ok a.
Proof.
  intros H. assert (Hlt : (c < length l)%nat).
  { apply nth_error_Some. rewrite H. discriminate. }
  unfold py_index, wrap_index.
  destruct (Z.ltb_spec (Z.of_nat c) 0); [lia|].
  destruct (Z.leb_spec 0 (Z.of_nat c)); [|lia].
  destruct (Z.ltb_spec (Z.of_nat c) (Z.of_nat (length l))); [|lia].
  cbn [andb]. rewrite Nat2Z.id, H. reflexivity.
Qed.

Lemma py_index_nth (l : list Z) (c : nat) :
  (c < length l)%nat -> py_index l (Z.of_nat c) = Ok (nth c l 0).
Proof.
  intros H. apply py_index_nth_error. apply nth_error_nth'. assumption.
Qed.

Lemma column_nth (dl : list (list Z)) (c : nat) :
  (forall row, In row dl -> (c < length row)%nat) ->
  column dl (Z.of_nat c) = Ok (map (fun row => nth c row 0) dl).
Proof.
  intros H. unfold column. apply mapM_ok.
  intros row Hrow. apply py_index_nth. apply H. assumption.
Qed.

Lemma imap_map_combine {A B : Type} (f : nat -> A -> B) (l : list A) :
  imap f l = map (fun p => f (fst p) (snd p)) (combine (seq 0 (length l)) l).
Proof. reflexivity. Qed.

Lemma select_rows_map {A B : Type} (p : A -> bool) (g : A -> B)
    (l : list A) :
  select_rows (map p l) (map g l) = map g (filter p l).
Proof.
  unfold select_rows. induction l as [|a l IH]; [reflexivity|].
  cbn [map combine filter fst]. destruct (p a); cbn [map snd]; rewrite IH;
    reflexivity.
Qed.

(** The validation list, computed from the positions and rows of the data
    list. *)
Lemma val_list_filter (dl : list (list Z)) (s : Z) :
  (forall row, In row dl -> (2 <= length row)%nat) ->
  val_list (Array2 dl) s =
  Ok (map indexed_row
        (filter (fun p => nth 2 (indexed_row p) 0 =? s)
           (combine (seq 0 (length dl)) dl))).
Proof.
  intros Hw. unfold val_list, with_original_index. cbn [bind].
  rewrite imap_map_combine.
  change (fun p : nat * list Z => snd p ++ [Z.of_nat (fst p)])
    with indexed_row.
  rewrite (column_nth _ 2).
  - cbn [bind]. f_equal. rewrite <- select_rows_map. f_equal.
    rewrite !map_map. reflexivity.
  - intros row Hrow. apply in_map_iff in Hrow.
    destruct Hrow as [[i r] [<- Hin]]. apply in_combine_r in Hin.
    unfold indexed_row. cbn [fst snd]. rewrite length_app. cbn [length].
    pose proof (Hw r Hin). lia.
Qed.

Lemma in_combine_seq {A : Type} (l : list A) (i : nat) (a : A) (k : nat) :
  In (i, a) (combine (seq k (length l)) l) <->
  (k <= i)%nat /\ nth_error l (i - k) = Some a.
Proof.
  revert k. induction l as [|b l IH]; intros k; cbn [length seq combine].
  - split; [intros [] | intros [_ H]].
    destruct (i - k)%nat; discriminate.
  - cbn [In]. rewrite IH. split.
    + intros [H|[Hle Hn]].
      * injection H as <- <-. split; [lia|]. rewrite Nat.sub_diag.
        reflexivity.
      * split; [lia|]. replace (i - k)%nat with (S (i - S k)) by lia.
        exact Hn.
    + intros [Hle Hn]. destruct (Nat.eq_dec i k) as [->|Hne].
      * left. rewrite Nat.sub_diag in Hn. injection Hn as <-. reflexivity.
      * right. split; [lia|].
        replace (i - k)%nat with (S (i - S k)) in Hn by lia. exact Hn.
Qed.

Lemma insert_unique_In (x y : Z) (l : list Z) :
  In y (insert_unique x l) <-> y = x \/ In y l.
Proof.
  induction l as [|z l IH]; cbn [insert_unique In].
  - intuition.
  - destruct (Z.ltb_spec x z); [cbn [In]; intuition|].
    destruct (Z.eqb_spec x z) as [->|Hne]; cbn [In].
    + intuition.
    + rewrite IH. intuition.
Qed.

Lemma np_unique_In (y : Z) (l : list Z) : In y (np_unique l) <-> In y l.
Proof.
  induction l as [|x l IH]; [reflexivity|].
  cbn [np_unique fold_right In]. rewrite insert_unique_In.
  fold (np_unique l). rewrite IH. intuition.
Qed.

Lemma insert_unique_increasing (x : Z) (l : list Z) :
  increasing l -> increasing (insert_unique x l).
Proof.
  induction l as [|y l IH]; [intros; exact I|].
  intros Hinc. cbn [insert_unique].
  destruct (Z.ltb_spec x y) as [Hlt|Hge].
  - split; assumption.
  - destruct (Z.eqb_spec x y) as [->|Hne]; [assumption|].
    destruct l as [|z l].
    + cbn [insert_unique]. split; [lia | exact I].
    + destruct Hinc as [Hyz Hinc]. specialize (IH Hinc).
      cbn [insert_unique] in IH |- *.
      destruct (x <? z); [split; [lia | assumption]|].
      destruct (x =? z); split; assumption.
Qed.

Lemma np_unique_increasing (l : list Z) : increasing (np_unique l).
Proof.
  induction l as [|x l IH]; [exact I|].
  apply insert_unique_increasing. assumption.
Qed.

Lemma increasing_above (x : Z) (l : list Z) :
  increasing (x :: l) -> forall y, In y l -> x < y.
Proof.
  revert x. induction l as [|z l IH]; intros x H y Hy; [destruct Hy|].
  destruct H as [Hxz H]. destruct Hy as [<-|Hy]; [assumption|].
  pose proof (IH z H y Hy). lia.
Qed.

Lemma increasing_NoDup (l : list Z) : increasing l -> NoDup l.
Proof.
  induction l as [|x l IH]; intros H; constructor.
  - intros Hin. pose proof (increasing_above x l H x Hin). lia.
  - apply IH. destruct l; [exact I | apply H].
Qed.

Lemma filter_split_perm {A : Type} (p : A -> bool) (l : list A) :
  Permutation (filter p l ++ filter (fun x => negb (p x)) l) l.
Proof.
  induction l as [|a l IH]; [constructor|].
  cbn [filter]. destruct (p a); cbn [negb app].
  - constructor. assumption.
  - apply Permutation_sym, Permutation_cons_app, Permutation_sym.
    assumption.
Qed.

(** Lists filtered by each of their keys, put together. *)
Lemma concat_by_key_perm {A : Type} (key : A -> Z) (ks : list Z) :
  NoDup ks ->
  forall l : list A,
  (forall x, In x l -> In (key x) ks) ->
  Permutation (concat (map (fun k => filter (fun x => key x =? k) l) ks)) l.
Proof.
  induction 1 as [|k ks Hk Hnd IH]; intros l Hl.
  - destruct l as [|x l]; [constructor|].
    destruct (Hl x (or_introl eq_refl)).
  - cbn [map concat].
    set (l' := filter (fun x => negb (key x =? k)) l).
    assert (Hsame : map (fun k' => filter (fun x => key x =? k') l) ks =
                    map (fun k' => filter (fun x => key x =? k') l') ks).
    { apply map_ext_in. intros k' Hk'. unfold l'.
      clear - Hk Hk'. induction l as [|x l IHl]; [reflexivity|].
      cbn [filter]. destruct (Z.eqb_spec (key x) k) as [Hx|Hx];
        cbn [negb filter].
      - destruct (Z.eqb_spec (key x) k') as [Hx'|Hx']; [|assumption].
        exfalso. apply Hk. congruence.
      - rewrite IHl. reflexivity. }
    rewrite Hsame.
    apply Permutation_trans
      with (filter (fun x => key x =? k) l ++ l');
      [|apply filter_split_perm].
    apply Permutation_app_head. apply IH.
    intros x Hx. unfold l' in Hx. apply filter_In in Hx.
    destruct Hx as [Hx Hne]. destruct (Hl x Hx) as [Heq|Hin]; [|assumption].
    rewrite <- Heq, Z.eqb_refl in Hne. discriminate.
Qed.

(** A data list file of one line, of one column or without any line gives a
    one-dimensional array: [training_pipeline] raises at [np.hstack] and
    [main] at [data_list[:, 2]]; on the zero-dimensional array of a file of
    one number, [len] raises first. *)
Lemma data_list_of_one_line (l : list Z) (v s : Z) :
  val_list (Array1 l) s = Err ValueError /\
  loop_val_lists (Array1 l) = Err IndexError /\
  val_list (Array0 v) s = Err TypeError /\
  loop_val_lists (Array0 v) = Err IndexError.
Proof. repeat split. Qed.

Section Driver.
Variables gvar_params aug_spec : Type.
Implicit Types (E : externals gvar_params aug_spec)
  (ds : Dataset gvar_params aug_spec).

(** X17: on the two-dimensional array of a data list file of at least two
    lines, the validation list of [training_pipeline] holds exactly the rows
    of the data list whose column 2 is the validation subject, each followed
    by its position in the data list. *)
Theorem val_list_rows (dl : list (list Z)) (s : Z) :
  (2 <= length dl)%nat ->
  (forall row, In row dl -> (3 <= length row)%nat) ->
  exists vl,
    val_list (Array2 dl) s = Ok vl /\
    forall r, In r vl <->
      exists i orig,
        nth_error dl i = Some orig /\
        py_index orig 2 = Ok s /\
        r = orig ++ [Z.of_nat i].
Proof.
  intros _ Hw. eexists. split.
  - apply val_list_filter. intros row Hrow. pose proof (Hw row Hrow). lia.
  - intros r. rewrite in_map_iff. split.
    + intros [[i orig] [<- Hin]]. apply filter_In in Hin.
      destruct Hin as [Hin Hs]. apply in_combine_seq in Hin.
      destruct Hin as [_ Hn]. rewrite Nat.sub_0_r in Hn.
      pose proof (Hw orig (nth_error_In _ _ Hn)) as Hlen.
      exists i, orig. split; [assumption|]. split; [|reflexivity].
      pose proof (py_index_nth orig 2 ltac:(lia)) as Hp.
      change (Z.of_nat 2) with 2 in Hp. rewrite Hp. f_equal.
      unfold indexed_row in Hs. cbn [fst snd] in Hs.
      rewrite app_nth1 in Hs by lia. apply Z.eqb_eq. assumption.
    + intros [i [orig [Hn [Hs ->]]]].
      pose proof (Hw orig (nth_error_In _ _ Hn)) as Hlen.
      exists (i, orig). split; [reflexivity|]. apply filter_In. split.
      * apply in_combine_seq. rewrite Nat.sub_0_r. split; [lia|assumption].
      * unfold indexed_row. cbn [fst snd]. rewrite app_nth1 by lia.
        pose proof (py_index_nth orig 2 ltac:(lia)) as Hp.
        change (Z.of_nat 2) with 2 in Hp. rewrite Hp in Hs.
        injection Hs as ->.
        apply Z.eqb_refl.
Qed.

(** X18: for a data list of seven columns and a cache with one entry per
    row, in order, the dataset built on a validation list fetches for each of
    its rows the cache entry of that row's position in the data list. *)
Theorem validation_row_cache_entry E ds (dl : list (list Z)) (s : Z)
    (vl : list (list Z)) (c : Cache) (k : nat) (r : list Z) :
  (forall row, In row dl -> length row = 7%nat) ->
  val_list (Array2 dl) s = Ok vl ->
  data_list ds = vl ->
  cache ds = Some c ->
  length (cache_joint c) = length dl ->
  length (cache_image c) = length dl ->
  nth_error vl k = Some r ->
  exists i orig j im,
    nth_error dl i = Some orig /\
    r = orig ++ [Z.of_nat i] /\
    nth_error (cache_joint c) i = Some j /\
    nth_error (cache_image c) i = Some im /\
    fetch_raw E ds (Z.of_nat k) = Ok (j, im).
Proof.
  intros Hw Hvl Hdl Hc Hlj Hli Hk.
  rewrite val_list_filter in Hvl
    by (intros row Hrow; rewrite (Hw row Hrow); lia).
  injection Hvl as Hvl.
  pose proof (nth_error_In _ _ Hk) as Hin. rewrite <- Hvl in Hin.
  apply in_map_iff in Hin. destruct Hin as [[i orig] [Hr Hin]].
  apply filter_In in Hin. destruct Hin as [Hin _].
  apply in_combine_seq in Hin. destruct Hin as [_ Hn].
  rewrite Nat.sub_0_r in Hn.
  assert (Hi : (i < length dl)%nat).
  { apply nth_error_Some. rewrite Hn. discriminate. }
  destruct (nth_error (cache_joint c) i) as [j|] eqn:Hj;
    [|apply nth_error_None in Hj; lia].
  destruct (nth_error (cache_image c) i) as [im|] eqn:Him;
    [|apply nth_error_None in Him; lia].
  exists i, orig, j, im.
  split; [assumption|]. split; [symmetry; exact Hr|].
  split; [assumption|]. split; [assumption|].
  unfold fetch_raw, data_at. rewrite Hc, Hdl.
  rewrite (py_index_nth_error vl k r Hk). cbn [bind].
  assert (H7 : py_index r 7 = Ok (Z.of_nat i)).
  { change 7 with (Z.of_nat 7). apply py_index_nth_error.
    rewrite <- Hr. unfold indexed_row. cbn [fst snd].
    pose proof (Hw orig (nth_error_In _ _ Hn)) as Hlen.
    rewrite nth_error_app2 by lia. rewrite Hlen. reflexivity. }
  rewrite H7. cbn [bind].
  rewrite (py_index_nth_error _ i j Hj). cbn [bind].
  rewrite (py_index_nth_error _ i im Him). reflexivity.
Qed.

(** X19: on the two-dimensional array of a data list file of at least two
    lines, the loop of [main] visits the subjects in increasing order, each
    once; every validation list is non-empty, and together they hold every
    row of the indexed data list exactly once. *)
Theorem loop_val_lists_partition (dl : list (list Z)) :
  (2 <= length dl)%nat ->
  (forall row, In row dl -> (3 <= length row)%nat) ->
  exists subs folds indexed,
    subjects (Array2 dl) = Ok subs /\
    loop_val_lists (Array2 dl) = Ok folds /\
    with_original_index (Array2 dl) = Ok indexed /\
    increasing subs /\
    length folds = length subs /\
    (forall f, In f folds -> f <> []) /\
    Permutation (concat folds) indexed.
Proof.
  intros _ Hw.
  set (pairs := combine (seq 0 (length dl)) dl).
  set (key := fun p : nat * list Z => nth 2 (indexed_row p) 0).
  set (subs := np_unique (map (fun row => nth 2 row 0) dl)).
  assert (Hsubs : subjects (Array2 dl) = Ok subs).
  { unfold subjects. change 2 with (Z.of_nat 2).
    rewrite column_nth; [reflexivity|].
    intros row Hrow. pose proof (Hw row Hrow). lia. }
  assert (Hkey : forall p, In p pairs -> key p = nth 2 (snd p) 0).
  { intros [i r] Hp. apply in_combine_r in Hp.
    unfold key, indexed_row. cbn [fst snd].
    pose proof (Hw r Hp). apply app_nth1. lia. }
  assert (Hfolds : loop_val_lists (Array2 dl) =
    Ok (map (fun s => map indexed_row
                        (filter (fun p => key p =? s) pairs)) subs)).
  { unfold loop_val_lists. rewrite Hsubs. cbn [bind].
    apply mapM_ok. intros s _. apply val_list_filter.
    intros row Hrow. pose proof (Hw row Hrow). lia. }
  exists subs. eexists. eexists. split; [exact Hsubs|].
  split; [exact Hfolds|]. split; [reflexivity|].
  split; [apply np_unique_increasing|].
  split; [apply length_map|]. split.
  - intros f Hf. apply in_map_iff in Hf. destruct Hf as [s [<- Hs]].
    apply (proj1 (np_unique_In _ _)) in Hs. apply in_map_iff in Hs.
    destruct Hs as [row [Hrow Hin]].
    destruct (In_nth_error _ _ Hin) as [i Hi].
    assert (Hp : In (i, row) pairs).
    { apply in_combine_seq. rewrite Nat.sub_0_r. split; [lia|assumption]. }
    assert (Hsel : In (i, row) (filter (fun p => key p =? s) pairs)).
    { apply filter_In. split; [assumption|].
      rewrite (Hkey _ Hp). cbn [snd]. apply Z.eqb_eq. assumption. }
    intros Hnil. apply (in_map indexed_row) in Hsel. rewrite Hnil in Hsel.
    destruct Hsel.
  - rewrite imap_map_combine.
    change (fun p : nat * list Z => snd p ++ [Z.of_nat (fst p)])
      with indexed_row.
    fold pairs.
    rewrite <- (map_map (fun s => filter (fun p => key p =? s) pairs)
                  (map indexed_row)).
    rewrite <- concat_map. apply Permutation_map.
    apply concat_by_key_perm.
    + apply increasing_NoDup, np_unique_increasing.
    + intros p Hp. rewrite (Hkey p Hp). apply (proj2 (np_unique_In _ _)).
      apply (in_map (fun row => nth 2 row 0)). destruct p as [i r]. apply in_combine_r in Hp.
      exact Hp.
Qed.

End Driver.

(* ===================================================================== *)
(** ** The further properties on the test data *)
(* ===================================================================== *)

Lemma byte_image_8bit : pixels_8bit byte_image.
Proof.
  intros v Hv. simpl in Hv.
  repeat (destruct Hv as [<-|Hv]; [lia|]). contradiction.
Defined.

Lemma normalize_8bit_exact_witness :
  normalize byte_image = Ok (mk_ndarray [2; 2] [0; 10; 21; 255]).
Proof.
  destruct (normalize_8bit_exact byte_image 10 250) as [H _].
  - exact byte_image_8bit.
  - split; [simpl; auto|].
    intros v Hv. simpl in Hv.
    repeat (destruct Hv as [<-|Hv]; [lia|]). contradiction.
  - split; [simpl; auto|].
    intros v Hv. simpl in Hv.
    repeat (destruct Hv as [<-|Hv]; [lia|]). contradiction.
  - lia.
  - exact H.
Defined.

Lemma normalize_idempotent_witness :
  exists out, normalize byte_image = Ok out /\ normalize out = Ok out.
Proof.
  apply (normalize_idempotent byte_image).
  - discriminate.
  - intros v Hv. pose proof (byte_image_8bit v Hv). lia.
Defined.

Lemma scale_pixel_unit_range_witness :
  f32_le f32_zero (scale_pixel 51) /\
  f32_le (scale_pixel 51) f32_one /\
  f32_lt (scale_pixel 51) (scale_pixel 52).
Proof.
  destruct (scale_pixel_unit_range 51) as [H1 [H2 [H3 _]]]; [lia|].
  split; [assumption|]. split; [assumption|]. apply H3. lia.
Defined.

(** The sampler asked for no index, and for a negative number of them. *)
Example get_samples_none :
  get_samples 0 9 0 = Ok [] /\ get_samples 0 9 (-1) = Err ValueError.
Proof. split; vm_compute; reflexivity. Qed.

Lemma load_joints_entry_witness :
  exists out,
    load_joints (one_joint_file small_joint_file) "" [0; 1] 2 = Ok out /\
    shape out = [2; 22] /\
    nth 22 (data out) f32_zero = S754_finite true 12582912 (-24).
Proof.
  destruct (load_joints_entry unit unit (one_joint_file small_joint_file) ""
              [0; 1] 2 small_joint_file 2 1 1 1 0 0 0)
    as [out [Hout [Hsh Hent]]].
  - reflexivity.
  - split; reflexivity.
  - repeat constructor; unfold valid_idx; lia.
  - reflexivity.
  - reflexivity.
  - lia.
  - lia.
  - exists out. split; [assumption|]. split; [exact Hsh | exact Hent].
Defined.

Lemma load_joints_index_error_witness :
  load_joints (one_joint_file small_joint_file) "" [0; 2] 2 = Err IndexError.
Proof.
  apply (load_joints_index_error unit unit (one_joint_file small_joint_file)
           "" [0; 2] 2 small_joint_file 2 [22] 2).
  - reflexivity.
  - reflexivity.
  - simpl. auto.
  - unfold valid_idx. lia.
Defined.

Lemma load_joints_shape_error_witness :
  load_joints (one_joint_file narrow_joint_file) "" [0; 1] 2 = Err ValueError.
Proof.
  apply (load_joints_shape_error unit unit (one_joint_file narrow_joint_file)
           "" [0; 1] 2 narrow_joint_file 2 [3]).
  - reflexivity.
  - reflexivity.
  - repeat constructor; unfold valid_idx; lia.
  - right. vm_compute. discriminate.
Defined.

Lemma load_image_sequence_frames_witness :
  exists out,
    load_image_sequence (one_image byte_image) "trial" [0; 1] 2
      plain_transform Shrec = Ok out /\
    shape out = [2; 1; 2; 2] /\
    slice (data out) 4 4 = [0; 10; 21; 255].
Proof.
  destruct (load_image_sequence_frames unit unit (one_image byte_image)
              "trial" [0; 1] 2 plain_transform Shrec 2 2
              (fun _ => byte_image))
    as [out [Hout [Hsh [_ [_ Hblock]]]]].
  - reflexivity.
  - reflexivity.
  - lia.
  - lia.
  - intros idx _. split; [reflexivity | split; reflexivity].
  - destruct (Hblock 1%nat 1 eq_refl) as [frame [Hnorm Hslice]].
    assert (Hf : Ok frame = Ok (mk_ndarray [2; 2] [0; 10; 21; 255]))
      by (rewrite <- Hnorm; vm_compute; reflexivity).
    injection Hf as ->.
    exists out. split; [assumption|]. split; [exact Hsh | exact Hslice].
Defined.

Lemma load_image_sequence_first_error_witness :
  load_image_sequence first_frame_only "trial" [0; 1; 2] 3 plain_transform
    Shrec = Err OSError.
Proof.
  apply (load_image_sequence_first_error unit unit first_frame_only "trial"
           [0] [2] 1 3 plain_transform Shrec 2 2 OSError).
  - reflexivity.
  - lia.
  - lia.
  - intros idx [<-|[]]. eexists. vm_compute. reflexivity.
  - reflexivity.
Defined.

Lemma frame_paths_distinct_witness :
  0 <> 1 /\
  os_path_join "trial" (file_name Shrec 0) <>
  os_path_join "trial" (file_name Shrec 1).
Proof.
  split; [lia|]. apply frame_paths_distinct. lia.
Defined.

(** The only item of a dataset has the indices 0 and -1. *)
Example getitem_last_item :
  getitem no_files (cached_dataset 4) (-1) =
  getitem no_files (cached_dataset 4) 0 /\
  getitem no_files (cached_dataset 4) 1 = Err IndexError.
Proof. split; vm_compute; reflexivity. Qed.

Lemma cached_getitem_reads_nothing_witness :
  getitem (one_joint_file small_joint_file)
    (relocated "elsewhere" 3 (cached_dataset 4)) 0 =
  getitem no_files (cached_dataset 4) 0.
Proof.
  apply cached_getitem_reads_nothing; [discriminate | reflexivity].
Defined.

Lemma getitem_without_aug_key_witness :
  exists ds,
    dataset_init [scenario_row] "data" 2 4 14 no_aug_transform
      (Some two_frame_cache) = Ok ds /\
    getitem no_files ds 0 = Err KeyError.
Proof.
  destruct (getitem_without_aug_key unit unit no_files [scenario_row] "data"
              2 4 14 no_aug_transform (Some two_frame_cache))
    as [ds [Hds [_ Hkey]]].
  - left. reflexivity.
  - reflexivity.
  - exists ds. split; [assumption|].
    unfold dataset_init in Hds. cbn [Z.eqb Pos.eqb orb] in Hds.
    injection Hds as <-.
    apply (Hkey 0 (Some 4) 10 (two_frame_joints, two_frame_images));
      reflexivity.
Defined.

Lemma three_frame_images_frames : has_frames three_frame_images 3 [1; 1; 2].
Proof. unfold has_frames. simpl. repeat split; lia. Defined.

Lemma getitem_frame_counts_witness :
  exists j i,
    getitem no_files (misaligned_dataset 4) 0 = Ok (j, i, 4) /\
    has_frames j 4 [2] /\
    has_frames i 5 [1; 1; 2].
Proof.
  destruct (getitem_frame_counts unit unit no_files (misaligned_dataset 4)
              0 4 10 (two_frame_joints, three_frame_images)
              two_frame_joints three_frame_images 2 3 2 1 1 2)
    as [j [i H]].
  - reflexivity.
  - reflexivity.
  - reflexivity.
  - reflexivity.
  - exact two_frame_joints_frames.
  - exact three_frame_images_frames.
  - exists j, i. exact H.
Defined.

Lemma cached_image_unit_range_witness :
  exists out,
    getitem no_files (cached_dataset 4) 0 = Ok out /\
    forall x, In x (data (snd (fst out))) ->
      f32_le f32_zero x /\ f32_le x f32_one.
Proof.
  assert (Hget : exists out, getitem no_files (cached_dataset 4) 0 = Ok out)
    by (eexists; vm_compute; reflexivity).
  destruct Hget as [out Hget]. exists out. split; [assumption|].
  apply (cached_image_unit_range unit unit no_files (cached_dataset 4)
           two_frame_cache 0 out).
  - reflexivity.
  - reflexivity.
  - intros im [<-|[]] v Hv. simpl in Hv.
    repeat (destruct Hv as [<-|Hv]; [lia|]). contradiction.
  - assumption.
Defined.

Lemma small_data_list_width (row : list Z) :
  In row small_data_list -> length row = 7%nat.
Proof.
  intros Hrow. simpl in Hrow.
  repeat (destruct Hrow as [<-|Hrow]; [reflexivity|]). contradiction.
Defined.

Lemma val_list_rows_witness :
  exists vl,
    val_list (Array2 small_data_list) 3 = Ok vl /\
    In [1; 2; 3; 2; 5; 13; 30; 2] vl.
Proof.
  destruct (val_list_rows small_data_list 3) as [vl [Hvl Hrows]].
  - simpl. lia.
  - intros row Hrow. rewrite (small_data_list_width row Hrow). lia.
  - exists vl. split; [assumption|]. apply Hrows.
    exists 2%nat, [1; 2; 3; 2; 5; 13; 30].
    split; [reflexivity|]. split; reflexivity.
Defined.

Lemma validation_row_cache_entry_witness :
  exists i orig j im,
    nth_error small_data_list i = Some orig /\
    [1; 2; 3; 2; 5; 13; 30; 2] = orig ++ [Z.of_nat i] /\
    nth_error (cache_joint small_cache) i = Some j /\
    nth_error (cache_image small_cache) i = Some im /\
    fetch_raw no_files (validation_dataset small_validation_list) 1 =
    Ok (j, im).
Proof.
  apply (validation_row_cache_entry unit unit no_files
           (validation_dataset small_validation_list) small_data_list 3
           small_validation_list small_cache 1).
  - exact small_data_list_width.
  - vm_compute. reflexivity.
  - reflexivity.
  - reflexivity.
  - reflexivity.
  - reflexivity.
  - reflexivity.
Defined.

(** The row of position 2 is served from the cache entry 2. *)
Example validation_fetch_third_entry :
  fetch_raw no_files (validation_dataset small_validation_list) 1 =
  Ok (one_frame_joints f32_two_pow_24, one_frame_image 3).
Proof. vm_compute. reflexivity. Qed.

Lemma loop_val_lists_partition_witness :
  exists subs folds indexed,
    subjects (Array2 small_data_list) = Ok subs /\
    loop_val_lists (Array2 small_data_list) = Ok folds /\
    with_original_index (Array2 small_data_list) = Ok indexed /\
    increasing subs /\
    length folds = length subs /\
    (forall f, In f folds -> f <> []) /\
    Permutation (concat folds) indexed.
Proof.
  apply loop_val_lists_partition; [simpl; lia|].
  intros row Hrow. rewrite (small_data_list_width row Hrow). lia.
Defined.

(** The two folds of the small data list. *)
Example loop_val_lists_small :
  subjects (Array2 small_data_list) = Ok [3; 4] /\
  loop_val_lists (Array2 small_data_list) =
  Ok [small_validation_list; [[2; 1; 4; 1; 6; 14; 20; 1]]].
Proof. split; vm_compute; reflexivity. Qed.
